(** * pquiver: schema model, dataset partitioning and the arrowed compiler

    A shallow embedding of [oamap/schema.py], [oamap/dataset.py] and
    [arrowed/compiler.py].  Python exceptions are values of an error type and
    every function that may raise returns a [result]. *)

From Stdlib Require Import ZArith QArith List String Ascii Bool Lia.
From stdpp Require Import base option list strings pretty gmap.

#[local] Set Warnings "-register-all".

Import ListNotations.

Local Close Scope Q_scope.
Local Open Scope string_scope.
Local Open Scope Z_scope.

(* ===================================================================== *)
(** ** Python exceptions and results *)
(* ===================================================================== *)

(** The exception classes the three modules raise, with their message
    (the constant text of the source's format string). *)
Inductive exn :=
| TypeError (msg : string)
| ValueError (msg : string)
| IndexError (msg : string)
| NameError (name : string)
| KeyError (key : string)
| AttributeError (msg : string)
| AssertionError
| NotImplementedError
| ZeroDivisionError
| OverflowError
| RecursionError.

Inductive result (A : Type) :=
| Ok (a : A)
| Raise (e : exn).
Arguments Ok {A} a.
Arguments Raise {A} e.

Definition bind {A B} (r : result A) (k : A -> result B) : result B :=
  match r with
  | Ok a => k a
  | Raise e => Raise e
  end.

Notation "x <- r ;; k" := (bind r (fun x => k))
  (at level 100, r at next level, right associativity).

Definition is_ok {A} (r : result A) : bool :=
  match r with Ok _ => true | Raise _ => false end.

(** [a + b] on Python strings. *)
Notation "a +s b" := (String.append a b) (at level 50, left associativity).

(* ===================================================================== *)
(** ** oamap/schema.py: the schema tree and its array names *)
(* ===================================================================== *)

Module Schema.

(** The six schema classes, as immutable trees (the state of the objects
    that [__call__] reads).  Optional array names are [None] or a string.
    A schema that contains itself is no tree: on such a schema the
    recursion of [__call__] does not come to an end. *)
Inductive Schema :=
| Primitive (dtype : string) (dims : list nat) (nullable : bool)
            (data mask name : option string)
| List (content : Schema) (nullable : bool)
       (starts stops mask name : option string)
| Union (possibilities : list Schema) (nullable : bool)
        (tags offsets mask name : option string)
| Record (fields : list (string * Schema)) (nullable : bool)
         (mask name : option string)
| Tuple (items : list Schema) (nullable : bool) (mask name : option string)
| Pointer (target : Schema) (nullable : bool)
          (positions mask name : option string).

(** The classes that [__call__] fabricates with [type(...)], reduced to the
    attributes they are given. *)
Inductive ConcreteType :=
| PrimitiveType (data : string) (name : option string)
| MaskedPrimitiveType (data mask : string) (name : option string)
| ListType (content : ConcreteType) (starts stops : string)
           (name : option string)
| MaskedListType (content : ConcreteType) (starts stops mask : string)
                 (name : option string)
| UnionType (possibilities : list ConcreteType) (tags offsets : string)
            (name : option string)
| MaskedUnionType (possibilities : list ConcreteType)
                  (tags offsets mask : string) (name : option string)
| RecordType (fields : list (string * ConcreteType)) (name : option string)
| MaskedRecordType (fields : list (string * ConcreteType)) (mask : string)
                   (name : option string)
| TupleType (types : list ConcreteType) (name : option string)
| MaskedTupleType (types : list ConcreteType) (mask : string)
                  (name : option string)
| PointerType (target : ConcreteType) (positions : string)
              (name : option string).

(** [x if x is not None else dflt] *)
Definition or_default (given : option string) (dflt : string) : string :=
  match given with
  | Some s => s
  | None => dflt
  end.

(** [sorted(self._fields)]: the field names in increasing order (insertion
    sort on code points; a dict has no duplicate keys). *)
Fixpoint insert_sorted (n : string) (l : list string) : list string :=
  match l with
  | [] => [n]
  | m :: l' => if String.leb n m then n :: l else m :: insert_sorted n l'
  end.

Definition sorted (l : list string) : list string :=
  fold_right insert_sorted [] l.

(** [self._fields[n]] *)
Fixpoint fields_get {A} (fields : list (string * A)) (n : string) : option A :=
  match fields with
  | [] => None
  | (m, x) :: rest => if String.eqb m n then Some x else fields_get rest n
  end.

(** [[f(x) for x in xs]]: the items are taken left to right and the first
    exception ends the loop. *)
Definition comprehension {A B} (f : A -> result B) : list A -> result (list B) :=
  fix each (xs : list A) : result (list B) :=
    match xs with
    | [] => Ok []
    | x :: xs' => t <- f x ;; ts <- each xs' ;; Ok (t :: ts)
    end.

(** The keys of the dict that [Record.__call__] gives its proxy class: the
    sorted field names, then [_fields], which takes the place of a field
    of that name. *)
Definition proxy_keys (names : list string) : list string :=
  if bool_decide ("_fields" ∈ names) then names else (names ++ ["_fields"])%list.

Section class_creation.

(** [type(name, bases, dict)], with which [__call__] makes its classes.
    The bases ([PrimitiveType], [ListProxy], ...) come from [oamap.proxy],
    which is not among the sources, and whether a class is made of a name
    and a dict is Python's: a name with a NUL character is a [ValueError]
    in Python 3, a key [__slots__] bound to a property a [TypeError].  The
    call is given the name, the name of its one base and the keys of the
    dict, and returns or raises; the class it returns is the
    [ConcreteType] with the values of the dict. *)
Variable type_ : string -> string -> list string -> result unit.

(** [Schema.__call__(self, prefix="object", delimiter="-")] for the six
    classes.  Children are called with one positional argument, so they
    see the default delimiter; only [Pointer] hands its delimiter on.  A
    child is called where the dict of the class is built, before the
    class is made.  The nullable branch of [Pointer] is the bare name
    [HERE].  [Record] calls its fields in sorted order, [self._fields[n]]
    for [n] in [sorted(self._fields)]: a call changes nothing, so every
    field is called here where it stands and the results are read in
    sorted order, up to the first that raised; [properties["_fields"]]
    then replaces the property of a field of that name. *)
Fixpoint call (s : Schema) (prefix delimiter : string) : result ConcreteType :=
  match s with
  | Primitive _ _ nullable data mask name =>
      let data := or_default data prefix in
      if negb nullable then
        _ <- type_ "PrimitiveType" "PrimitiveType" ["data"; "name"] ;;
        Ok (PrimitiveType data name)
      else
        let mask := or_default mask (prefix +s delimiter +s "M") in
        _ <- type_ "MaskedPrimitiveType" "MaskedPrimitiveType" ["data"; "mask"; "name"] ;;
        Ok (MaskedPrimitiveType data mask name)
  | List content nullable starts stops mask name =>
      let starts := or_default starts (prefix +s delimiter +s "B") in
      let stops := or_default stops (prefix +s delimiter +s "E") in
      c <- call content (prefix +s delimiter +s "C") "-" ;;
      _ <- match name with
           | None => type_ "AnonymousList" "AnonymousListProxy" ["_content"]
           | Some n => type_ n "ListProxy" ["_content"]
           end ;;
      if negb nullable then
        _ <- type_ "ListType" "ListType" ["proxytype"; "starts"; "stops"; "name"] ;;
        Ok (ListType c starts stops name)
      else
        let mask := or_default mask (prefix +s delimiter +s "M") in
        _ <- type_ "MaskedListType" "MaskedListType"
                   ["proxytype"; "starts"; "stops"; "mask"; "name"] ;;
        Ok (MaskedListType c starts stops mask name)
  | Union possibilities nullable tags offsets mask name =>
      let tags := or_default tags (prefix +s delimiter +s "T") in
      let offsets := or_default offsets (prefix +s delimiter +s "O") in
      let each :=
        (fix each (xs : list Schema) : result (list ConcreteType) :=
           match xs with
           | [] => Ok []
           | x :: xs' =>
               t <- call x (prefix +s delimiter +s "U") "-" ;;
               ts <- each xs' ;;
               Ok (t :: ts)
           end) in
      if negb nullable then
        ps <- each possibilities ;;
        _ <- type_ "UnionType" "UnionType" ["possibilities"; "tags"; "offsets"; "name"] ;;
        Ok (UnionType ps tags offsets name)
      else
        let mask := or_default mask (prefix +s delimiter +s "M") in
        ps <- each possibilities ;;
        _ <- type_ "MaskedUnionType" "MaskedUnionType"
                   ["possibilities"; "tags"; "offsets"; "mask"; "name"] ;;
        Ok (MaskedUnionType ps tags offsets mask name)
  | Record fields nullable mask name =>
      let called :=
        (fix each (fs : list (string * Schema))
           : list (string * result ConcreteType) :=
           match fs with
           | [] => []
           | (n, x) :: fs' =>
               (n, call x (prefix +s delimiter +s "F") "-") :: each fs'
           end) fields in
      let names := sorted (map fst fields) in
      properties <-
        comprehension
          (fun n => match fields_get called n with
                    | Some r => t <- r ;; Ok (n, t)
                    | None => Raise (KeyError n)
                    end) names ;;
      let properties :=
        List.filter (fun p => negb (String.eqb (fst p) "_fields")) properties in
      _ <- type_ (or_default name "AnonymousRecord") "RecordProxy" (proxy_keys names) ;;
      if negb nullable then
        _ <- type_ "RecordType" "RecordType" ["proxytype"; "name"] ;;
        Ok (RecordType properties name)
      else
        let mask := or_default mask (prefix +s delimiter +s "M") in
        _ <- type_ "MaskedRecordType" "MaskedRecordType" ["proxytype"; "mask"; "name"] ;;
        Ok (MaskedRecordType properties mask name)
  | Tuple items nullable mask name =>
      let each :=
        (fix each (xs : list Schema) : result (list ConcreteType) :=
           match xs with
           | [] => Ok []
           | x :: xs' =>
               t <- call x (prefix +s delimiter +s "I") "-" ;;
               ts <- each xs' ;;
               Ok (t :: ts)
           end) in
      types <- each items ;;
      _ <- match name with
           | None => type_ "AnonymousTuple" "AnonymousTupleProxy" ["_types"]
           | Some n => type_ n "TupleProxy" ["_types"]
           end ;;
      if negb nullable then
        _ <- type_ "TupleType" "TupleType" ["proxytype"; "name"] ;;
        Ok (TupleType types name)
      else
        let mask := or_default mask (prefix +s delimiter +s "M") in
        _ <- type_ "MaskedTupleType" "MaskedTupleType" ["proxytype"; "mask"; "name"] ;;
        Ok (MaskedTupleType types mask name)
  | Pointer target nullable positions mask name =>
      let positions := or_default positions (prefix +s delimiter +s "P") in
      if negb nullable then
        t <- call target (prefix +s delimiter +s "") delimiter ;;
        _ <- type_ "PointerType" "PointerType" ["target"; "positions"; "name"] ;;
        Ok (PointerType t positions name)
      else Raise (NameError "HERE")
  end.

End class_creation.

(** The classes that [__call__] makes on a schema, each as the name, the
    base and the keys that [type] is given. *)
Fixpoint creations (s : Schema) : list (string * string * list string) :=
  match s with
  | Primitive _ _ nullable _ _ _ =>
      if negb nullable then [("PrimitiveType", "PrimitiveType", ["data"; "name"])]
      else [("MaskedPrimitiveType", "MaskedPrimitiveType", ["data"; "mask"; "name"])]
  | List content nullable _ _ _ name =>
      (creations content
       ++ [match name with
           | None => ("AnonymousList", "AnonymousListProxy", ["_content"])
           | Some n => (n, "ListProxy", ["_content"])
           end;
           if negb nullable then
             ("ListType", "ListType", ["proxytype"; "starts"; "stops"; "name"])
           else
             ("MaskedListType", "MaskedListType",
              ["proxytype"; "starts"; "stops"; "mask"; "name"])])%list
  | Union possibilities nullable _ _ _ _ =>
      (flat_map creations possibilities
       ++ [if negb nullable then
             ("UnionType", "UnionType", ["possibilities"; "tags"; "offsets"; "name"])
           else
             ("MaskedUnionType", "MaskedUnionType",
              ["possibilities"; "tags"; "offsets"; "mask"; "name"])])%list
  | Record fields nullable _ name =>
      (flat_map (fun f => creations (snd f)) fields
       ++ [(or_default name "AnonymousRecord", "RecordProxy",
            proxy_keys (sorted (map fst fields)));
           if negb nullable then ("RecordType", "RecordType", ["proxytype"; "name"])
           else ("MaskedRecordType", "MaskedRecordType", ["proxytype"; "mask"; "name"])])%list
  | Tuple items nullable _ name =>
      (flat_map creations items
       ++ [match name with
           | None => ("AnonymousTuple", "AnonymousTupleProxy", ["_types"])
           | Some n => (n, "TupleProxy", ["_types"])
           end;
           if negb nullable then ("TupleType", "TupleType", ["proxytype"; "name"])
           else ("MaskedTupleType", "MaskedTupleType", ["proxytype"; "mask"; "name"])])%list
  | Pointer target _ _ _ _ =>
      (creations target
       ++ [("PointerType", "PointerType", ["target"; "positions"; "name"])])%list
  end.

(** [type] makes the class. *)
Definition created (type_ : string -> string -> list string -> result unit)
    (c : string * string * list string) : Prop :=
  type_ (fst (fst c)) (snd (fst c)) (snd c) = Ok tt.

(** What [type] raised on one of the classes of the schema. *)
Definition raised_by (type_ : string -> string -> list string -> result unit)
    (s : Schema) (e : exn) : Prop :=
  exists c, c ∈ creations s /\ type_ (fst (fst c)) (snd (fst c)) (snd c) = Raise e.

(** A [type] that makes every class. *)
Definition every_class : string -> string -> list string -> result unit :=
  fun _ _ _ => Ok tt.

(** The field of a name, called: [self._fields[n](prefix)]. *)
Definition call_field (type_ : string -> string -> list string -> result unit)
    (fields : list (string * Schema)) (prefix : string) (n : string)
    : result (string * ConcreteType) :=
  match fields_get fields n with
  | Some x => t <- call type_ x prefix "-" ;; Ok (n, t)
  | None => Raise (KeyError n)
  end.

(** The array names a derived type reads, node by node in traversal order:
    every entry is one (node, role) pair, so a name listed twice is a name
    that two places of the tree read. *)
Fixpoint arrays (t : ConcreteType) : list string :=
  match t with
  | PrimitiveType data _ => [data]
  | MaskedPrimitiveType data mask _ => [data; mask]
  | ListType c starts stops _ => starts :: stops :: arrays c
  | MaskedListType c starts stops mask _ => starts :: stops :: mask :: arrays c
  | UnionType ps tags offsets _ => tags :: offsets :: flat_map arrays ps
  | MaskedUnionType ps tags offsets mask _ =>
      tags :: offsets :: mask :: flat_map arrays ps
  | RecordType fs _ => flat_map (fun f => arrays (snd f)) fs
  | MaskedRecordType fs mask _ => mask :: flat_map (fun f => arrays (snd f)) fs
  | TupleType ts _ => flat_map arrays ts
  | MaskedTupleType ts mask _ => mask :: flat_map arrays ts
  | PointerType t positions _ => positions :: arrays t
  end.

(** *** Objects with identity

    [__repr__] and [_collect] compare nodes with [is] and [id(self)], and a
    schema may contain itself, so for them a schema is a store of objects:
    [id] is a number and a child is the [id] of its object.  The [name] of a
    node is not read by these methods. *)
Inductive node :=
| NPrimitive (dtype : string) (dims : list nat) (nullable : bool)
             (data mask : option string)
| NList (content : nat) (nullable : bool) (starts stops mask : option string)
| NUnion (possibilities : list nat) (nullable : bool)
         (tags offsets mask : option string)
| NRecord (fields : list (string * nat)) (nullable : bool)
          (mask : option string)
| NTuple (items : list nat) (nullable : bool) (mask : option string)
| NPointer (target : nat) (nullable : bool) (positions mask : option string).

Definition heap := nat -> node.

(** A computation whose recursion depth is bounded by fuel: [None] when the
    depth is used up, else what Python returns or raises. *)
Definition run (A : Type) := option (result A).

Definition run_bind {A B} (m : run A) (k : A -> run B) : run B :=
  match m with
  | None => None
  | Some (Raise e) => Some (Raise e)
  | Some (Ok a) => k a
  end.

Notation "x <~ m ;; k" := (run_bind m (fun x => k))
  (at level 100, m at next level, right associativity).

(** [for x in xs: step(x)] over a threaded state. *)
Fixpoint for_each {A S} (step : A -> S -> run S) (xs : list A) (st : S) : run S :=
  match xs with
  | [] => Some (Ok st)
  | x :: xs' => st' <~ step x st ;; for_each step xs' st'
  end.

(** [X._collect(self, collection, labels)]: [collection] is the set of ids
    seen, [labels] the list of nodes met again. *)
Fixpoint collect (fuel : nat) (h : heap) (self : nat)
    (st : gset nat * list nat) : run (gset nat * list nat) :=
  match fuel with
  | O => None
  | S fuel' =>
      let '(collection, labels) := st in
      if decide (self ∈ collection) then Some (Ok (collection, (labels ++ [self])%list))
      else
        let st := ({[self]} ∪ collection, labels) in
        match h self with
        | NPrimitive _ _ _ _ _ => Some (Ok st)
        | NList content _ _ _ _ => collect fuel' h content st
        | NUnion possibilities _ _ _ _ =>
            for_each (collect fuel' h) possibilities st
        | NRecord fields _ _ =>
            for_each (collect fuel' h) (map snd fields) st
        | NTuple items _ _ => for_each (collect fuel' h) items st
        | NPointer target _ _ _ => collect fuel' h target st
        end
  end.

(** [Schema._labels] *)
Definition labels_of (fuel : nat) (h : heap) (self : nat) : run (list nat) :=
  st <~ collect fuel h self (∅, []) ;; Some (Ok (snd st)).

(** [Schema._label]: ["#i"] for the first [i] with [labels[i] is self]. *)
Fixpoint label_from (index : nat) (labels : list nat) (self : nat) : option string :=
  match labels with
  | [] => None
  | l :: labels' =>
      if Nat.eqb l self then Some ("#" +s pretty index)
      else label_from (S index) labels' self
  end.

Definition label_of (labels : list nat) (self : nat) : option string :=
  label_from 0 labels self.

(** [repr] of a string (no quote or escape inside), of [dims], and the
    optional keyword arguments of the printed form. *)
Definition repr_str (s : string) : string := "'" +s s +s "'".

Definition repr_dims (dims : list nat) : string :=
  match dims with
  | [d] => "(" +s pretty d +s ",)"
  | _ => "(" +s String.concat ", " (map pretty dims) +s ")"
  end.

Definition kw (key : string) (v : option string) : list (option string) :=
  match v with
  | Some a => [Some (key +s "=" +s repr_str a)]
  | None => []
  end.

Definition kw_nullable (nullable : bool) : list (option string) :=
  if nullable then [Some "nullable=True"] else [].

Definition kw_dims (dims : list nat) : list (option string) :=
  match dims with
  | [] => []
  | _ => [Some ("dims=" +s repr_dims dims)]
  end.

(** [", ".join(args)]: a [None] among the items is a [TypeError]. *)
Definition join (args : list (option string)) : result string :=
  if forallb (fun a => bool_decide (is_Some a)) args
  then Ok (String.concat ", " (omap id args))
  else Raise (TypeError "sequence item: expected str instance, NoneType found").

(** The two [return] lines that end the printing branch: [sep] is what the
    class puts between the label and its name. *)
Definition finish (cls sep : string) (label : option string)
    (args : list (option string)) : result (option string) :=
  a <- join args ;;
  match label with
  | None => Ok (Some (cls +s "(" +s a +s ")"))
  | Some l => Ok (Some (l +s sep +s cls +s "(" +s a +s ")"))
  end.

(** The builtin [repr(x)]: [x.__repr__()] with no arguments, which must
    return a string. *)
Definition builtin_repr (r : run (option string * gset nat)) : run string :=
  out <~ r ;;
  match fst out with
  | Some text => Some (Ok text)
  | None => Some (Raise (TypeError "__repr__ returned non-string"))
  end.

(** [x.__repr__(labels, shown)] for every [x] of [xs], left to right, on
    the shared [shown]. *)
Fixpoint repr_each (f : nat -> gset nat -> run (option string * gset nat))
    (xs : list nat) (shown : gset nat) : run (list (option string) * gset nat) :=
  match xs with
  | [] => Some (Ok ([], shown))
  | x :: xs' =>
      r <~ f x shown ;;
      rs <~ repr_each f xs' (snd r) ;;
      Some (Ok (fst r :: fst rs, snd rs))
  end.

(** [repr(n) + ": " + repr(x)] for every field of a [Record]. *)
Fixpoint repr_fields (f : nat -> run string) (fields : list (string * nat))
    : run (list string) :=
  match fields with
  | [] => Some (Ok [])
  | (n, x) :: fields' =>
      r <~ f x ;;
      rs <~ repr_fields f fields' ;;
      Some (Ok ((repr_str n +s ": " +s r) :: rs))
  end.

(** [X.__repr__(self, labels=None, shown=None)] for the six classes.  The
    result is the returned object ([None] where the method falls off its
    end) and the set [shown] as the call leaves it. *)
Fixpoint repr (fuel : nat) (h : heap) (self : nat)
    (given : option (list nat * gset nat)) : run (option string * gset nat) :=
  match fuel with
  | O => None
  | S fuel' =>
      ctx <~ match given with
             | Some c => Some (Ok c)
             | None => labels <~ labels_of fuel' h self ;; Some (Ok (labels, ∅))
             end ;;
      let '(labels, shown) := ctx in
      let label := label_of labels self in
      if bool_decide (label = None) || bool_decide (self ∉ shown) then
        let shown := {[self]} ∪ shown in
        match h self with
        | NPrimitive dtype dims nullable data mask =>
            let args := ([Some ("dtype('" +s dtype +s "')")] ++ kw_dims dims
                         ++ kw_nullable nullable ++ kw "data" data
                         ++ kw "mask" mask)%list in
            Some (text <- finish "Primitive" ": " label args ;; Ok (text, shown))
        | NList content nullable starts stops mask =>
            c <~ repr fuel' h content (Some (labels, shown)) ;;
            let args := ([fst c] ++ kw_nullable nullable ++ kw "starts" starts
                         ++ kw "stops" stops ++ kw "mask" mask)%list in
            Some (text <- finish "List" ": " label args ;; Ok (text, snd c))
        | NUnion possibilities nullable tags offsets mask =>
            cs <~ repr_each (fun x sh => repr fuel' h x (Some (labels, sh)))
                            possibilities shown ;;
            Some (inner <- join (fst cs) ;;
                  let args := ([Some ("[" +s inner +s "]")] ++ kw_nullable nullable
                               ++ kw "tags" tags ++ kw "offsets" offsets
                               ++ kw "mask" mask)%list in
                  text <- finish "Union" ": " label args ;; Ok (text, snd cs))
        | NRecord fields nullable mask =>
            cs <~ repr_fields (fun x => builtin_repr (repr fuel' h x None))
                              fields ;;
            let args := ([Some ("{" +s String.concat ", " cs +s "}")]
                         ++ kw_nullable nullable ++ kw "mask" mask)%list in
            Some (text <- finish "Record" ": " label args ;; Ok (text, shown))
        | NTuple items nullable mask =>
            cs <~ repr_each (fun x sh => repr fuel' h x (Some (labels, sh)))
                            items shown ;;
            Some (inner <- join (fst cs) ;;
                  let args := ([Some ("[" +s inner +s "]")] ++ kw_nullable nullable
                               ++ kw "mask" mask)%list in
                  text <- finish "Tuple" "" label args ;; Ok (text, snd cs))
        | NPointer target nullable positions mask =>
            c <~ repr fuel' h target (Some (labels, shown)) ;;
            let args := ([fst c] ++ kw_nullable nullable
                         ++ kw "positions" positions ++ kw "mask" mask)%list in
            Some (text <- finish "Pointer" "" label args ;; Ok (text, snd c))
        end
      else
        match h self with
        | NTuple _ _ _ => Some (Ok (None, shown))
        | _ => Some (Ok (label, shown))
        end
  end.

(** *** Constructors and mutators of [Union] and [Tuple] *)

(** The objects a caller may pass where a schema is expected. *)
Inductive pyobj :=
| ObjSchema (id : nat)
| ObjInt (n : Z)
| ObjStr (s : string)
| ObjNone
| ObjList (items : list pyobj).

Definition isinstance_Schema (x : pyobj) : bool :=
  match x with
  | ObjSchema _ => true
  | _ => false
  end.

(** [iter(x)]: the items of an iterable, [None] for any other object. *)
Definition py_iter (x : pyobj) : option (list pyobj) :=
  match x with
  | ObjList items => Some items
  | ObjStr s =>
      Some (map (fun c => ObjStr (String c EmptyString)) (list_ascii_of_string s))
  | _ => None
  end.

(** The names bound at module level, where a name that is neither a
    parameter nor a local of a method is looked up. *)
Definition globals := gmap string pyobj.

(** [schema.py] binds its imports and its classes at module level, and
    neither [value] nor [item]. *)
Definition schema_globals : globals := ∅.

(** The loop of [_extend]: every item must be a [Schema]; the first that is
    not raises, with its index in the message. *)
Fixpoint validate (what : string) (i : nat) (items : list pyobj)
    : result (list pyobj) :=
  match items with
  | [] => Ok []
  | x :: rest =>
      if isinstance_Schema x then
        trial <- validate what (S i) rest ;; Ok (x :: trial)
      else
        Raise (TypeError (what +s " must be an iterable of Schemas; item at "
                          +s pretty i +s " is not one"))
  end.

(** [Union._extend(self, possibilities, start)]: the new value of
    [self._possibilities].  The loop and both messages read the name
    [value], which is not a parameter of the method. *)
Definition Union__extend (g : globals) (possibilities : pyobj)
    (start : list pyobj) : result (list pyobj) :=
  match g !! "value" with
  | None => Raise (NameError "value")
  | Some value =>
      match py_iter value with
      | None => Raise (TypeError "possibilities must be an iterable of Schemas")
      | Some items =>
          trial <- validate "possibilities" 0 items ;; Ok (start ++ trial)%list
      end
  end.

(** [Union.__init__] assigns [self.possibilities] first, whose setter is
    [self._extend(value, [])]. *)
Definition Union_init (g : globals) (possibilities : pyobj) : result (list pyobj) :=
  Union__extend g possibilities [].

(** [Union.extend(self, possibilities)] *)
Definition Union_extend (g : globals) (self_possibilities : list pyobj)
    (possibilities : pyobj) : result (list pyobj) :=
  Union__extend g possibilities self_possibilities.

(** [Tuple._extend(self, items, start)], which reads [value] as well. *)
Definition Tuple__extend (g : globals) (items : pyobj) (start : list pyobj)
    : result (list pyobj) :=
  match g !! "value" with
  | None => Raise (NameError "value")
  | Some value =>
      match py_iter value with
      | None => Raise (TypeError "items must be an iterable of Schemas")
      | Some xs => trial <- validate "items" 0 xs ;; Ok (start ++ trial)%list
      end
  end.

Definition Tuple_init (g : globals) (items : pyobj) : result (list pyobj) :=
  Tuple__extend g items [].

Definition Tuple_extend (g : globals) (self_items : list pyobj) (items : pyobj)
    : result (list pyobj) :=
  Tuple__extend g items self_items.

(** [l[index] = x] on a Python list. *)
Definition list_setitem {A} (l : list A) (index : Z) (x : A) : result (list A) :=
  let n := Z.of_nat (length l) in
  let i := if index <? 0 then index + n else index in
  if (0 <=? i) && (i <? n) then Ok (<[Z.to_nat i := x]> l)
  else Raise (IndexError "list assignment index out of range").

(** [Tuple.__setitem__(self, index, value)]: the test is on the name
    [item], which is not a parameter of the method. *)
Definition Tuple_setitem (g : globals) (self_items : list pyobj) (index : Z)
    (value : pyobj) : result (list pyobj) :=
  match g !! "item" with
  | None => Raise (NameError "item")
  | Some item =>
      if negb (isinstance_Schema item)
      then Raise (TypeError "items must be Schemas")
      else list_setitem self_items index value
  end.

(** *** Predicates on schemas, and the other constructors *)

(** Whether a nullable [Pointer] occurs in the schema. *)
Fixpoint nullable_pointer (s : Schema) : bool :=
  match s with
  | Primitive _ _ _ _ _ _ => false
  | List content _ _ _ _ _ => nullable_pointer content
  | Union possibilities _ _ _ _ _ => existsb nullable_pointer possibilities
  | Record fields _ _ _ => existsb (fun f => nullable_pointer (snd f)) fields
  | Tuple items _ _ _ => existsb nullable_pointer items
  | Pointer target nullable _ _ _ => nullable || nullable_pointer target
  end.

(** Whether no array name is given anywhere in the schema. *)
Fixpoint unnamed (s : Schema) : bool :=
  match s with
  | Primitive _ _ _ data mask _ => bool_decide (data = None) && bool_decide (mask = None)
  | List content _ starts stops mask _ =>
      bool_decide (starts = None) && bool_decide (stops = None)
      && bool_decide (mask = None) && unnamed content
  | Union possibilities _ tags offsets mask _ =>
      bool_decide (tags = None) && bool_decide (offsets = None)
      && bool_decide (mask = None) && forallb unnamed possibilities
  | Record fields _ mask _ =>
      bool_decide (mask = None) && forallb (fun f => unnamed (snd f)) fields
  | Tuple items _ mask _ => bool_decide (mask = None) && forallb unnamed items
  | Pointer target _ positions mask _ =>
      bool_decide (positions = None) && bool_decide (mask = None) && unnamed target
  end.

(** The objects a node refers to. *)
Definition children (x : node) : list nat :=
  match x with
  | NPrimitive _ _ _ _ _ => []
  | NList content _ _ _ _ => [content]
  | NUnion possibilities _ _ _ _ => possibilities
  | NRecord fields _ _ => map snd fields
  | NTuple items _ _ => items
  | NPointer target _ _ _ => [target]
  end.

(** The objects with an id below [n] refer to one another only. *)
Definition closed (h : heap) (n : nat) : Prop :=
  forall id : nat, (id < n)%nat -> Forall (fun c => (c < n)%nat) (children (h id)).

(** The character classes [[a-zA-Z_]] and [[a-zA-Z_0-9]]. *)
Definition identifier_start (c : ascii) : bool :=
  let n := nat_of_ascii c in
  ((97 <=? n) && (n <=? 122) || (65 <=? n) && (n <=? 90) || (n =? 95))%nat.

Definition identifier_part (c : ascii) : bool :=
  let n := nat_of_ascii c in
  identifier_start c || ((48 <=? n) && (n <=? 57))%nat.

(** The longest run of [[a-zA-Z_0-9]] at the start of a string. *)
Fixpoint identifier_run (s : string) : string :=
  match s with
  | String c rest => if identifier_part c then String c (identifier_run rest) else ""
  | EmptyString => ""
  end.

(** [Record._identifier.match(n)] for the pattern [[a-zA-Z_][a-zA-Z_0-9]*]:
    the text matched at the start of [n] ([match] does not ask the pattern
    to reach the end of the string), or [None]. *)
Definition identifier_match (n : string) : option string :=
  match n with
  | String c rest =>
      if identifier_start c then Some (String c (identifier_run rest)) else None
  | EmptyString => None
  end.

(** What a caller may pass as [fields]: a dict, given by its items in
    order, or an object that has no [items]. *)
Inductive fields_arg :=
| FieldsDict (items : list (pyobj * pyobj))
| FieldsOther (x : pyobj).

(** [raise TypeError(err.message)] in the handler of [AssertionError]:
    an exception has a [message] in Python 2 only. *)
Definition reraise (py2 : bool) (message : string) : exn :=
  if py2 then TypeError message
  else AttributeError "'AssertionError' object has no attribute 'message'".

(** The loop of [Record._extend]. *)
Fixpoint Record_validate (py2 : bool) (items : list (pyobj * pyobj))
    : result (list (pyobj * pyobj)) :=
  match items with
  | [] => Ok []
  | (n, x) :: rest =>
      if match n with
         | ObjStr name => bool_decide (identifier_match name <> None)
         | _ => false
         end then
        if isinstance_Schema x then
          trial <- Record_validate py2 rest ;; Ok ((n, x) :: trial)
        else
          Raise (reraise py2 "fields must be a dict from identifier strings to Schemas; the value is not a Schema")
      else
        Raise (reraise py2 "fields must be a dict from identifier strings to Schemas; the key is not an identifier")
  end.

(** [hash(k)] succeeds, and [k1 == k2] on such keys. *)
Definition hashable (k : pyobj) : bool :=
  match k with
  | ObjList _ => false
  | _ => true
  end.

Definition key_eqb (k1 k2 : pyobj) : bool :=
  match k1, k2 with
  | ObjSchema a, ObjSchema b => Nat.eqb a b
  | ObjInt a, ObjInt b => Z.eqb a b
  | ObjStr a, ObjStr b => String.eqb a b
  | ObjNone, ObjNone => true
  | _, _ => false
  end.

(** [d[k] = v] on an [OrderedDict]: a key that is there keeps its place. *)
Fixpoint odict_set (d : list (pyobj * pyobj)) (k v : pyobj) : list (pyobj * pyobj) :=
  match d with
  | [] => [(k, v)]
  | (k', v') :: d' => if key_eqb k' k then (k, v) :: d' else (k', v') :: odict_set d' k v
  end.

Fixpoint odict_get (d : list (pyobj * pyobj)) (k : pyobj) : option pyobj :=
  match d with
  | [] => None
  | (k', v') :: d' => if key_eqb k' k then Some v' else odict_get d' k
  end.

(** [OrderedDict(pairs)] *)
Definition OrderedDict (pairs : list (pyobj * pyobj)) : list (pyobj * pyobj) :=
  fold_left (fun d kv => odict_set d (fst kv) (snd kv)) pairs [].

(** [Record._extend(self, fields, start)]: the new [self._fields]. *)
Definition Record__extend (py2 : bool) (fields : fields_arg)
    (start : list (pyobj * pyobj)) : result (list (pyobj * pyobj)) :=
  match fields with
  | FieldsOther _ => Raise (TypeError "fields must be a dict from strings to Schemas")
  | FieldsDict items =>
      trial <- Record_validate py2 items ;; Ok (OrderedDict (start ++ trial))
  end.

(** [Record.__init__] assigns [self.fields] first, whose setter is
    [self._extend(value, [])]. *)
Definition Record_init (py2 : bool) (fields : fields_arg) : result (list (pyobj * pyobj)) :=
  Record__extend py2 fields [].

(** [Record.__setitem__(self, index, value)] and
    [Record.__getitem__(self, index)]. *)
Definition Record_setitem (self_fields : list (pyobj * pyobj)) (index value : pyobj)
    : result (list (pyobj * pyobj)) :=
  if negb (isinstance_Schema value) then Raise (TypeError "field values must be Schemas")
  else if negb (hashable index) then Raise (TypeError "unhashable type")
  else Ok (odict_set self_fields index value).

Definition Record_getitem (self_fields : list (pyobj * pyobj)) (index : pyobj)
    : result pyobj :=
  if negb (hashable index) then Raise (TypeError "unhashable type")
  else match odict_get self_fields index with
       | Some x => Ok x
       | None => Raise (KeyError "index")
       end.

(** The setter of [Pointer.target], which [Pointer.__init__] calls first:
    it stores the name [target], which is not a parameter of the setter. *)
Definition Pointer_set_target (g : globals) (value : pyobj) : result pyobj :=
  if negb (isinstance_Schema value) then Raise (TypeError "target must be a Schema")
  else match g !! "target" with
       | None => Raise (NameError "target")
       | Some target => Ok target
       end.

(** A key that [Record.__init__] takes. *)
Definition accepted_key (n : pyobj) : Prop :=
  exists (c : ascii) (rest : string), n = ObjStr (String c rest) /\ identifier_start c = true.

(** *** Example schemas *)

(** [Record({"a": Primitive("int64"), "b": Primitive("float64")})] *)
Definition two_fields : Schema :=
  Record [("a", Primitive "int64" [] false None None None);
          ("b", Primitive "float64" [] false None None None)] false None None.

(** Lists nested in lists down to a primitive, with no array name given:
    the schemas in which no node has a sibling. *)
Fixpoint chain (s : Schema) : Prop :=
  match s with
  | Primitive _ _ _ None None _ => True
  | List content _ None None None _ => chain content
  | _ => False
  end.

(** [List(List(Primitive("int64"), nullable=True))] *)
Definition nested_lists : Schema :=
  List (List (Primitive "int64" [] false None None None) true None None None None)
       false None None None None.

(** [r = Record({}); r["me"] = r]: object 0 is a record whose one field is
    itself. *)
Definition self_record : heap :=
  fun id =>
    match id with
    | O => NRecord [("me", O)] false None
    | _ => NPrimitive "int64" [] false None None
    end.

(** [l = List(Primitive("int64")); l.content = l] *)
Definition self_list : heap :=
  fun id =>
    match id with
    | O => NList O false None None None
    | _ => NPrimitive "int64" [] false None None
    end.

End Schema.

(* ===================================================================== *)
(** ** oamap/dataset.py: array providers and partitioned datasets *)
(* ===================================================================== *)

Module Dataset.
Import Schema.

(** *** numpy arrays *)

(** What [Dataset] asks of an element of a numpy array: [x != 0],
    [x <= y] and [int(x)], which may raise. *)
Class NumpyElem (T : Type) := {
  np_ne0 : T -> bool;
  np_le : T -> T -> bool;
  np_int : T -> result Z
}.

(** [dtype=int64]: integers. *)
#[export] Instance int64_elem : NumpyElem Z := {|
  np_ne0 x := negb (x =? 0);
  np_le := Z.leb;
  np_int x := Ok x
|}.

(** A value of [dtype=float64]: a finite one, which is a rational, an
    infinity or a NaN. *)
Inductive float64 :=
| Finite (q : Q)
| PosInf
| NegInf
| NaN.

(** [x <= y] on two values of [float64]: false as soon as one is a NaN. *)
Definition float64_le (x y : float64) : bool :=
  match x with
  | NaN => false
  | NegInf => match y with NaN => false | _ => true end
  | Finite a =>
      match y with
      | Finite b => Qle_bool a b
      | PosInf => true
      | NegInf | NaN => false
      end
  | PosInf => match y with PosInf => true | _ => false end
  end.

(** [dtype=float64]: the finite values compare as the rationals they are,
    and [int] rounds them towards zero; [int] of an infinity is an
    [OverflowError] and [int] of a NaN a [ValueError]. *)
#[export] Instance float64_elem : NumpyElem float64 := {|
  np_ne0 x := match x with
              | Finite q => negb (Qeq_bool q 0)
              | _ => true
              end;
  np_le := float64_le;
  np_int x := match x with
              | Finite q => Ok (Z.quot (Qnum q) (Z.pos (Qden q)))
              | PosInf | NegInf => Raise OverflowError
              | NaN => Raise (ValueError "cannot convert float NaN to integer")
              end
|}.

(** The values of [float64] that are not below zero: no NaN is. *)
Definition nonnegative (x : float64) : Prop :=
  match x with
  | Finite q => (0 <= q)%Q
  | PosInf => True
  | NegInf | NaN => False
  end.

(** An array: [len(a.shape)] and, for a one-dimensional one, its items. *)
Record ndarray (T : Type) := { ndim : nat; items : list T }.
Arguments ndim {T} _.
Arguments items {T} _.

(** [a[i]] with numpy's negative indices. *)
Definition ndarray_getitem {T} (a : list T) (i : Z) : result T :=
  let n := Z.of_nat (length a) in
  let j := if i <? 0 then i + n else i in
  if (0 <=? j) && (j <? n) then
    match a !! Z.to_nat j with
    | Some x => Ok x
    | None => Raise (IndexError "index is out of bounds")
    end
  else Raise (IndexError "index is out of bounds").

(** [numpy.searchsorted(a, v, side="right")] on an array in increasing
    order, by numpy's contract: the first position whose item exceeds [v],
    so that [a[i-1] <= v < a[i]]. *)
Fixpoint searchsorted (a : list Z) (v : Z) : Z :=
  match a with
  | [] => 0
  | x :: a' => if x <=? v then 1 + searchsorted a' v else 0
  end.

(** [numpy.all(a[:-1] <= a[1:])] *)
Fixpoint all_le {T} `{NumpyElem T} (a : list T) : bool :=
  match a with
  | x :: (y :: _) as a' => np_le x y && all_le a'
  | _ => true
  end.

(** *** The Python values given as [offsets] or as an index *)
Inductive pyval :=
| PyInt (n : Z)
| PyBool (b : bool)
| PyFloat (q : Q)
| PyStr (s : string)
| PyNone
| PyList (elts : list pyval)
| PyTuple (elts : list pyval)
| PySlice (start stop step : option Z).

(** [isinstance(x, numbers.Integral)], with the integer [x] is. *)
Definition integral (x : pyval) : option Z :=
  match x with
  | PyInt n => Some n
  | PyBool b => Some (if b then 1 else 0)
  | _ => None
  end.

(** [for x in o]: the items, or [None] when [o] cannot be iterated. *)
Definition iterate (o : pyval) : option (list pyval) :=
  match o with
  | PyList elts | PyTuple elts => Some elts
  | PyStr s =>
      Some (map (fun c => PyStr (String c EmptyString)) (list_ascii_of_string s))
  | _ => None
  end.

(** [isinstance(x, numbers.Integral) and x >= 0] *)
Definition integral_nonneg (x : pyval) : option Z :=
  n ← integral x; if 0 <=? n then Some n else None.

(** The arm of [__init__] for an [offsets] that is not an ndarray: the
    [all(...)] test inside [try], then [numpy.array(offsets, dtype=int64)],
    which refuses an integer that does not fit. *)
Definition from_iterable (offsets : pyval) : result (ndarray Z) :=
  match iterate offsets with
  | None => Raise (TypeError "offsets must be an iterable of non-negative integers")
  | Some elts =>
      match mapM integral_nonneg elts with
      | None =>
          Raise (TypeError "offsets must be an iterable of non-negative integers")
      | Some ns =>
          if forallb (fun n => n <? 2 ^ 63) ns
          then Ok {| ndim := 1; items := ns |}
          else Raise OverflowError
      end
  end.

(** *** Roles, backends and [DataArrays] *)

(** Modelled from the spec: the roles of [oamap.generator], which is not
    among the sources.  A role is a column of the schema: its kind, the name
    of its array ([str(role)]) and its namespace; two roles are [==] when
    they agree on all three. *)
Inductive role_kind :=
| StartsRole | StopsRole | DataRole | MaskRole | TagsRole | OffsetsRole
| PositionsRole.

Record Role := { kind : role_kind; array_name : string; namespace : string }.

#[export] Instance role_kind_eq_dec : EqDecision role_kind.
Proof. solve_decision. Defined.

#[export] Instance Role_eq_dec : EqDecision Role.
Proof. solve_decision. Defined.

Definition array := list Z.

(** What [backend.instantiate(partitionid)] returns: an object with a
    [getall] method, or one that is only subscripted by array name. *)
Inductive active :=
| Provider (getall : list Role -> list (Role * array))
| Mapping (content : gmap string array).

(** A backend is its [instantiate] method. *)
Definition backend := option Z -> active.

(** The calls made on backends, in order. *)
Inductive event :=
| Instantiate (namespace : string) (partitionid : option Z)
| GetAll (namespace : string) (roles : list Role)
| GetItem (namespace : string) (key : string).

(** The fields that [DatasetArrays] adds to [DataArrays]. *)
Record DatasetPart := {
  _startsrole : Role;
  _stopsrole : Role;
  _numentries : Z
}.

(** A [DataArrays] object; [_dataset] is set on a [DatasetArrays].  [log]
    records the calls the object has made on its backends. *)
Record DataArrays := {
  _backends : list (string * backend);
  _active : gmap string (option active);
  _partitionid : option Z;
  _dataset : option DatasetPart;
  log : list event
}.

(** The dict [out], in insertion order. *)
Definition dict := list (Role * array).

Fixpoint dict_set (d : dict) (k : Role) (v : array) : dict :=
  match d with
  | [] => [(k, v)]
  | (k', v') :: d' =>
      if decide (k' = k) then (k, v) :: d' else (k', v') :: dict_set d' k v
  end.

Fixpoint dict_get (d : dict) (k : Role) : option array :=
  match d with
  | [] => None
  | (k', v') :: d' => if decide (k' = k) then Some v' else dict_get d' k
  end.

(** [d.update(pairs)] *)
Definition dict_update (d : dict) (pairs : list (Role * array)) : dict :=
  fold_left (fun d kv => dict_set d (fst kv) (snd kv)) pairs d.

(** [l.index(x)] *)
Fixpoint index_of (l : list Role) (x : Role) : option nat :=
  match l with
  | [] => None
  | y :: l' => if decide (y = x) then Some 0%nat else S <$> index_of l' x
  end.

(** [_toplevel(self, out, filtered)]: the identity of [DataArrays], and the
    override of [DatasetArrays] that answers the two boundary roles itself. *)
Definition toplevel (self : DataArrays) (out : dict) (filtered : list Role)
    : dict * list Role :=
  match _dataset self with
  | None => (out, filtered)
  | Some ds =>
      let '(out, filtered) :=
        match index_of filtered (_startsrole ds) with
        | None => (out, filtered)
        | Some index =>
            (dict_set out (_startsrole ds) [0], delete index filtered)
        end in
      match index_of filtered (_stopsrole ds) with
      | None => (out, filtered)
      | Some index =>
          (dict_set out (_stopsrole ds) [_numentries ds], delete index filtered)
      end
  end.

Definition with_log (self : DataArrays) (e : event) : DataArrays :=
  {| _backends := _backends self; _active := _active self;
     _partitionid := _partitionid self; _dataset := _dataset self;
     log := log self ++ [e] |}.

Definition with_active (self : DataArrays) (namespace : string) (a : option active)
    : DataArrays :=
  {| _backends := _backends self; _active := <[namespace := a]> (_active self);
     _partitionid := _partitionid self; _dataset := _dataset self;
     log := log self |}.

(** [for x in roles: out[x] = active[str(x)]] *)
Fixpoint read_each (namespace : string) (content : gmap string array)
    (roles : list Role) (st : dict * DataArrays) : result (dict * DataArrays) :=
  match roles with
  | [] => Ok st
  | x :: roles' =>
      let self := with_log (snd st) (GetItem namespace (array_name x)) in
      match content !! array_name x with
      | None => Raise (KeyError (array_name x))
      | Some a => read_each namespace content roles' (dict_set (fst st) x a, self)
      end
  end.

(** The body of the loop of [getall] for one [(namespace, backend)]. *)
Definition getall_step (roles : list Role) (st : dict * DataArrays)
    (nb : string * backend) : result (dict * DataArrays) :=
  let '(out, self) := st in
  let '(ns, backend) := nb in
  let '(out, filtered) :=
    toplevel self out (filter (fun x => namespace x = ns) roles) in
  if (0 <? length filtered)%nat then
    let '(act, self) :=
      match default None (_active self !! ns) with
      | Some a => (a, self)
      | None =>
          let a := backend (_partitionid self) in
          (a, with_log (with_active self ns (Some a))
                       (Instantiate ns (_partitionid self)))
      end in
    match act with
    | Provider getall =>
        Ok (dict_update out (getall filtered), with_log self (GetAll ns filtered))
    | Mapping content => read_each ns content roles (out, self)
    end
  else Ok (out, self).

(** [DataArrays.getall(self, roles)]: the dict returned, and the object as
    the call leaves it. *)
Definition getall (self : DataArrays) (roles : list Role)
    : result (dict * DataArrays) :=
  fold_left (fun st nb => st <- st ;; getall_step roles st nb)
            (_backends self) (Ok ([], self)).

(** *** [Dataset] *)

(** The fields of a [Dataset] that its methods read ([packing],
    [extension], [doc] and [metadata] are stored and handed back as they
    are).  [_namespace] is [self._schema.namespace]. *)
Record Dataset (T : Type) := {
  _name : string;
  _schema : Schema;
  _namespace : string;
  _dbackends : list (string * backend);
  _offsets : list T;
  _prefix : string;
  _delimiter : string
}.
Arguments _name {T} _.
Arguments _schema {T} _.
Arguments _namespace {T} _.
Arguments _dbackends {T} _.
Arguments _offsets {T} _.
Arguments _prefix {T} _.
Arguments _delimiter {T} _.

(** The [offsets] argument: any Python object, or an ndarray of some
    element type. *)
Inductive offsets_arg : Type -> Type :=
| FromObject (o : pyval) : offsets_arg Z
| FromNdarray {T : Type} (a : ndarray T) : offsets_arg T.

Definition isinstance_List (schema : Schema) : bool :=
  match schema with
  | List _ _ _ _ _ _ => true
  | _ => false
  end.

(** The three checks of [__init__] on the array. *)
Definition check_offsets {T} `{NumpyElem T} (offsets : ndarray T)
    : result (list T) :=
  if negb (ndim offsets =? 1)%nat then
    Raise (ValueError "offsets must be one-dimensional")
  else if (length (items offsets) <? 2)%nat
          || match items offsets with
             | x :: _ => np_ne0 x
             | [] => false
             end then
    Raise (ValueError "offsets must have at least two items, and the first one must be zero")
  else if negb (all_le (items offsets)) then
    Raise (ValueError "offsets must be monotonically increasing")
  else Ok (items offsets).

(** [Dataset.__init__(self, name, schema, backends, offsets, ...)] *)
Definition init {T} `{ops : NumpyElem T} (name : string) (schema : Schema)
    (namespace : string) (backends : list (string * backend))
    (offsets : offsets_arg T) (prefix delimiter : string) : result (Dataset T) :=
  if negb (isinstance_List schema) then
    Raise (TypeError "Dataset must have a list schema")
  else
    checked <-
      match offsets in offsets_arg T0 return NumpyElem T0 -> result (list T0) with
      | FromObject o => fun _ =>
          a <- from_iterable o ;; check_offsets (H := int64_elem) a
      | FromNdarray a => fun ops' => check_offsets (H := ops') a
      end ops ;;
    Ok {| _name := name; _schema := schema; _namespace := namespace;
          _dbackends := backends; _offsets := checked;
          _prefix := prefix; _delimiter := delimiter |}.

(** [numpartitions] and [numentries] *)
Definition numpartitions {T} (self : Dataset T) : Z :=
  Z.of_nat (length (_offsets self)) - 1.

Definition numentries {T} `{NumpyElem T} (self : Dataset T) : result Z :=
  x <- ndarray_getitem (_offsets self) (-1) ;; np_int x.

(** Modelled from the spec: [List._get_starts] and [List._get_stops], which
    the [schema.py] among the sources does not define: the names that
    [List.__call__] derives for the list's own boundary arrays. *)
Definition get_starts (schema : Schema) (prefix delimiter : string) : string :=
  match schema with
  | List _ _ starts _ _ _ => or_default starts (prefix +s delimiter +s "B")
  | _ => prefix +s delimiter +s "B"
  end.

Definition get_stops (schema : Schema) (prefix delimiter : string) : string :=
  match schema with
  | List _ _ _ stops _ _ => or_default stops (prefix +s delimiter +s "E")
  | _ => prefix +s delimiter +s "E"
  end.

(** [Dataset.arrays(self, partitionid)] *)
Definition arrays (self : Dataset Z) (partitionid : Z) : result DataArrays :=
  let normid :=
    if 0 <=? partitionid then partitionid else partitionid + numpartitions self in
  if negb ((0 <=? normid) && (normid <? numpartitions self)) then
    Raise (IndexError "partitionid out of range")
  else
    let startsrole :=
      {| kind := StartsRole;
         array_name := get_starts (_schema self) (_prefix self) (_delimiter self);
         namespace := _namespace self |} in
    let stopsrole :=
      {| kind := StopsRole;
         array_name := get_stops (_schema self) (_prefix self) (_delimiter self);
         namespace := _namespace self |} in
    hi <- ndarray_getitem (_offsets self) (normid + 1) ;;
    lo <- ndarray_getitem (_offsets self) normid ;;
    Ok {| _backends := _dbackends self; _active := ∅;
          _partitionid := Some normid;
          _dataset := Some {| _startsrole := startsrole; _stopsrole := stopsrole;
                              _numentries := hi - lo |};
          log := [] |}.

(** What [__getitem__] returns: the entry at a local index of a partition's
    proxy, that proxy with its window set, or [None].  The proxy of a
    partition, [self._schema(self.arrays(partitionid))], is identified by
    the arrays it is built on. *)
Inductive value :=
| Entry (partition : DataArrays) (localindex : Z)
| View (partition : DataArrays) (_whence _stride _length : Z)
| ReturnsNone.

(** [Dataset.partition(self, partitionid)] *)
Definition partition (self : Dataset Z) (partitionid : Z) : result DataArrays :=
  arrays self partitionid.

Section getitem.

(** [oamap.util.slice2sss(index, length)], which is not among the sources:
    the resolved [(start, stop, step)] of a slice. *)
Variable slice2sss : option Z * option Z * option Z -> Z -> result (Z * Z * Z).

(** [Dataset.__getitem__(self, index)] *)
Definition getitem (self : Dataset Z) (index : pyval) : result value :=
  match integral index, index with
  | Some index, _ =>
      n <- numentries self ;;
      let normindex := if 0 <=? index then index else index + n in
      if negb ((0 <=? normindex) && (normindex <? n)) then
        Raise (IndexError "index out of range")
      else
        let partitionid := searchsorted (_offsets self) normindex - 1 in
        o <- ndarray_getitem (_offsets self) partitionid ;;
        let localindex := normindex - o in
        part <- partition self partitionid ;;
        Ok (Entry part localindex)
  | None, PySlice start stop step =>
      n <- numentries self ;;
      sss <- slice2sss (start, stop, step) n ;;
      let '(start, stop, step) := sss in
      let partitionid :=
        Z.max 0 (Z.min (searchsorted (_offsets self) start - 1)
                       (numpartitions self - 1)) in
      o <- ndarray_getitem (_offsets self) partitionid ;;
      let localstart := start - o in
      let localstop := stop - o in
      hi <- ndarray_getitem (_offsets self) (partitionid + 1) ;;
      if (localstop <? -1) || (hi - o <? localstop) then
        Raise (IndexError "slice spans multiple partitions")
      else
        out <- partition self partitionid ;;
        if Z.abs step =? 0 then Raise ZeroDivisionError
        else
          let d := Z.abs (localstart - localstop) / Z.abs step in
          let m := Z.abs (localstart - localstop) mod Z.abs step in
          Ok (View out localstart step (d + (if m =? 0 then 0 else 1)))
  | None, _ => Ok ReturnsNone
  end.

End getitem.

(** *** Predicates on offsets and on resolved slices *)

(** Offsets as the constructor leaves them: at least two, the first zero,
    none below the one before it. *)
Definition valid_offsets (offs : list Z) : Prop :=
  (2 <= length offs)%nat /\ offs !! 0%nat = Some 0 /\
  forall (i : nat) (a b : Z), offs !! i = Some a -> offs !! S i = Some b -> a <= b.

(** A slice resolved against [n] entries: the step is not zero, and start
    and stop are in bounds, the stop on the side the step walks to. *)
Definition resolved (n start stop step : Z) : Prop :=
  step <> 0 /\
  (0 < step -> 0 <= start <= stop /\ stop <= n) /\
  (step < 0 -> -1 <= stop <= start /\ start <= n - 1).



(** *** The other members of [Data], [DataArrays] and [Dataset] *)

(** [DataArrays.__init__(self, backends)], which is what [Data.arrays]
    returns. *)
Definition DataArrays_init (backends : list (string * backend)) : DataArrays :=
  {| _backends := backends; _active := ∅; _partitionid := None;
     _dataset := None; log := [] |}.

(** [DataArrays.close(self)]: every cached object that has a [close] method
    is closed, and every entry of [_active] is set to [None].
    [has_close a] is [hasattr(a, "close")]; the namespaces whose object was
    closed are returned with the object. *)
Definition close (has_close : active -> bool) (self : DataArrays)
    : list string * DataArrays :=
  (omap (fun entry =>
           match snd entry with
           | Some a => if has_close a then Some (fst entry) else None
           | None => None
           end) (map_to_list (_active self)),
   {| _backends := _backends self;
      _active := (fun _ => None) <$> _active self;
      _partitionid := _partitionid self; _dataset := _dataset self;
      log := log self |}).

(** The properties [offsets], [starts] and [stops]:
    [self._offsets.tolist()], [self._offsets[:-1].tolist()] and
    [self._offsets[1:].tolist()]. *)
Definition offsets {T} (self : Dataset T) : list T := _offsets self.

Definition starts {T} (self : Dataset T) : list T := removelast (_offsets self).

Definition stops {T} (self : Dataset T) : list T := tail (_offsets self).

(** The property [partitions]: [zip(self.start, self.stop)], on an object
    whose attributes are [starts] and [stops]: reading [self.start]
    raises. *)
Definition partitions {T} (self : Dataset T) : result (list (T * T)) :=
  Raise (AttributeError "'Dataset' object has no attribute 'start'").

(** *** Reading the log of an object *)

(** The namespace a call was made on. *)
Definition event_namespace (e : event) : string :=
  match e with
  | Instantiate ns _ | GetAll ns _ | GetItem ns _ => ns
  end.

(** The namespaces instantiated in a log, in order. *)
Definition instantiated (l : list event) : list string :=
  omap (fun e => match e with Instantiate ns _ => Some ns | _ => None end) l.

(** [self._active.get(namespace, None)] *)
Definition active_in (self : DataArrays) (ns : string) : option active :=
  default None (_active self !! ns).

(** An object with a [getall] that returns arrays for roles it was asked
    for, and for no other. *)
Definition answers_what_is_asked (a : active) : Prop :=
  match a with
  | Provider g => forall rs r arr, (r, arr) ∈ g rs -> r ∈ rs
  | Mapping _ => False
  end.

Definition cached_answer (self : DataArrays) : Prop :=
  forall ns a, active_in self ns = Some a -> answers_what_is_asked a.

(** [self'] is [self] after the calls [l]: the fields that [getall] does
    not assign are the same and the log has grown by [l]. *)
Definition extends (self self' : DataArrays) (l : list event) : Prop :=
  _backends self' = _backends self /\ _partitionid self' = _partitionid self /\
  _dataset self' = _dataset self /\ log self' = (log self ++ l)%list.

(** The calls [l] that took [self] to [self'] instantiated lazily: what
    was active stays, a namespace becomes active only by an [Instantiate]
    in [l], no namespace is instantiated twice, one that is instantiated
    was not active, is instantiated with the object's partition id and is
    active afterwards with what its backend returned, and every call is on
    a namespace that was active or comes after its [Instantiate]. *)
Definition lazy_log (self self' : DataArrays) (l : list event) : Prop :=
  extends self self' l /\
  (forall ns a, active_in self ns = Some a -> active_in self' ns = Some a) /\
  (forall ns, active_in self' ns <> None ->
     active_in self ns <> None \/ Instantiate ns (_partitionid self) ∈ l) /\
  NoDup (instantiated l) /\
  (forall ns pid, Instantiate ns pid ∈ l ->
     pid = _partitionid self /\ active_in self ns = None /\
     exists b, (ns, b) ∈ _backends self /\ active_in self' ns = Some (b pid)) /\
  (forall (i : nat) e, l !! i = Some e ->
     active_in self (event_namespace e) <> None \/
     exists j : nat, (j <= i)%nat /\
       l !! j = Some (Instantiate (event_namespace e) (_partitionid self))).

(** *** Example datasets *)

Definition entries : Schema :=
  List (Primitive "int64" [] false None None None) false None None None None.

(** A dataset of three partitions, [offsets=[0, 3, 7, 10]]. *)
Definition three_partitions (backends : list (string * backend)) : Dataset Z :=
  {| _name := "d"; _schema := entries; _namespace := ""; _dbackends := backends;
     _offsets := [0; 3; 7; 10]; _prefix := "object"; _delimiter := "-" |}.

(** [numpy.array([0.0, 0.5])] and [numpy.array([0.0, numpy.inf])] *)
Definition halves : ndarray float64 :=
  {| ndim := 1; items := [Finite (0 # 1); Finite (1 # 2)] |}.

Definition zero_and_inf : ndarray float64 :=
  {| ndim := 1; items := [Finite (0 # 1); PosInf] |}.

(** The roles of the root list and of its content, and a backend that
    stores an array under each of the three names. *)
Definition starts_role : Role :=
  {| kind := StartsRole; array_name := "object-B"; namespace := "" |}.
Definition stops_role : Role :=
  {| kind := StopsRole; array_name := "object-E"; namespace := "" |}.
Definition data_role : Role :=
  {| kind := DataRole; array_name := "object-C"; namespace := "" |}.

Definition stored : gmap string array :=
  {[ "object-B" := [0; 3; 7]; "object-E" := [3; 7; 10];
     "object-C" := [10; 20; 30; 40] ]}.

(** A backend whose [instantiate] returns a plain mapping, and one whose
    [instantiate] returns an object with [getall]. *)
Definition mapping_backend : backend := fun _ => Mapping stored.

Definition provider_backend : backend :=
  fun _ => Provider (fun roles => omap (fun r => pair r <$> stored !! array_name r) roles).

(** A [slice2sss] for the slices whose three parts are given and already
    resolved. *)
Definition given_sss (s : option Z * option Z * option Z) (n : Z)
    : result (Z * Z * Z) :=
  match s with
  | (Some start, Some stop, Some step) => Ok (start, stop, step)
  | _ => Raise NotImplementedError
  end.

(** A [Data.arrays()] object over one backend of either kind. *)
Definition one_provider : DataArrays := DataArrays_init [("", provider_backend)].

Definition one_mapping : DataArrays := DataArrays_init [("", mapping_backend)].

End Dataset.

(* ===================================================================== *)
(** ** arrowed/compiler.py: the functions inserted into compiled code *)
(* ===================================================================== *)

Module Compiler.

(** A run of code compiled by numba in nopython mode: [None] when it reads
    outside an array, which numba does not check, or leaves the fragment of
    Python evaluated below; else what it returns or raises. *)
Definition njit (A : Type) := option (result A).

Definition njit_bind {A B} (m : njit A) (k : A -> njit B) : njit B :=
  match m with
  | None => None
  | Some (Raise e) => Some (Raise e)
  | Some (Ok a) => k a
  end.

Notation "x <~ m ;; k" := (njit_bind m (fun x => k))
  (at level 100, m at next level, right associativity).

(** The values of [int32], and the cast to it of a wider integer. *)
Definition int32 (z : Z) : Prop := - 2 ^ 31 <= z < 2 ^ 31.

Definition wrap32 (z : Z) : Z := (z + 2 ^ 31) mod 2 ^ 32 - 2 ^ 31.

(** [a[i]] in compiled code: a negative index counts from the end. *)
Definition array_read (a : list Z) (i : Z) : njit Z :=
  let n := Z.of_nat (length a) in
  let j := if i <? 0 then i + n else i in
  if (0 <=? j) && (j <? n) then Ok <$> a !! Z.to_nat j else None.

(** The integers that numba takes as an argument of type [int64], which
    is the type it gives a Python integer. *)
Definition int64 (z : Z) : Prop := - 2 ^ 63 <= z < 2 ^ 63.

(** [listget(begin, end, outerindex, index)], typed
    [int32(int32[:], int32[:], int32, int32)]: an integer argument is cast
    to [int32] when the function is entered, so of a wider integer only
    the low 32 bits are seen; the arithmetic on [int32] operands is done
    at 64 bits, and the result is cast to [int32]. *)
Definition listget (begin end_ : list Z) (outerindex index : Z) : njit Z :=
  let outerindex := wrap32 outerindex in
  let index := wrap32 index in
  offset <~ array_read begin outerindex ;;
  stop <~ array_read end_ outerindex ;;
  let size := stop - offset in
  let index := if index <? 0 then size + index else index in
  if (index <? 0) || (size <=? index) then
    Some (Raise (IndexError "index out of range"))
  else Some (Ok (wrap32 (offset + index))).

(** [listlen(begin, end, index)], typed [int32(int32[:], int32[:], int32)] *)
Definition listlen (begin end_ : list Z) (index : Z) : njit Z :=
  let index := wrap32 index in
  start <~ array_read begin index ;;
  stop <~ array_read end_ index ;;
  Some (Ok (wrap32 (stop - start))).

(** [passnone(array, index)] and the [refusenone(index)] that
    [newrefusenone] makes, on an index that may be [None]; [refusenone] is
    typed [int32(optional(int32))]. *)
Definition passnone (array : list Z) (index : option Z) : njit (option Z) :=
  match index with
  | None => Some (Ok None)
  | Some i => x <~ array_read array i ;; Some (Ok (Some x))
  end.

Definition refusenone (message : string) (index : option Z) : njit Z :=
  match index with
  | None => Some (Raise (TypeError message))
  | Some i => Some (Ok (wrap32 i))
  end.

(** *** Syntax trees and symbolic types *)

Inductive ctx := Load | Store.

(** The nodes of [ast] that the rules below read or build, expressions and
    statements alike, each with its [atype].  [Subscript] holds the index
    of an [Index] slice, or [None] for any other slice; [ListNode] is
    [ast.List].  [NoNode] is Python's [None] standing where a node is
    expected (the value of a bare [return], or what a rule left there).

    An [atype] is one of the two module-level objects [untracked] and
    [nullable], which the rules recognise with [is], any other
    [ArrowedType] object, or [unset]: the [None] that [toexpr] and
    [toname] give a node when no [atype] is passed.  The [parameter] of an
    [ArrowedType] is the position of its [TransformedParameter], and the
    [schema] of a possibility is the position of the schema node in that
    parameter's [members], which is what [reverse_members] maps its
    identity to. *)
Inductive expr :=
| Num (n : Z) (a : atype)
| Name (id : string) (c : ctx) (a : atype)
| NameConstant (value : option bool) (a : atype)
| Attribute (value : expr) (attr : string) (a : atype)
| Subscript (value : expr) (index : option expr) (a : atype)
| Call (func : expr) (args : list expr) (a : atype)
| IfExp (test body orelse : expr) (a : atype)
| Tuple (elts : list expr) (c : ctx) (a : atype)
| ListNode (elts : list expr) (c : ctx) (a : atype)
| Return (value : expr) (a : atype)
| Assign (targets : list expr) (value : expr) (a : atype)
| Expr (value : expr) (a : atype)
| NoNode
with atype :=
| untracked
| nullable
| unset
| ArrowedType (possibilities : list Possibility) (parameter : option nat)
              (isparameter is_nullable : bool)
with Possibility :=
| Build_Possibility (schema : nat) (condition : option expr).

Definition schema_of (p : Possibility) : nat :=
  match p with Build_Possibility schema _ => schema end.

Definition condition_of (p : Possibility) : option expr :=
  match p with Build_Possibility _ condition => condition end.

(** The fields of an [ArrowedType] object; [untracked] and [nullable] are
    both [ArrowedType([], None)]. *)
Definition possibilities_of (a : atype) : list Possibility :=
  match a with ArrowedType ps _ _ _ => ps | _ => [] end.

Definition parameter_of (a : atype) : option nat :=
  match a with ArrowedType _ p _ _ => p | _ => None end.

Definition isparameter_of (a : atype) : bool :=
  match a with ArrowedType _ _ b _ => b | _ => false end.

Definition nullable_of (a : atype) : bool :=
  match a with ArrowedType _ _ _ b => b | _ => false end.

(** [x.setnullable()]: a new [ArrowedType] object, never one of the two
    module-level ones; on [None] it is an [AttributeError]. *)
Definition setnullable (self : atype) : result atype :=
  match self with
  | unset => Raise (AttributeError "'NoneType' object has no attribute 'setnullable'")
  | _ => Ok (ArrowedType (possibilities_of self) (parameter_of self)
                         (isparameter_of self) true)
  end.

(** [self == other]: [ArrowedType.__eq__] when an [ArrowedType] object is
    involved, which is false against [None]; [None == None] is true.  With
    no parameter, reading [self.parameter.reverse_members] for the first
    pair of possibilities is an [AttributeError]. *)
Definition atype_eq (self other : atype) : result bool :=
  match self, other with
  | unset, unset => Ok true
  | unset, _ | _, unset => Ok false
  | _, _ =>
      if negb (bool_decide (parameter_of self = parameter_of other)) then Ok false
      else if negb (length (possibilities_of self)
                    =? length (possibilities_of other))%nat
      then Ok false
      else
        match parameter_of self, possibilities_of self with
        | None, _ :: _ =>
            Raise (AttributeError
                     "'NoneType' object has no attribute 'reverse_members'")
        | _, _ =>
            Ok (forallb (fun xy => (schema_of (fst xy) =? schema_of (snd xy))%nat)
                        (combine (possibilities_of self) (possibilities_of other)))
        end
  end.

(** [node.atype]; on [None] it is an [AttributeError]. *)
Definition atype_of (node : expr) : result atype :=
  match node with
  | Num _ a | Name _ _ a | NameConstant _ a | Attribute _ _ a
  | Subscript _ _ a | Call _ _ a | IfExp _ _ _ a | Tuple _ _ a
  | ListNode _ _ a | Return _ a | Assign _ _ a | Expr _ a => Ok a
  | NoNode => Raise (AttributeError "'NoneType' object has no attribute 'atype'")
  end.

(** [node.atype = a] *)
Definition set_atype (node : expr) (a : atype) : expr :=
  match node with
  | Num n _ => Num n a
  | Name id c _ => Name id c a
  | NameConstant v _ => NameConstant v a
  | Attribute v attr _ => Attribute v attr a
  | Subscript v i _ => Subscript v i a
  | Call f args _ => Call f args a
  | IfExp t b o _ => IfExp t b o a
  | Tuple elts c _ => Tuple elts c a
  | ListNode elts c _ => ListNode elts c a
  | Return v _ => Return v a
  | Assign ts v _ => Assign ts v a
  | Expr v _ => Expr v a
  | NoNode => NoNode
  end.

(** *** Schemas, parameters and the state of one compilation *)

(** Modelled from the spec: the schema classes of [arrowed.schema], which
    is not among the sources, as far as the rules read them: the class, the
    [nullable] flag, the [name], and [contents] (the content of a [List],
    the fields of a [Record]) as positions in the parameter's [members]. *)
Inductive schema :=
| Primitive (nullable : bool) (name : option string)
| List (nullable : bool) (name : option string) (contents : nat)
| Record (nullable : bool) (name : option string) (contents : list (string * nat))
| OtherSchema (nullable : bool) (name : option string).

Definition schema_nullable (s : schema) : bool :=
  match s with
  | Primitive b _ | List b _ _ | Record b _ _ | OtherSchema b _ => b
  end.

Definition schema_name (s : schema) : option string :=
  match s with
  | Primitive _ n | List _ n _ | Record _ n _ | OtherSchema _ n => n
  end.

(** A [TransformedParameter]; [root] is [self.schema]. *)
Record TransformedParameter := {
  tp_index : nat;
  tp_originalname : string;
  tp_atype : atype;
  tp_root : nat;
  tp_members : list schema;
  tp_transformed : list string;
  tp_required : list bool;
  tp_sym2obj : gmap string (nat * string)
}.

Inductive parameter :=
| PlainParameter (index : nat) (originalname : string) (default : option expr)
| Transformed (p : TransformedParameter).

(** The functions that [compile] and [newrefusenone] put in [env], and the
    builtin [len]. *)
Inductive pyfunction :=
| fn_passnone
| fn_listget
| fn_listlen
| fn_ToProxy
| fn_refusenone (message : string)
| fn_len.

(** What the rules share and mutate during one call of [compile]: the
    symbol table, the parameters, the state of [sym] and [env]. *)
Record state := {
  symtable : gmap string atype;
  parameters : list parameter;
  sym_names : gmap string string;
  symbolsused : gset string;
  sym_remapped : list (string * string);
  env : gmap string pyfunction
}.

Definition set_symtable (st : state) (t : gmap string atype) : state :=
  {| symtable := t; parameters := parameters st; sym_names := sym_names st;
     symbolsused := symbolsused st; sym_remapped := sym_remapped st;
     env := env st |}.

Definition set_parameters (st : state) (ps : list parameter) : state :=
  {| symtable := symtable st; parameters := ps; sym_names := sym_names st;
     symbolsused := symbolsused st; sym_remapped := sym_remapped st;
     env := env st |}.

Definition set_env (st : state) (e : gmap string pyfunction) : state :=
  {| symtable := symtable st; parameters := parameters st;
     sym_names := sym_names st; symbolsused := symbolsused st;
     sym_remapped := sym_remapped st; env := e |}.

(** A rule: it reads and writes the state, and returns or raises. *)
Definition rule (A : Type) := state -> result (A * state).

Definition ret {A} (a : A) : rule A := fun st => Ok (a, st).

Definition fail {A} (e : exn) : rule A := fun _ => Raise e.

Definition lift {A} (r : result A) : rule A :=
  fun st => a <- r ;; Ok (a, st).

Definition rule_bind {A B} (m : rule A) (k : A -> rule B) : rule B :=
  fun st => r <- m st ;; k (fst r) (snd r).

Notation "x <== m ;; k" := (rule_bind m (fun x => k))
  (at level 100, m at next level, right associativity).

(** [sym.bad.sub("", key)]: the characters of an identifier are kept. *)
Definition identifier_char (c : ascii) : bool :=
  let n := nat_of_ascii c in
  ((48 <=? n) && (n <=? 57) || (65 <=? n) && (n <=? 90)
   || (97 <=? n) && (n <=? 122) || (n =? 95))%nat.

Definition strip_bad (key : string) : string :=
  string_of_list_ascii (List.filter identifier_char (list_ascii_of_string key)).

Definition starts_with_digit (s : string) : bool :=
  match s with
  | String c _ => let n := nat_of_ascii c in ((48 <=? n) && (n <=? 57))%nat
  | EmptyString => false
  end.

(** The [while trial in symbolsused] loop of [sym]: [prefix], then
    [prefix_2], [prefix_3], ...  Among one candidate more than there are
    used symbols one is free, so [fuel] above that size is never used up. *)
Fixpoint first_unused (fuel : nat) (used : gset string) (prefix trial : string)
    (number : nat) : string :=
  match fuel with
  | O => trial
  | S fuel' =>
      if decide (trial ∈ used)
      then first_unused fuel' used prefix (prefix +s "_" +s pretty number) (S number)
      else trial
  end.

(** [sym(key)] *)
Definition sym (key : string) : rule string :=
  fun st =>
    match sym_names st !! key with
    | Some symbol => Ok (symbol, st)
    | None =>
        let prefix := strip_bad key in
        let prefix :=
          if (String.length prefix =? 0)%nat || starts_with_digit prefix
          then "_" +s prefix else prefix in
        let trial :=
          first_unused (S (size (symbolsused st))) (symbolsused st) prefix prefix 2 in
        Ok (trial,
            {| symtable := symtable st; parameters := parameters st;
               sym_names := <[key := trial]> (sym_names st);
               symbolsused := {[trial]} ∪ symbolsused st;
               sym_remapped :=
                 if String.eqb key trial then sym_remapped st
                 else (sym_remapped st ++ [(key, trial)])%list;
               env := env st |})
    end.

(** [str(x)] of an optional name, as [format] prints it. *)
Definition format_name (name : option string) : string :=
  match name with
  | Some n => n
  | None => "None"
  end.

(** The [TransformedParameter] that an [atype] belongs to. *)
Definition parameter_named (st : state) (a : atype) : result TransformedParameter :=
  match parameter_of a with
  | None => Raise (AttributeError "'NoneType' object has no attribute 'require'")
  | Some i =>
      match parameters st !! i with
      | Some (Transformed p) => Ok p
      | _ => Raise (AttributeError "not a transformed parameter")
      end
  end.

Definition the_parameter (a : atype) : rule TransformedParameter :=
  fun st => p <- parameter_named st a ;; Ok (p, st).

(** [self.members[memberid]], for a position handed out by the parameter
    itself. *)
Definition member (p : TransformedParameter) (memberid : nat) : result schema :=
  match tp_members p !! memberid with
  | Some s => Ok s
  | None => Raise (KeyError "reverse_members")
  end.

(** [TransformedParameter.require(self, member, attr, sym)], for the
    parameter of [a]. *)
Definition require (a : atype) (memberid : nat) (attr : string) : rule string :=
  p <== the_parameter a ;;
  m <== lift (member p memberid) ;;
  let key := "par" +s pretty (tp_index p) +s "_mem" +s pretty memberid +s "_"
             +s format_name (schema_name m) +s "_" +s attr in
  symbol <== sym key ;;
  fun st =>
    let p' :=
      {| tp_index := tp_index p; tp_originalname := tp_originalname p;
         tp_atype := tp_atype p; tp_root := tp_root p;
         tp_members := tp_members p;
         tp_transformed :=
           if bool_decide (symbol ∈ tp_transformed p) then tp_transformed p
           else (tp_transformed p ++ [symbol])%list;
         tp_required := <[memberid := true]> (tp_required p);
         tp_sym2obj := <[symbol := (memberid, attr)]> (tp_sym2obj p) |} in
    Ok (symbol, set_parameters st (<[tp_index p := Transformed p']> (parameters st))).

(** *** Templates *)

(** [replacements[key]], for the keyword arguments of [compose]. *)
Fixpoint replacement (replacements : list (string * expr)) (key : string)
    : option expr :=
  match replacements with
  | [] => None
  | (k, node) :: rest =>
      if String.eqb k key then Some node else replacement rest key
  end.

(** The head of the [recurse] of [compose], on a node [x]: a name that is
    a key gives way to the node put in for it, and then the fields of the
    node in hand are gone through: by [inside] those of a node put in, by
    [fields] those of [x] itself.  [inside] is [None] where the nodes put
    in have led back to themselves, which Python's recursion does not come
    back from but by its limit of depth. *)
Definition entered (replacements : list (string * expr))
    (inside : option (expr -> result expr)) (fields : expr -> result expr)
    (x : expr) : result expr :=
  match x with
  | Name id _ _ =>
      match replacement replacements id with
      | Some node =>
          match inside with
          | Some fields_of => fields_of node
          | None => Raise RecursionError
          end
      | None => fields x
      end
  | _ => fields x
  end.

(** The loop [for f in x._fields: setattr(x, f, recurse(getattr(x, f)))]
    of [compose], with the test of [x.attr] before it.  The source changes
    the node in place, here the changed node is a new tree.  An
    [Attribute] whose [attr] is a key is given a node for its name: no
    tree of [expr] has that, and Python's own [compile] refuses it with a
    [TypeError], which is the outcome here.  A slice that is no index is
    left as it is. *)
Fixpoint fields_with (replacements : list (string * expr))
    (inside : option (expr -> result expr)) (x : expr) : result expr :=
  let recurse := entered replacements inside (fields_with replacements inside) in
  let each :=
    (fix each (nodes : list expr) : result (list expr) :=
       match nodes with
       | [] => Ok []
       | n :: rest =>
           n' <- entered replacements inside (fields_with replacements inside) n ;;
           rest' <- each rest ;;
           Ok (n' :: rest')
       end) in
  match x with
  | Num _ _ | Name _ _ _ | NameConstant _ _ | NoNode => Ok x
  | Attribute value attr a =>
      match replacement replacements attr with
      | Some _ =>
          _ <- recurse value ;;
          Raise (TypeError "AST identifier must be of type str")
      | None => value' <- recurse value ;; Ok (Attribute value' attr a)
      end
  | Subscript value index a =>
      value' <- recurse value ;;
      index' <- match index with
                | Some i => i' <- recurse i ;; Ok (Some i')
                | None => Ok None
                end ;;
      Ok (Subscript value' index' a)
  | Call func args a =>
      func' <- recurse func ;; args' <- each args ;; Ok (Call func' args' a)
  | IfExp test body orelse a =>
      test' <- recurse test ;; body' <- recurse body ;;
      orelse' <- recurse orelse ;;
      Ok (IfExp test' body' orelse' a)
  | Tuple elts c a => elts' <- each elts ;; Ok (Tuple elts' c a)
  | ListNode elts c a => elts' <- each elts ;; Ok (ListNode elts' c a)
  | Return value a => value' <- recurse value ;; Ok (Return value' a)
  | Assign targets value a =>
      targets' <- each targets ;; value' <- recurse value ;;
      Ok (Assign targets' value' a)
  | Expr value a => value' <- recurse value ;; Ok (Expr value' a)
  end.

(** The fields of a node gone through with [levels] nodes still to be put
    in one inside the other.  A node that is put in inside itself is put
    in without end; among nodes put in one inside the other, more of them
    than there are keys have one of them twice. *)
Fixpoint substituted (levels : nat) (replacements : list (string * expr))
    : expr -> result expr :=
  fields_with replacements
    match levels with
    | O => None
    | S fewer => Some (substituted fewer replacements)
    end.

(** [compose(pyast, **replacements)]: the names of [pyast] that are keys
    are replaced by the nodes given for them, and the substitution goes on
    inside the nodes put in. *)
Definition compose (pyast : expr) (replacements : list (string * expr))
    : result expr :=
  entered replacements
    match length replacements with
    | O => None
    | S fewer => Some (substituted fewer replacements)
    end
    (substituted (length replacements) replacements) pyast.

(** [toexpr(string, lineno, atype, **replacements)], for the tree that
    [ast.parse] and [withequality] make of [string]. *)
Definition toexpr (parsed : expr) (a : atype) (replacements : list (string * expr))
    : result expr :=
  node <- compose parsed replacements ;;
  Ok (set_atype node a).

(** ["CONSEQUENT if PREDICATE else ALTERNATE"], parsed. *)
Definition conditional_template : expr :=
  IfExp (Name "PREDICATE" Load untracked) (Name "CONSEQUENT" Load untracked)
        (Name "ALTERNATE" Load untracked) untracked.

(** *** The rules *)

(** [ArrowedType.generate(self, handler)]: the loop over
    [reversed(self.possibilities)], then [return out]. *)
Fixpoint generate_loop (handler : nat -> rule expr) (reversed : list Possibility)
    (out : option expr) : rule (option expr) :=
  match reversed with
  | [] => ret out
  | possibility :: rest =>
      result <== handler (schema_of possibility) ;;
      match condition_of possibility, out with
      | None, None => generate_loop handler rest (Some result)
      | None, Some _ => fail AssertionError
      | Some _, None => fail AssertionError
      | Some predicate, Some alternate =>
          a <== lift (atype_of result) ;;
          node <== lift (toexpr conditional_template a
                           [("CONSEQUENT", result); ("PREDICATE", predicate);
                            ("ALTERNATE", alternate)]) ;;
          generate_loop handler rest (Some node)
      end
  end.

Definition generate (self : atype) (handler : nat -> rule expr) : rule expr :=
  match self with
  | unset => fail (AttributeError "'NoneType' object has no attribute 'generate'")
  | _ =>
      out <== generate_loop handler (rev (possibilities_of self)) None ;;
      ret (default NoNode out)
  end.

(** [toname(string)]: a name with no [atype] given. *)
Definition toname (id : string) : expr := Name id Load unset.

(** [newrefusenone(env, sym, what, lineno, sourcefile)] *)
Definition newrefusenone (what : string) : rule string :=
  symbol <== sym "refusenone" ;;
  fun st =>
    Ok (symbol,
        set_env st (<[symbol := fn_refusenone ("None found where " +s what +s " required")]>
                      (env st))).

(** [implicit(node, sym)] *)
Definition implicit (node : expr) : rule expr :=
  a <== lift (atype_of node) ;;
  match a with
  | untracked | nullable => ret node
  | _ =>
      generate a (fun schema =>
        p <== the_parameter a ;;
        m <== lift (member p schema) ;;
        match m with
        | Primitive schema_is_nullable _ =>
            array <== require a schema "array" ;;
            if nullable_of a || schema_is_nullable then
              passnone_symbol <== sym "passnone" ;;
              ret (Call (toname passnone_symbol) [toname array; node] untracked)
            else ret (Subscript (toname array) (Some node) untracked)
        | _ => ret node
        end)
  end.

(** [do_NameConstant] *)
Definition do_NameConstant (value : option bool) (a : atype) : rule expr :=
  match value with
  | None => ret (NameConstant None nullable)
  | Some _ => ret (NameConstant value a)
  end.

(** [do_Name] *)
Definition do_Name (id : string) (c : ctx) (a : atype) : rule expr :=
  match c with
  | Store => ret (Name id c a)
  | Load =>
      if String.eqb id "None" then ret (Name id c nullable)
      else fun st =>
        match symtable st !! id with
        | None | Some untracked => Ok (Name id c a, st)
        | Some unset =>
            Raise (AttributeError "'NoneType' object has no attribute 'isparameter'")
        | Some t =>
            if isparameter_of t then Ok (Num 0 t, st)
            else implicit (Name id c t) st
        end
  end.

(** [do_Attribute], after [recurse(node.value)]. *)
Definition do_Attribute (value : expr) (attr : string) (a : atype) : rule expr :=
  t <== lift (atype_of value) ;;
  match t with
  | untracked => ret (Attribute value attr a)
  | _ =>
      found <== generate t (fun schema =>
        p <== the_parameter t ;;
        m <== lift (member p schema) ;;
        match m with
        | Record _ name contents =>
            match Schema.fields_get contents attr with
            | Some field =>
                ret (set_atype value
                       (ArrowedType [Build_Possibility field None] (parameter_of t)
                                    false false))
            | None =>
                match name with
                | None =>
                    fail (AttributeError ("attribute " +s attr
                                          +s " not found in record with structure"))
                | Some n =>
                    fail (AttributeError ("attribute " +s attr
                                          +s " not found in record " +s n))
                end
            end
        | _ => fail (TypeError "object is not a record")
        end) ;;
      implicit found
  end.

(** [do_Subscript], after the recursive calls on [node.value] and
    [node.slice]. *)
Definition do_Subscript (value : expr) (index : option expr) (a : atype)
    : rule expr :=
  t <== lift (atype_of value) ;;
  match t with
  | untracked => ret (Subscript value index a)
  | _ =>
      match index with
      | None => fail NotImplementedError
      | Some i =>
          found <== generate t (fun schema =>
            p <== the_parameter t ;;
            m <== lift (member p schema) ;;
            match m with
            | List schema_is_nullable _ contents =>
                beginarray <== require t schema "beginarray" ;;
                endarray <== require t schema "endarray" ;;
                outerindex <==
                  (if nullable_of t || schema_is_nullable then
                     refuse <== newrefusenone "list" ;;
                     ret (Call (toname refuse) [value] unset)
                   else ret value) ;;
                listget_symbol <== sym "listget" ;;
                ret (Call (toname listget_symbol)
                          [toname beginarray; toname endarray; outerindex; i]
                          (ArrowedType [Build_Possibility contents None]
                                       (parameter_of t) false false))
            | _ => fail (TypeError "object is not a list")
            end) ;;
          implicit found
      end
  end.

(** [do_Call], after the recursive calls on [node.func] and [node.args]
    (a call here has no keywords, [*args] or [**kwargs]).  In the nullable
    branch the rule reads [node.value], which a [Call] does not have. *)
Definition do_Call (func : expr) (args : list expr) (a : atype) : rule expr :=
  fun st =>
    let is_len :=
      match func with
      | Name id _ _ =>
          match env st !! id with
          | Some fn_len => true
          | _ => false
          end
      | _ => false
      end in
    if is_len then
      match args with
      | [arg] =>
          (t <== lift (atype_of arg) ;;
           match t with
           | untracked | nullable => ret (Call func args a)
           | _ =>
               generate t (fun schema =>
                 p <== the_parameter t ;;
                 m <== lift (member p schema) ;;
                 match m with
                 | List schema_is_nullable _ _ =>
                     beginarray <== require t schema "beginarray" ;;
                     endarray <== require t schema "endarray" ;;
                     if nullable_of t || schema_is_nullable then
                       fail (AttributeError "'Call' object has no attribute 'value'")
                     else
                       listlen_symbol <== sym "listlen" ;;
                       ret (Call (toname listlen_symbol)
                                 [toname beginarray; toname endarray; arg] untracked)
                 | _ => fail (TypeError "object is not a list")
                 end)
           end) st
      | _ => Raise (TypeError "len() takes exactly one argument")
      end
    else Ok (Call func args a, st).

(** [do_Return], after [recurse(node.value)]. *)
Definition do_Return (value : expr) (a : atype) : rule expr :=
  t <== lift (atype_of value) ;;
  match t with
  | untracked | nullable => ret (Return value a)
  | _ =>
      generate t (fun schema =>
        p <== the_parameter t ;;
        toproxy_symbol <== sym "ToProxy" ;;
        ret (Return (Call (toname toproxy_symbol)
                          [Num (Z.of_nat (tp_index p)) unset;
                           Num (Z.of_nat schema) unset; value] untracked)
                    unset))
  end.

(** The inner function [assign(lhs, rhs)] of [do_Assign], on the symbol
    table. *)
Fixpoint assign (lhs rhs : expr) (table : gmap string atype)
    : result (gmap string atype) :=
  let unpack :=
    (fix unpack (ls rs : list expr) (table : gmap string atype)
       : result (gmap string atype) :=
       match ls, rs with
       | lelt :: ls', relt :: rs' =>
           table' <- assign lelt relt table ;; unpack ls' rs' table'
       | _, _ => Ok table
       end) in
  let sequence (elts : list expr) :=
    t <- atype_of rhs ;;
    match t with
    | untracked =>
        match rhs with
        | Tuple relts _ _ => unpack elts relts table
        | _ => Ok table
        end
    | _ => Raise NotImplementedError
    end in
  match lhs with
  | Name id _ _ =>
      t <- atype_of rhs ;;
      match t with
      | untracked => Ok table
      | nullable =>
          match table !! id with
          | Some bound => n <- setnullable bound ;; Ok (<[id := n]> table)
          | None => Ok (<[id := nullable]> table)
          end
      | _ =>
          match table !! id with
          | Some nullable => n <- setnullable t ;; Ok (<[id := n]> table)
          | Some bound =>
              same <- atype_eq bound t ;;
              if same then Ok table
              else Raise (TypeError ("cannot use the same variable (" +s id
                            +s ") for different parts of a dataset structure"))
          | None => Ok (<[id := t]> table)
          end
      end
  | Tuple elts _ _ => sequence elts
  | ListNode elts _ _ => sequence elts
  | _ => Ok table
  end.

(** [do_Assign], after [recurse(node.value)]. *)
Definition do_Assign (targets : list expr) (value : expr) (a : atype) : rule expr :=
  fun st =>
    table <- fold_left (fun table target => t <- table ;; assign target value t)
                       targets (Ok (symtable st)) ;;
    Ok (Assign targets value a, set_symtable st table).

(** The function [recurse] of [transform]: the rule of the node's class
    where there is one, else the node rebuilt from its fields. *)
Fixpoint recurse (node : expr) : rule expr :=
  let each :=
    (fix each (nodes : list expr) : rule (list expr) :=
       match nodes with
       | [] => ret []
       | x :: rest => x' <== recurse x ;; rest' <== each rest ;; ret (x' :: rest')
       end) in
  match node with
  | Num n a => ret (Num n a)
  | Name id c a => do_Name id c a
  | NameConstant value a => do_NameConstant value a
  | Attribute value attr a => value' <== recurse value ;; do_Attribute value' attr a
  | Subscript value index a =>
      value' <== recurse value ;;
      index' <== match index with
                 | Some i => i' <== recurse i ;; ret (Some i')
                 | None => ret None
                 end ;;
      do_Subscript value' index' a
  | Call func args a =>
      func' <== recurse func ;; args' <== each args ;; do_Call func' args' a
  | IfExp test body orelse a =>
      test' <== recurse test ;; body' <== recurse body ;;
      orelse' <== recurse orelse ;; ret (IfExp test' body' orelse' a)
  | Tuple elts c a => elts' <== each elts ;; ret (Tuple elts' c a)
  | ListNode elts c a => elts' <== each elts ;; ret (ListNode elts' c a)
  | Return value a => value' <== recurse value ;; do_Return value' a
  | Assign targets value a => value' <== recurse value ;; do_Assign targets value' a
  | Expr value a => value' <== recurse value ;; ret (Expr value' a)
  | NoNode => ret NoNode
  end.

Fixpoint recurse_each (nodes : list expr) : rule (list expr) :=
  match nodes with
  | [] => ret []
  | x :: rest => x' <== recurse x ;; rest' <== recurse_each rest ;; ret (x' :: rest')
  end.

(** *** [transform] and [compile] *)

(** A [FunctionDef]: its parameters with their defaults lined up as
    [transform] does, and its body. *)
Record FunctionDef := {
  fd_name : string;
  fd_args : list (string * option expr);
  fd_vararg : bool;
  fd_kwarg : bool;
  fd_body : list expr
}.

(** The type given for a parameter: a schema, as the list of its nodes and
    the position of its root. *)
Record paramtype := { pt_members : list schema; pt_root : nat }.

(** [paramtypes], keyed by position or by name; a key may map to [None]. *)
Record paramtypes := {
  by_index : gmap nat (option paramtype);
  by_name : gmap string (option paramtype)
}.

(** The loop of [transform] over the parameters. *)
Fixpoint bind_parameters (types : paramtypes) (index : nat)
    (args : list (string * option expr)) : rule unit :=
  match args with
  | [] => ret tt
  | (paramname, dflt) :: rest =>
      match by_index types !! index, by_name types !! paramname with
      | Some _, Some _ =>
          fail (ValueError "parameter at index and parameter named are the same parameter in paramtypes")
      | found_by_index, found_by_name =>
          let given :=
            match found_by_index with
            | Some t => t
            | None => default None found_by_name
            end in
          bound <==
            match given with
            | None =>
                ret (PlainParameter index paramname dflt, untracked)
            | Some t =>
                match dflt with
                | Some _ =>
                    fail (ValueError "parameter is an argument defined in paramtypes, which is not allowed to have default parameters")
                | None =>
                    let a := ArrowedType [Build_Possibility (pt_root t) None]
                                         (Some index) true false in
                    ret (Transformed
                           {| tp_index := index; tp_originalname := paramname;
                              tp_atype := a; tp_root := pt_root t;
                              tp_members := pt_members t; tp_transformed := [];
                              tp_required := replicate (length (pt_members t)) false;
                              tp_sym2obj := ∅ |}, a)
                end
            end ;;
          _ <== (fun st =>
                   Ok (tt, set_symtable
                             (set_parameters st (parameters st ++ [fst bound])%list)
                             (<[paramname := snd bound]> (symtable st)))) ;;
          bind_parameters types (S index) rest
      end
  end.

(** [transform(function, paramtypes, ...)]: the rewritten body; the
    parameters are left in the state. *)
Definition transform (function : FunctionDef) (types : paramtypes)
    : rule (list expr) :=
  if fd_vararg function then
    fail (TypeError "function has *args, which are not allowed in compiled functions")
  else if fd_kwarg function then
    fail (TypeError "function has **kwds, which are not allowed in compiled functions")
  else
    _ <== bind_parameters types 0 (fd_args function) ;;
    _ <== recurse_each (omap snd (fd_args function)) ;;
    recurse_each (fd_body function).

(** [__builtins__], as far as the rules look into it: only [len] is tested
    for.  (The names of the other builtins are no name that [sym] makes.) *)
Definition builtins : gmap string pyfunction := {[ "len" := fn_len ]}.

(** A [Compiled] object: the rewritten body, the parameters and [env]. *)
Record Compiled := {
  c_name : string;
  c_body : list expr;
  c_parameters : list parameter;
  c_env : gmap string pyfunction
}.

(** What Python makes of a callee that is no name bound in the [env] of
    this model, given [env] and the callee: the
    [eval(compile(ast.Expression(node.func), "", "eval"), env)] of [search],
    whose exception is raised again as one of its class; and, when the
    object that it returns has a [__code__], the search of the function
    that [tofunction] fetches for it.  The result is the set of the names
    which that search adds to [symbolsused] (none when nothing is
    fetched). *)
Definition callee_evaluation : Type :=
  gmap string pyfunction -> expr -> result (gset string).

Section callees.

Variable eval_callee : callee_evaluation.

(** The function [search] of [compile]: the names the function uses, and
    the evaluation of every callee in [env].  A name bound in [e] evaluates
    to the function bound to it, and no function of [e] has a [__code__],
    so that nothing is fetched for it; of every other callee (a name of
    Python's builtins that [e] leaves out, an attribute, a call, ...)
    [eval_callee] decides. *)
Fixpoint search (e : gmap string pyfunction) (node : expr) : result (gset string) :=
  let each :=
    (fix each (nodes : list expr) : result (gset string) :=
       match nodes with
       | [] => Ok ∅
       | x :: rest => a <- search e x ;; b <- each rest ;; Ok (a ∪ b)
       end) in
  match node with
  | Num _ _ | NameConstant _ _ | NoNode => Ok ∅
  | Name id _ _ => Ok {[id]}
  | Attribute value _ _ => search e value
  | Subscript value index _ =>
      a <- search e value ;;
      b <- match index with Some i => search e i | None => Ok ∅ end ;;
      Ok (a ∪ b)
  | Call func args _ =>
      fetched <- match func with
                 | Name id _ _ =>
                     match e !! id with
                     | Some _ => Ok ∅
                     | None => eval_callee e func
                     end
                 | _ => eval_callee e func
                 end ;;
      a <- search e func ;; b <- each args ;; Ok (fetched ∪ a ∪ b)
  | IfExp test body orelse _ =>
      a <- search e test ;; b <- search e body ;; c <- search e orelse ;;
      Ok (a ∪ b ∪ c)
  | Tuple elts _ _ | ListNode elts _ _ => each elts
  | Return value _ | Expr value _ => search e value
  | Assign targets value _ => a <- each targets ;; b <- search e value ;; Ok (a ∪ b)
  end.

Fixpoint search_each (e : gmap string pyfunction) (nodes : list expr)
    : result (gset string) :=
  match nodes with
  | [] => Ok ∅
  | x :: rest => a <- search e x ;; b <- search_each e rest ;; Ok (a ∪ b)
  end.

(** [compile(function, paramtypes, env)], for a function given as its
    syntax tree.  The names of the parameters count as used, as they do
    where parameters are [Name] nodes (Python 2). *)
Definition compile (function : FunctionDef) (types : paramtypes)
    (user_env : gmap string pyfunction) : result Compiled :=
  let e := user_env ∪ builtins in
  in_defaults <- search_each e (omap snd (fd_args function)) ;;
  in_body <- search_each e (fd_body function) ;;
  let used :=
    dom e ∪ {[fd_name function]} ∪ list_to_set (map fst (fd_args function))
    ∪ in_defaults ∪ in_body in
  let st := {| symtable := ∅; parameters := []; sym_names := ∅;
               symbolsused := used; sym_remapped := []; env := e |} in
  let setup :=
    s1 <== sym "passnone" ;;
    _ <== (fun st => Ok (tt, set_env st (<[s1 := fn_passnone]> (env st)))) ;;
    s2 <== sym "listget" ;;
    _ <== (fun st => Ok (tt, set_env st (<[s2 := fn_listget]> (env st)))) ;;
    s3 <== sym "listlen" ;;
    _ <== (fun st => Ok (tt, set_env st (<[s3 := fn_listlen]> (env st)))) ;;
    s4 <== sym "ToProxy" ;;
    _ <== (fun st => Ok (tt, set_env st (<[s4 := fn_ToProxy]> (env st)))) ;;
    transform function types in
  r <- setup st ;;
  Ok {| c_name := fd_name function; c_body := fst r;
        c_parameters := parameters (snd r); c_env := env (snd r) |}.

End callees.

(** A Python in which no callee is defined but the names bound in [env]. *)
Definition no_other_callee : callee_evaluation :=
  fun _ _ =>
    Raise (NameError "code to compile calls the expression below, but it is not defined in the environment (env)").

(** *** Running the compiled function *)

Inductive rtval :=
| VInt (n : Z)
| VNone
| VArray (a : list Z)
| VToProxy (parameterid memberid index : Z)
| VFunction (f : pyfunction).

Definition as_index (v : rtval) : option (option Z) :=
  match v with
  | VInt n => Some (Some n)
  | VNone => Some None
  | _ => None
  end.

(** A call of one of the functions of [env]. *)
Definition apply (f : pyfunction) (args : list rtval) : njit rtval :=
  match f, args with
  | fn_listget, [VArray b; VArray e; VInt o; VInt i] =>
      r <~ listget b e o i ;; Some (Ok (VInt r))
  | fn_listlen, [VArray b; VArray e; VInt i] =>
      r <~ listlen b e i ;; Some (Ok (VInt r))
  | fn_passnone, [VArray a; i] =>
      i <~ Ok <$> as_index i ;;
      r <~ passnone a i ;;
      Some (Ok (match r with Some x => VInt x | None => VNone end))
  | fn_refusenone message, [i] =>
      i <~ Ok <$> as_index i ;;
      r <~ refusenone message i ;; Some (Ok (VInt r))
  | fn_ToProxy, [VInt p; VInt m; VInt i] => Some (Ok (VToProxy p m i))
  | fn_len, [VArray a] => Some (Ok (VInt (Z.of_nat (length a))))
  | _, _ => None
  end.

Definition truthy (v : rtval) : bool :=
  match v with
  | VInt n => negb (n =? 0)
  | VNone => false
  | VArray a => negb (length a =? 0)%nat
  | _ => true
  end.

(** The value of an expression of the rewritten body, with the arguments
    in [locals] and the inserted functions in [globals]. *)
Fixpoint eval (globals : gmap string pyfunction) (locals : gmap string rtval)
    (node : expr) : njit rtval :=
  let each :=
    (fix each (nodes : list expr) : njit (list rtval) :=
       match nodes with
       | [] => Some (Ok [])
       | x :: rest =>
           v <~ eval globals locals x ;; vs <~ each rest ;; Some (Ok (v :: vs))
       end) in
  match node with
  | Num n _ => Some (Ok (VInt n))
  | Name id _ _ =>
      match locals !! id with
      | Some v => Some (Ok v)
      | None =>
          match globals !! id with
          | Some f => Some (Ok (VFunction f))
          | None => Some (Raise (NameError id))
          end
      end
  | NameConstant None _ => Some (Ok VNone)
  | Subscript value (Some index) _ =>
      a <~ eval globals locals value ;;
      i <~ eval globals locals index ;;
      match a, i with
      | VArray a, VInt i => x <~ array_read a i ;; Some (Ok (VInt x))
      | _, _ => None
      end
  | Call func args _ =>
      f <~ eval globals locals func ;;
      vs <~ each args ;;
      match f with
      | VFunction f => apply f vs
      | _ => None
      end
  | IfExp test body orelse _ =>
      t <~ eval globals locals test ;;
      if truthy t then eval globals locals body else eval globals locals orelse
  | _ => None
  end.

(** The statements of the body in turn: the value returned. *)
Fixpoint exec (globals : gmap string pyfunction) (locals : gmap string rtval)
    (body : list expr) : njit rtval :=
  match body with
  | [] => Some (Ok VNone)
  | Return value _ :: _ => eval globals locals value
  | Assign [Name id _ _] value _ :: rest =>
      v <~ eval globals locals value ;; exec globals (<[id := v]> locals) rest
  | Expr value _ :: rest => _ <~ eval globals locals value ;; exec globals locals rest
  | _ => None
  end.

(** The loop of [Compiled.__call__] that lines up the arguments: the
    arrays of each transformed parameter, found with
    [resolved.findbybase(member).get(attr)], and the extra arguments. *)
Fixpoint arguments (resolved : nat -> nat -> string -> option (list Z))
    (order : list parameter) (args : list rtval)
    : result (list (string * rtval)) :=
  match order with
  | [] =>
      match args with
      | [] => Ok []
      | _ => Raise (TypeError "too many extra (non-columnar object) arguments provided")
      end
  | Transformed p :: rest =>
      arrays <-
        (fix each (symbols : list string) : result (list (string * rtval)) :=
           match symbols with
           | [] => Ok []
           | symbol :: symbols' =>
               match tp_sym2obj p !! symbol with
               | None => Raise (KeyError symbol)
               | Some (memberid, attr) =>
                   match resolved (tp_index p) memberid attr with
                   | None => Raise (KeyError attr)
                   | Some a => more <- each symbols' ;; Ok ((symbol, VArray a) :: more)
                   end
               end
           end) (tp_transformed p) ;;
      more <- arguments resolved rest args ;;
      Ok (arrays ++ more)%list
  | PlainParameter _ originalname _ :: rest =>
      match args with
      | [] => Raise (TypeError "too few extra (non-columnar object) arguments provided")
      | v :: args' =>
          more <- arguments resolved rest args' ;; Ok ((originalname, v) :: more)
      end
  end.

(** [Compiled.__call__(self, resolved, *args)]; a [ToProxy] result stands
    for the proxy that is built from it. *)
Definition call_compiled (self : Compiled)
    (resolved : nat -> nat -> string -> option (list Z)) (args : list rtval)
    : njit rtval :=
  match arguments resolved (c_parameters self) args with
  | Raise e => Some (Raise e)
  | Ok bound => exec (c_env self) (list_to_map bound) (c_body self)
  end.

(** *** Predicates on symbolic types *)

(** An [ArrowedType] that tracks a schema: it belongs to a parameter. *)
Definition tracked (a : atype) : Prop :=
  match a with
  | ArrowedType _ (Some _) _ _ => True
  | _ => False
  end.

(** The same schema substructure: the same originating parameter and the
    same member nodes. *)
Definition same_substructure (a b : atype) : Prop :=
  parameter_of a = parameter_of b /\
  map schema_of (possibilities_of a) = map schema_of (possibilities_of b).

(** *** The example of a list of integers *)

(** [def f(x): return x[0]] *)
Definition f_x0 : FunctionDef :=
  {| fd_name := "f"; fd_args := [("x", None)]; fd_vararg := false;
     fd_kwarg := false;
     fd_body := [Return (Subscript (Name "x" Load untracked)
                                   (Some (Num 0 untracked)) untracked)
                        untracked] |}.

(** [List(Primitive(int64))]: member 0 is the list, member 1 its content. *)
Definition list_of_int64 : paramtype :=
  {| pt_members := [List false None 1%nat; Primitive false None];
     pt_root := 0%nat |}.

(** [paramtypes = {0: List(Primitive(int64))}] *)
Definition x_is_list : paramtypes :=
  {| by_index := {[ 0%nat := Some list_of_int64 ]}; by_name := ∅ |}.

(** An array set that exposes [starts] and [stops] for the list and [data]
    for its content. *)
Definition arrays_of (starts stops data : list Z)
    : nat -> nat -> string -> option (list Z) :=
  fun _ memberid attr =>
    match memberid with
    | O =>
        if String.eqb attr "beginarray" then Some starts
        else if String.eqb attr "endarray" then Some stops else None
    | _ => if String.eqb attr "array" then Some data else None
    end.

(** [def f(x): return len(x)] *)
Definition f_len : FunctionDef :=
  {| fd_name := "f"; fd_args := [("x", None)]; fd_vararg := false;
     fd_kwarg := false;
     fd_body := [Return (Call (Name "len" Load untracked)
                              [Name "x" Load untracked] untracked)
                        untracked] |}.

(** A state of [sym] in which the function being compiled already uses the
    name [listget]. *)
Definition listget_taken : state :=
  {| symtable := ∅; parameters := []; sym_names := ∅;
     symbolsused := {[ "listget" ]}; sym_remapped := []; env := ∅ |}.

(** *** The example of a record of two lists *)

(** [Record({"a": List(Primitive), "b": List(Primitive)})]: member 0 is
    the record, members 1 and 3 its two fields. *)
Definition record_of_lists : paramtype :=
  {| pt_members := [Record false None [("a", 1%nat); ("b", 3%nat)];
                    List false None 2%nat; Primitive false None;
                    List false None 4%nat; Primitive false None];
     pt_root := 0%nat |}.

(** [paramtypes = {"x": record_of_lists}] *)
Definition x_is_record : paramtypes :=
  {| by_index := ∅; by_name := {[ "x" := Some record_of_lists ]} |}.

(** [x.attr], [y = value], and [def f(x): y = first; y = second]. *)
Definition field (attr : string) : expr :=
  Attribute (Name "x" Load untracked) attr untracked.

Definition set_y (value : expr) : expr :=
  Assign [Name "y" Store untracked] value untracked.

Definition f_two (first second : expr) : FunctionDef :=
  {| fd_name := "f"; fd_args := [("x", None)]; fd_vararg := false;
     fd_kwarg := false; fd_body := [set_y first; set_y second] |}.

(** The type of member [m] of parameter 0, and a state in which [y] is
    bound to member 1. *)
Definition member_type (m : nat) : atype :=
  ArrowedType [Build_Possibility m None] (Some 0%nat) false false.

Definition y_bound : state :=
  {| symtable := {[ "y" := member_type 1 ]}; parameters := []; sym_names := ∅;
     symbolsused := ∅; sym_remapped := []; env := ∅ |}.

(** *** The state the rules keep, and the binding of arguments *)

(** The state of [sym] is consistent: a symbol it has handed out is marked
    as used, and no two keys have the same symbol. *)
Definition sym_consistent (st : state) : Prop :=
  (forall key symbol, sym_names st !! key = Some symbol -> symbol ∈ symbolsused st) /\
  (forall k1 k2 symbol, sym_names st !! k1 = Some symbol ->
                        sym_names st !! k2 = Some symbol -> k1 = k2).

(** [parameter.index] and [parameter.originalname] *)
Definition parameter_index (prm : parameter) : nat :=
  match prm with
  | PlainParameter index _ _ => index
  | Transformed p => tp_index p
  end.

Definition parameter_originalname (prm : parameter) : string :=
  match prm with
  | PlainParameter _ originalname _ => originalname
  | Transformed p => tp_originalname p
  end.

(** [TransformedParameter.required_members(self)], as positions. *)
Definition required_members (p : TransformedParameter) : list nat :=
  omap (fun mr : nat * bool => if snd mr then Some (fst mr) else None)
       (zip (seq 0 (length (tp_members p))) (tp_required p)).

(** A parameter as the rules keep it: it stands at its [index], has a flag
    for every member, no array argument twice, and for every array
    argument the member and attribute it stands for. *)
Definition well_kept (i : nat) (prm : parameter) : Prop :=
  parameter_index prm = i /\
  match prm with
  | PlainParameter _ _ _ => True
  | Transformed p =>
      length (tp_required p) = length (tp_members p) /\
      NoDup (tp_transformed p) /\
      forall symbol, symbol ∈ tp_transformed p -> is_Some (tp_sym2obj p !! symbol)
  end.

Definition parameters_kept (st : state) : Prop :=
  forall i prm, parameters st !! i = Some prm -> well_kept i prm.

(** The inner loop of [Compiled.__call__] over the array arguments of one
    transformed parameter. *)
Definition lookup_arrays (resolved : nat -> nat -> string -> option (list Z))
    (p : TransformedParameter) : list string -> result (list (string * rtval)) :=
  fix each (symbols : list string) : result (list (string * rtval)) :=
    match symbols with
    | [] => Ok []
    | symbol :: symbols' =>
        match tp_sym2obj p !! symbol with
        | None => Raise (KeyError symbol)
        | Some (memberid, attr) =>
            match resolved (tp_index p) memberid attr with
            | None => Raise (KeyError attr)
            | Some a => more <- each symbols' ;; Ok ((symbol, VArray a) :: more)
            end
        end
    end.

(** The arguments that are not columns, and the names of the arguments of
    the compiled function, in order. *)
Definition extra_arguments (order : list parameter) : nat :=
  length (omap (fun prm => match prm with
                           | PlainParameter _ _ _ => Some prm
                           | Transformed _ => None
                           end) order).

Definition argument_names (order : list parameter) : list string :=
  flat_map (fun prm => match prm with
                       | PlainParameter _ originalname _ => [originalname]
                       | Transformed p => tp_transformed p
                       end) order.

(** The array set has an array for every array argument. *)
Definition resolvable (resolved : nat -> nat -> string -> option (list Z))
    (order : list parameter) : Prop :=
  forall p symbol, Transformed p ∈ order -> symbol ∈ tp_transformed p ->
    exists memberid attr a,
      tp_sym2obj p !! symbol = Some (memberid, attr) /\
      resolved (tp_index p) memberid attr = Some a.

(** The names of the template of [generate]. *)
Definition template_names : list string := ["CONSEQUENT"; "PREDICATE"; "ALTERNATE"].

(** Whether [compose] may find one of [keys] in [x]: as the name of a
    [Name] or of an [Attribute], or in a slice that is no index, which is
    not looked into here. *)
Fixpoint mentions (keys : list string) (x : expr) : bool :=
  let any :=
    (fix any (nodes : list expr) : bool :=
       match nodes with
       | [] => false
       | n :: rest => mentions keys n || any rest
       end) in
  match x with
  | Num _ _ | NameConstant _ _ | NoNode => false
  | Name id _ _ => existsb (String.eqb id) keys
  | Attribute value attr _ => existsb (String.eqb attr) keys || mentions keys value
  | Subscript value index _ =>
      mentions keys value
      || match index with Some i => mentions keys i | None => true end
  | Call func args _ => mentions keys func || any args
  | IfExp test body orelse _ =>
      mentions keys test || mentions keys body || mentions keys orelse
  | Tuple elts _ _ | ListNode elts _ _ => any elts
  | Return value _ | Expr value _ => mentions keys value
  | Assign targets value _ => any targets || mentions keys value
  end.

(** [CONSEQUENT if PREDICATE else ALTERNATE] for one possibility, with the
    [atype] of the consequent. *)
Definition conditional (h : nat -> expr) (p : Possibility) (alternate : expr) : expr :=
  match condition_of p, atype_of (h (schema_of p)) with
  | Some predicate, Ok a => IfExp predicate (h (schema_of p)) alternate a
  | _, _ => alternate
  end.

(** [def f(x, i): return x[i]] *)
Definition f_item : FunctionDef :=
  {| fd_name := "f"; fd_args := [("x", None); ("i", None)]; fd_vararg := false;
     fd_kwarg := false;
     fd_body := [Return (Subscript (Name "x" Load untracked)
                                   (Some (Name "i" Load untracked)) untracked)
                        untracked] |}.

(** [List(Primitive(int64))] with the two [nullable] flags given. *)
Definition list_of (list_nullable content_nullable : bool) : paramtypes :=
  {| by_index := {[ 0%nat := Some {| pt_members := [List list_nullable None 1%nat;
                                                    Primitive content_nullable None];
                                     pt_root := 0%nat |} ]};
     by_name := ∅ |}.

(** A type with one possibility, as the rules make them. *)
Definition member_of (i m : nat) (isparameter is_nullable : bool) : atype :=
  ArrowedType [Build_Possibility m None] (Some i) isparameter is_nullable.

(** The parameter [x] of a schema with the given members, member 0 the
    root, and the state of [transform] after it was bound. *)
Definition parameter_x (members : list schema) : TransformedParameter :=
  {| tp_index := 0; tp_originalname := "x";
     tp_atype := member_of 0 0 true false; tp_root := 0;
     tp_members := members; tp_transformed := [];
     tp_required := replicate (length members) false;
     tp_sym2obj := ∅ |}.

Definition parameter_state (members : list schema) : state :=
  {| symtable := {[ "x" := member_of 0 0 true false ]};
     parameters := [Transformed (parameter_x members)];
     sym_names := ∅; symbolsused := {[ "x" ]}; sym_remapped := [];
     env := builtins |}.

(** *** Code that touches no column *)







End Compiler.

(* ===================================================================== *)
(** * Properties *)
(* ===================================================================== *)

(** ** Python strings *)

Lemma append_assoc (a b c : string) : (a +s b) +s c = a +s (b +s c).
Proof.
  induction a as [|x a IH]; [reflexivity|].
  change (String x ((a +s b) +s c) = String x (a +s (b +s c))).
  rewrite IH. reflexivity.
Qed.

Lemma append_empty_r (a : string) : a +s "" = a.
Proof.
  induction a as [|c a IH]; [reflexivity|].
  change (String c (a +s "") = String c a). rewrite IH. reflexivity.
Qed.

Lemma append_cancel (a x y : string) : a +s x = a +s y -> x = y.
Proof. apply String.app_inj. Qed.

(** A string is not itself followed by something. *)
Lemma append_empty (a x : string) : a = a +s x -> x = "".
Proof.
  intros H. symmetry. apply (append_cancel a). rewrite <- H.
  apply append_empty_r.
Qed.

Lemma append_letter (d : string) (c : ascii) : d +s String c EmptyString <> "".
Proof. destruct d; discriminate. Qed.

(** ** The schema model *)

Module SchemaFacts.
Import Schema.

(** C1 (array names of distinct nodes are distinct): the code breaks it.
    Every field of a [Record] is called with the same prefix
    [prefix + delimiter + "F"], so for every prefix and delimiter the two
    fields of [two_fields] read the same data array: whatever [type]
    does, a derived type is the one shown, and its array names are not
    free of duplicates; and the type is derived as soon as [type] makes
    the three classes, as it does when it makes every class. *)
Theorem record_fields_share_names
    (type_ : string -> string -> list string -> result unit)
    (prefix delimiter : string) :
  (forall t, call type_ two_fields prefix delimiter = Ok t ->
     t = RecordType [("a", PrimitiveType (prefix +s delimiter +s "F") None);
                     ("b", PrimitiveType (prefix +s delimiter +s "F") None)] None
     /\ ~ NoDup (arrays t))
  /\ (type_ "PrimitiveType" "PrimitiveType" ["data"; "name"] = Ok tt ->
      type_ "AnonymousRecord" "RecordProxy" ["a"; "b"; "_fields"] = Ok tt ->
      type_ "RecordType" "RecordType" ["proxytype"; "name"] = Ok tt ->
      call type_ two_fields prefix delimiter
      = Ok (RecordType [("a", PrimitiveType (prefix +s delimiter +s "F") None);
                        ("b", PrimitiveType (prefix +s delimiter +s "F") None)] None))
  /\ call (fun _ _ _ => Ok tt) two_fields prefix delimiter
     = Ok (RecordType [("a", PrimitiveType (prefix +s delimiter +s "F") None);
                       ("b", PrimitiveType (prefix +s delimiter +s "F") None)] None).
Proof.
  assert (call type_ two_fields prefix delimiter
          = (_ <- type_ "PrimitiveType" "PrimitiveType" ["data"; "name"] ;;
             _ <- type_ "PrimitiveType" "PrimitiveType" ["data"; "name"] ;;
             _ <- type_ "AnonymousRecord" "RecordProxy" ["a"; "b"; "_fields"] ;;
             _ <- type_ "RecordType" "RecordType" ["proxytype"; "name"] ;;
             Ok (RecordType [("a", PrimitiveType (prefix +s delimiter +s "F") None);
                             ("b", PrimitiveType (prefix +s delimiter +s "F") None)]
                            None))) as E.
  { cbn. destruct (type_ "PrimitiveType" "PrimitiveType" ["data"; "name"]) as [[]|];
      reflexivity. }
  split; [|split].
  - intros t Ht. rewrite E in Ht.
    destruct (type_ "PrimitiveType" "PrimitiveType" ["data"; "name"]) as [[]|];
      [|discriminate Ht].
    destruct (type_ "AnonymousRecord" "RecordProxy" ["a"; "b"; "_fields"]) as [[]|];
      [|discriminate Ht].
    destruct (type_ "RecordType" "RecordType" ["proxytype"; "name"]) as [[]|];
      [|discriminate Ht].
    cbn [bind] in Ht. injection Ht as <-. split; [reflexivity|]. cbn.
    intros Hnd. apply NoDup_cons in Hnd as [Hin _]. apply Hin. left.
  - intros H1 H2 H3. rewrite E, H1, H2, H3. reflexivity.
  - reflexivity.
Qed.

(** The loop over the children of a node raises only if a step does. *)
Lemma for_each_never_raises
    (f : nat -> gset nat * list nat -> run (gset nat * list nat)) :
  (forall x st e, f x st <> Some (Raise e)) ->
  forall xs st e, for_each f xs st <> Some (Raise e).
Proof.
  intros Hf xs. induction xs as [|x xs IH]; intros st e; cbn; [discriminate|].
  destruct (f x st) as [[st'|e']|] eqn:E; cbn; [apply IH | | discriminate].
  exfalso. exact (Hf _ _ _ E).
Qed.

(** [_collect] raises nothing. *)
Lemma collect_never_raises (h : heap) (fuel : nat) :
  forall self st e, collect fuel h self st <> Some (Raise e).
Proof.
  induction fuel as [|fuel IH]; intros self [collection labels] e; cbn;
    [discriminate|].
  destruct (decide (self ∈ collection)); [discriminate|].
  destruct (h self); try discriminate; try apply IH;
    apply for_each_never_raises; exact IH.
Qed.

(** C2 (printing a cyclic schema terminates): the code breaks it for a
    cycle through a [Record].  [Record.__repr__] prints its fields with
    [repr(x)], a fresh top-level call, so on a record that contains itself
    no recursion depth is enough for [repr] to return: with any fuel the
    run ends with the fuel used up. *)
Theorem record_cycle_repr_never_returns (fuel : nat) :
  builtin_repr (repr fuel self_record 0 None) = None.
Proof.
  assert (repr fuel self_record 0 None = None) as ->; [|reflexivity].
  induction fuel as [|fuel IH]; [reflexivity|].
  cbn [repr]. unfold labels_of.
  destruct (collect fuel self_record 0 (∅, [])) as [[st|e]|] eqn:E; cbn [run_bind].
  - match goal with
    | |- context [@bool_decide (?x ∉ ?s) ?d] =>
        assert (@bool_decide (x ∉ s) d = true) as ->
          by (apply bool_decide_eq_true; set_solver)
    end.
    rewrite orb_true_r. cbn [self_record repr_fields]. rewrite IH. reflexivity.
  - exfalso. exact (collect_never_raises _ _ _ _ _ E).
  - reflexivity.
Qed.

(** The same cycle through a [List] prints, with one label. *)
Lemma list_cycle_repr :
  builtin_repr (repr 3 self_list 0 None) = Some (Ok "#0: List(#0)").
Proof. vm_compute. reflexivity. Qed.

(** C5 (construction and extension of [Union] and [Tuple] succeed on
    schemas): the code breaks it.  [_extend] loops over the name [value]
    and [Tuple.__setitem__] tests the name [item]; neither is a parameter,
    a local or a module-level name, so each of the five operations raises
    [NameError] whatever it is given. *)
Theorem extend_reads_unbound_name (given : pyobj) (current : list pyobj)
    (index : Z) :
  Union_init schema_globals given = Raise (NameError "value") /\
  Union_extend schema_globals current given = Raise (NameError "value") /\
  Tuple_init schema_globals given = Raise (NameError "value") /\
  Tuple_extend schema_globals current given = Raise (NameError "value") /\
  Tuple_setitem schema_globals current index given = Raise (NameError "item").
Proof. repeat split. Qed.

(** What [_extend] stores comes from the module-level [value] alone: the
    argument of the call plays no part. *)
Lemma extend_ignores_its_argument (g : globals) (a b : pyobj) (start : list pyobj) :
  Union__extend g a start = Union__extend g b start /\
  Tuple__extend g a start = Tuple__extend g b start.
Proof. split; reflexivity. Qed.

(** *** What [__call__] raises and names, [_labels], and the constructors *)

Section Schema_induction.

Variable P : Schema -> Prop.
Hypothesis HPrimitive : forall dtype dims nullable data mask name,
  P (Primitive dtype dims nullable data mask name).
Hypothesis HList : forall content nullable starts stops mask name,
  P content -> P (List content nullable starts stops mask name).
Hypothesis HUnion : forall possibilities nullable tags offsets mask name,
  Forall P possibilities -> P (Union possibilities nullable tags offsets mask name).
Hypothesis HRecord : forall fields nullable mask name,
  Forall (fun f => P (snd f)) fields -> P (Record fields nullable mask name).
Hypothesis HTuple : forall items nullable mask name,
  Forall P items -> P (Tuple items nullable mask name).
Hypothesis HPointer : forall target nullable positions mask name,
  P target -> P (Pointer target nullable positions mask name).

Fixpoint Schema_nested_ind (s : Schema) : P s :=
  match s with
  | Primitive dtype dims nullable data mask name =>
      HPrimitive dtype dims nullable data mask name
  | List content nullable starts stops mask name =>
      HList content nullable starts stops mask name (Schema_nested_ind content)
  | Union possibilities nullable tags offsets mask name =>
      HUnion possibilities nullable tags offsets mask name
        ((fix all (l : list Schema) : Forall P l :=
            match l with
            | [] => @List.Forall_nil _ P
            | x :: l' => @List.Forall_cons _ P x l' (Schema_nested_ind x) (all l')
            end) possibilities)
  | Record fields nullable mask name =>
      HRecord fields nullable mask name
        ((fix all (l : list (string * Schema)) : Forall (fun f => P (snd f)) l :=
            match l with
            | [] => @List.Forall_nil _ (fun f => P (snd f))
            | f :: l' => @List.Forall_cons _ (fun f => P (snd f)) f l' (Schema_nested_ind (snd f)) (all l')
            end) fields)
  | Tuple items nullable mask name =>
      HTuple items nullable mask name
        ((fix all (l : list Schema) : Forall P l :=
            match l with
            | [] => @List.Forall_nil _ P
            | x :: l' => @List.Forall_cons _ P x l' (Schema_nested_ind x) (all l')
            end) items)
  | Pointer target nullable positions mask name =>
      HPointer target nullable positions mask name (Schema_nested_ind target)
  end.

End Schema_induction.

Lemma comprehension_Ok {A B} (f : A -> result B) (xs : list A) (ts : list B) :
  comprehension f xs = Ok ts <-> Forall2 (fun x t => f x = Ok t) xs ts.
Proof.
  revert ts. induction xs as [|x xs IH]; intros ts.
  - split; [intros H; inversion H; constructor | intros H; inversion H; reflexivity].
  - cbn [comprehension]. fold (comprehension f xs).
    destruct (f x) as [t|e] eqn:Ex; cbn [bind].
    + destruct (comprehension f xs) as [ts'|e] eqn:Exs; cbn [bind].
      * split.
        -- intros H; inversion H; subst. constructor; [exact Ex | apply IH; reflexivity].
        -- intros H. inversion H as [|? t' ? ts0 Ht Hts]; subst.
           apply IH in Hts. rewrite Ex in Ht. congruence.
      * split; [discriminate|].
        intros H. inversion H as [|? t' ? ts0 Ht Hts]; subst.
        apply IH in Hts. discriminate.
    + split; [discriminate|].
      intros H. inversion H as [|? t' ? ts0 Ht Hts]; subst. congruence.
Qed.

Lemma comprehension_Raise {A B} (f : A -> result B) (xs : list A) (e : exn) :
  comprehension f xs = Raise e -> exists x, x ∈ xs /\ f x = Raise e.
Proof.
  induction xs as [|x xs IH]; [discriminate|].
  cbn [comprehension]. fold (comprehension f xs).
  destruct (f x) as [t|e'] eqn:Ex; cbn [bind].
  - destruct (comprehension f xs) as [ts'|e'] eqn:Exs; cbn [bind]; [discriminate|].
    intros H; inversion H; subst. destruct (IH eq_refl) as (y & Hy & Hfy).
    exists y. split; [right; exact Hy | exact Hfy].
  - intros H; inversion H; subst. exists x. split; [left | exact Ex].
Qed.

(** [call] on the three classes with several children, with the loops
    named. *)
Lemma call_Union type_ possibilities nullable tags offsets mask name prefix delimiter :
  call type_ (Union possibilities nullable tags offsets mask name) prefix delimiter
  = (ps <- comprehension (fun x => call type_ x (prefix +s delimiter +s "U") "-")
                         possibilities ;;
     if negb nullable then
       _ <- type_ "UnionType" "UnionType" ["possibilities"; "tags"; "offsets"; "name"] ;;
       Ok (UnionType ps (or_default tags (prefix +s delimiter +s "T"))
                     (or_default offsets (prefix +s delimiter +s "O")) name)
     else
       _ <- type_ "MaskedUnionType" "MaskedUnionType"
                  ["possibilities"; "tags"; "offsets"; "mask"; "name"] ;;
       Ok (MaskedUnionType ps (or_default tags (prefix +s delimiter +s "T"))
                           (or_default offsets (prefix +s delimiter +s "O"))
                           (or_default mask (prefix +s delimiter +s "M")) name)).
Proof. destruct nullable; reflexivity. Qed.

Lemma call_Tuple type_ items nullable mask name prefix delimiter :
  call type_ (Tuple items nullable mask name) prefix delimiter
  = (types <- comprehension (fun x => call type_ x (prefix +s delimiter +s "I") "-") items ;;
     _ <- match name with
          | None => type_ "AnonymousTuple" "AnonymousTupleProxy" ["_types"]
          | Some n => type_ n "TupleProxy" ["_types"]
          end ;;
     if negb nullable then
       _ <- type_ "TupleType" "TupleType" ["proxytype"; "name"] ;;
       Ok (TupleType types name)
     else
       _ <- type_ "MaskedTupleType" "MaskedTupleType" ["proxytype"; "mask"; "name"] ;;
       Ok (MaskedTupleType types (or_default mask (prefix +s delimiter +s "M")) name)).
Proof. reflexivity. Qed.

Lemma comprehension_ext {A B} (f g : A -> result B) (xs : list A) :
  (forall x, f x = g x) -> comprehension f xs = comprehension g xs.
Proof.
  intros Hfg. induction xs as [|x xs IH]; [reflexivity|].
  cbn [comprehension]. fold (comprehension f xs). fold (comprehension g xs).
  rewrite Hfg, IH. reflexivity.
Qed.

Lemma call_Record type_ fields nullable mask name prefix delimiter :
  call type_ (Record fields nullable mask name) prefix delimiter
  = (properties <- comprehension (call_field type_ fields (prefix +s delimiter +s "F"))
                                 (sorted (map fst fields)) ;;
     let properties :=
       List.filter (fun p => negb (String.eqb (fst p) "_fields")) properties in
     _ <- type_ (or_default name "AnonymousRecord") "RecordProxy"
                (proxy_keys (sorted (map fst fields))) ;;
     if negb nullable then
       _ <- type_ "RecordType" "RecordType" ["proxytype"; "name"] ;;
       Ok (RecordType properties name)
     else
       _ <- type_ "MaskedRecordType" "MaskedRecordType" ["proxytype"; "mask"; "name"] ;;
       Ok (MaskedRecordType properties (or_default mask (prefix +s delimiter +s "M"))
                            name)).
Proof.
  cbn [call].
  match goal with
  | |- bind (comprehension ?f _) _ = _ =>
      rewrite (comprehension_ext f (call_field type_ fields (prefix +s delimiter +s "F")))
  end; [reflexivity|].
  intros n. unfold call_field.
  induction fields as [|[m x] fields IH]; [reflexivity|].
  cbn [fields_get]. destruct (String.eqb m n); [reflexivity | exact IH].
Qed.

Lemma comprehension_total {A B} (f : A -> result B) (xs : list A) :
  Forall (fun x => exists t, f x = Ok t) xs -> exists ts, comprehension f xs = Ok ts.
Proof.
  induction 1 as [|x xs [t Ht] _ [ts IH]]; [exists []; reflexivity|].
  exists (t :: ts). cbn [comprehension]. fold (comprehension f xs).
  rewrite Ht, IH. reflexivity.
Qed.

Lemma comprehension_impl {A B} (f g : A -> result B) (xs : list A) (ts : list B) :
  Forall (fun x => forall t, f x = Ok t -> g x = Ok t) xs ->
  comprehension f xs = Ok ts -> comprehension g xs = Ok ts.
Proof.
  intros Hall Hrun. apply comprehension_Ok. apply comprehension_Ok in Hrun.
  revert Hall. induction Hrun as [|x t xs ts Hx Hxs IH]; intros Hall; [constructor|].
  apply List.Forall_cons_iff in Hall. destruct Hall as [Hhere Hall].
  constructor; [exact (Hhere t Hx) | exact (IH Hall)].
Qed.

Lemma fields_get_elem_of {A} (l : list (string * A)) (n : string) (x : A) :
  fields_get l n = Some x -> exists m, (m, x) ∈ l.
Proof.
  induction l as [|[m y] l IH]; cbn; [discriminate|].
  destruct (String.eqb m n).
  - intros H; inversion H; subst. exists m. left.
  - intros H. destruct (IH H) as [m' Hm']. exists m'. right. exact Hm'.
Qed.

Lemma fields_get_is_Some {A} (l : list (string * A)) (n : string) :
  n ∈ map fst l -> exists x, fields_get l n = Some x.
Proof.
  induction l as [|[m y] l IH]; cbn [map fst fields_get]; intros Hn.
  - inversion Hn.
  - destruct (String.eqb_spec m n) as [->|Hne]; [eauto|].
    apply elem_of_cons in Hn as [Hn|Hn]; [congruence | exact (IH Hn)].
Qed.

Lemma insert_sorted_elem_of (n x : string) (l : list string) :
  x ∈ insert_sorted n l -> x = n \/ x ∈ l.
Proof.
  induction l as [|m l IH]; cbn [insert_sorted].
  - intros Hx. apply list_elem_of_singleton in Hx. left. exact Hx.
  - destruct (String.leb n m).
    + intros Hx. apply elem_of_cons in Hx as [Hx|Hx]; [left; exact Hx | right; exact Hx].
    + intros Hx. apply elem_of_cons in Hx as [Hx|Hx].
      * right. subst x. left.
      * destruct (IH Hx) as [H|H]; [left; exact H | right; right; exact H].
Qed.

Lemma sorted_elem_of (x : string) (l : list string) : x ∈ sorted l -> x ∈ l.
Proof.
  induction l as [|n l IH]; cbn [sorted fold_right]; [intros H; exact H|].
  intros Hx. apply insert_sorted_elem_of in Hx as [->|Hx]; [left | right; exact (IH Hx)].
Qed.

(** Every name of [sorted(self._fields)] has its field. *)
Lemma sorted_field (fields : list (string * Schema)) (n : string) :
  n ∈ sorted (map fst fields) ->
  exists x m, fields_get fields n = Some x /\ (m, x) ∈ fields.
Proof.
  intros Hn. apply sorted_elem_of in Hn.
  destruct (fields_get_is_Some fields n Hn) as [x Hx].
  destruct (fields_get_elem_of fields n x Hx) as [m Hm]. eauto.
Qed.

(** What [__call__] returns does not depend on [type]: it is what it
    returns when every class is made. *)
Lemma call_returns_names (s : Schema) :
  forall type_ prefix delimiter t,
    call type_ s prefix delimiter = Ok t -> call every_class s prefix delimiter = Ok t.
Proof.
  induction s as [dtype dims nullable data mask name
                 |content nullable starts stops mask name IH
                 |possibilities nullable tags offsets mask name IH
                 |fields nullable mask name IH
                 |items nullable mask name IH
                 |target nullable positions mask name IH] using Schema_nested_ind;
    intros type_ prefix delimiter t Hcall.
  - cbn [call] in *. destruct nullable; cbn [negb] in *;
      match type of Hcall with
      | context [type_ ?a ?b ?c] => destruct (type_ a b c) as [[]|]
      end; (discriminate Hcall || exact Hcall).
  - cbn [call] in *.
    destruct (call type_ content (prefix +s delimiter +s "C") "-") as [c|] eqn:Ec;
      [|discriminate Hcall].
    rewrite (IH _ _ _ _ Ec). cbn [bind] in *. unfold every_class at 1. cbn [bind].
    destruct (match name with
              | Some n => type_ n "ListProxy" ["_content"]
              | None => type_ "AnonymousList" "AnonymousListProxy" ["_content"]
              end) as [[]|]; [|discriminate Hcall].
    cbn [bind] in Hcall.
    destruct name, nullable; cbn [negb] in *;
      match type of Hcall with
      | context [type_ ?a ?b ?c] => destruct (type_ a b c) as [[]|]
      end; (discriminate Hcall || exact Hcall).
  - rewrite call_Union in Hcall. rewrite call_Union.
    destruct (comprehension _ possibilities) as [ps|] eqn:Eps; [|discriminate Hcall].
    assert (comprehension (fun x => call every_class x (prefix +s delimiter +s "U") "-")
                          possibilities = Ok ps) as ->.
    { eapply comprehension_impl; [|exact Eps]. eapply Forall_impl; [exact IH|].
      cbn beta. intros x Hx t0 Ht0. exact (Hx _ _ _ _ Ht0). }
    cbn [bind] in *.
    destruct nullable; cbn [negb] in *;
      match type of Hcall with
      | context [type_ ?a ?b ?c] => destruct (type_ a b c) as [[]|]
      end; (discriminate Hcall || exact Hcall).
  - rewrite call_Record in Hcall. rewrite call_Record.
    destruct (comprehension _ (sorted (map fst fields))) as [ps|] eqn:Eps;
      [|discriminate Hcall].
    assert (comprehension (call_field every_class fields (prefix +s delimiter +s "F"))
                          (sorted (map fst fields)) = Ok ps) as ->.
    { eapply comprehension_impl; [|exact Eps].
      apply Forall_forall. intros n _ r Hr. unfold call_field in *.
      destruct (fields_get fields n) as [x|] eqn:Ex; [|discriminate Hr].
      destruct (fields_get_elem_of fields n x Ex) as [m Hm].
      rewrite Forall_forall in IH.
      destruct (call type_ x (prefix +s delimiter +s "F") "-") as [c|] eqn:Ec;
        [|discriminate Hr].
      pose proof (IH (m, x) Hm _ _ _ _ Ec) as Hx. cbn [snd] in Hx. rewrite Hx. exact Hr. }
    cbn [bind] in *. cbv zeta in *.
    destruct (type_ (or_default name "AnonymousRecord") "RecordProxy" _) as [[]|];
      [|discriminate Hcall].
    cbn [bind] in Hcall. unfold every_class at 1. cbn [bind].
    destruct nullable; cbn [negb] in *;
      match type of Hcall with
      | context [type_ ?a ?b ?c] => destruct (type_ a b c) as [[]|]
      end; (discriminate Hcall || exact Hcall).
  - rewrite call_Tuple in Hcall. rewrite call_Tuple.
    destruct (comprehension _ items) as [ps|] eqn:Eps; [|discriminate Hcall].
    assert (comprehension (fun x => call every_class x (prefix +s delimiter +s "I") "-")
                          items = Ok ps) as ->.
    { eapply comprehension_impl; [|exact Eps]. eapply Forall_impl; [exact IH|].
      cbn beta. intros x Hx t0 Ht0. exact (Hx _ _ _ _ Ht0). }
    cbn [bind] in *.
    destruct (match name with
              | Some n => type_ n "TupleProxy" ["_types"]
              | None => type_ "AnonymousTuple" "AnonymousTupleProxy" ["_types"]
              end) as [[]|]; [|discriminate Hcall].
    cbn [bind] in Hcall.
    destruct name, nullable; cbn [negb] in *;
      match type of Hcall with
      | context [type_ ?a ?b ?c] => destruct (type_ a b c) as [[]|]
      end; (discriminate Hcall || exact Hcall).
  - cbn [call] in *. destruct nullable; cbn [negb] in *; [discriminate Hcall|].
    destruct (call type_ target (prefix +s delimiter +s "") delimiter) as [c|] eqn:Ec;
      [|discriminate Hcall].
    rewrite (IH _ _ _ _ Ec). cbn [bind] in *.
    destruct (type_ "PointerType" "PointerType" _) as [[]|];
      (discriminate Hcall || exact Hcall).
Qed.

Lemma existsb_false_elem {A} (f : A -> bool) (l : list A) (x : A) :
  existsb f l = false -> x ∈ l -> f x = false.
Proof.
  intros E Hx. destruct (f x) eqn:Hfx; [|reflexivity].
  rewrite <- E. symmetry. apply existsb_exists. exists x.
  split; [apply list_elem_of_In; exact Hx | exact Hfx].
Qed.

Lemma created_last2 type_ (l : list (string * string * list string)) a b :
  Forall (created type_) (l ++ [a; b]) ->
  Forall (created type_) l /\ created type_ a /\ created type_ b.
Proof.
  intros H. apply Forall_app in H as [Hl Hab].
  apply List.Forall_cons_iff in Hab. destruct Hab as [Ha Hb].
  apply List.Forall_cons_iff in Hb. destruct Hb as [Hb _]. auto.
Qed.

Lemma created_last1 type_ (l : list (string * string * list string)) a :
  Forall (created type_) (l ++ [a]) -> Forall (created type_) l /\ created type_ a.
Proof.
  intros H. apply Forall_app in H as [Hl Ha].
  apply List.Forall_cons_iff in Ha. destruct Ha as [Ha _]. auto.
Qed.

(** [__call__] returns when no nullable [Pointer] is met and every class
    is made. *)
Lemma call_returns (s : Schema) :
  forall type_ prefix delimiter,
    nullable_pointer s = false -> Forall (created type_) (creations s) ->
    exists t, call type_ s prefix delimiter = Ok t.
Proof.
  induction s as [dtype dims nullable data mask name
                 |content nullable starts stops mask name IH
                 |possibilities nullable tags offsets mask name IH
                 |fields nullable mask name IH
                 |items nullable mask name IH
                 |target nullable positions mask name IH] using Schema_nested_ind;
    intros type_ prefix delimiter Hnp Hmade; cbn [nullable_pointer creations] in *.
  - cbn [call]. destruct nullable; cbn [negb] in *;
      apply List.Forall_cons_iff in Hmade; destruct Hmade as [Hmade _];
      unfold created in Hmade; cbn [fst snd] in Hmade; rewrite Hmade;
      eexists; reflexivity.
  - apply created_last2 in Hmade as (Hc & Hproxy & Hown).
    destruct (IH type_ (prefix +s delimiter +s "C") "-" Hnp Hc) as [c Ec].
    cbn [call]. rewrite Ec. cbn [bind].
    unfold created in Hproxy, Hown.
    destruct name; cbn [fst snd] in Hproxy; rewrite Hproxy; cbn [bind];
      destruct nullable; cbn [negb fst snd] in *; rewrite Hown; eexists; reflexivity.
  - apply created_last1 in Hmade as (Hc & Hown).
    apply List.Forall_flat_map in Hc.
    destruct (comprehension_total
                (fun x => call type_ x (prefix +s delimiter +s "U") "-") possibilities)
      as [ps Eps].
    { rewrite Forall_forall in IH. rewrite List.Forall_forall in Hc.
      apply Forall_forall. intros x Hx.
      apply (IH x Hx); [exact (existsb_false_elem _ _ x Hnp Hx)|].
      apply Hc. apply list_elem_of_In. exact Hx. }
    rewrite call_Union, Eps. cbn [bind]. unfold created in Hown.
    destruct nullable; cbn [negb fst snd] in *; rewrite Hown; eexists; reflexivity.
  - apply created_last2 in Hmade as (Hc & Hproxy & Hown).
    apply List.Forall_flat_map in Hc.
    destruct (comprehension_total
                (call_field type_ fields (prefix +s delimiter +s "F"))
                (sorted (map fst fields))) as [ps Eps].
    { rewrite Forall_forall in IH. rewrite List.Forall_forall in Hc.
      apply Forall_forall. intros n Hn.
      destruct (sorted_field fields n Hn) as (x & m & Hget & Hin).
      unfold call_field. rewrite Hget.
      destruct (IH (m, x) Hin type_ (prefix +s delimiter +s "F") "-") as [t Ht].
      - exact (existsb_false_elem _ _ (m, x) Hnp Hin).
      - apply (Hc (m, x)). apply list_elem_of_In. exact Hin.
      - cbn [snd] in Ht. rewrite Ht. eexists. reflexivity. }
    rewrite call_Record, Eps. cbn [bind]. cbv zeta. unfold created in Hproxy, Hown.
    cbn [fst snd] in Hproxy. rewrite Hproxy. cbn [bind].
    destruct nullable; cbn [negb fst snd] in *; rewrite Hown; eexists; reflexivity.
  - apply created_last2 in Hmade as (Hc & Hproxy & Hown).
    apply List.Forall_flat_map in Hc.
    destruct (comprehension_total
                (fun x => call type_ x (prefix +s delimiter +s "I") "-") items)
      as [ps Eps].
    { rewrite Forall_forall in IH. rewrite List.Forall_forall in Hc.
      apply Forall_forall. intros x Hx.
      apply (IH x Hx); [exact (existsb_false_elem _ _ x Hnp Hx)|].
      apply Hc. apply list_elem_of_In. exact Hx. }
    rewrite call_Tuple, Eps. cbn [bind]. unfold created in Hproxy, Hown.
    destruct name; cbn [fst snd] in Hproxy; rewrite Hproxy; cbn [bind];
      destruct nullable; cbn [negb fst snd] in *; rewrite Hown; eexists; reflexivity.
  - apply orb_false_iff in Hnp as [-> Hnp]. apply created_last1 in Hmade as (Hc & Hown).
    destruct (IH type_ (prefix +s delimiter +s "") delimiter Hnp Hc) as [c Ec].
    cbn [call negb]. rewrite Ec. cbn [bind]. unfold created in Hown.
    cbn [fst snd] in Hown. rewrite Hown. eexists. reflexivity.
Qed.

Lemma raised_by_here type_ s e n b k :
  (n, b, k) ∈ creations s -> type_ n b k = Raise e -> raised_by type_ s e.
Proof. intros Hin Hr. exists (n, b, k). split; [exact Hin | exact Hr]. Qed.

(** One call of [type] in a run that raised: it raised, and the exception
    is its own, or it returned [None]. *)
Ltac step_type Hcall E :=
  match type of Hcall with
  | bind ?x _ = _ => destruct x as [[]|?] eqn:E; cbn [bind] in Hcall
  end.

Ltac in_creations :=
  cbn [creations negb]; rewrite ?elem_of_app, ?elem_of_cons; auto 10.

Ltac raised_here Hcall E :=
  injection Hcall as <-; eapply raised_by_here; [|exact E]; in_creations.

(** [__call__] raises the [NameError] of [HERE], on a nullable [Pointer],
    or what [type] raised. *)
Lemma call_raises (s : Schema) :
  forall type_ prefix delimiter e,
    call type_ s prefix delimiter = Raise e ->
    (e = NameError "HERE" /\ nullable_pointer s = true) \/ raised_by type_ s e.
Proof.
  induction s as [dtype dims nullable data mask name
                 |content nullable starts stops mask name IH
                 |possibilities nullable tags offsets mask name IH
                 |fields nullable mask name IH
                 |items nullable mask name IH
                 |target nullable positions mask name IH] using Schema_nested_ind;
    intros type_ prefix delimiter e Hcall.
  - right. cbn [call] in Hcall. destruct nullable; cbn [negb] in Hcall;
      step_type Hcall E; try discriminate Hcall; raised_here Hcall E.
  - cbn [call] in Hcall.
    destruct (call type_ content (prefix +s delimiter +s "C") "-") as [c|e'] eqn:Ec.
    + right. cbn [bind] in Hcall.
      destruct name as [n|]; step_type Hcall E; try (raised_here Hcall E);
        destruct nullable; cbn [negb] in Hcall; step_type Hcall E';
        try discriminate Hcall; raised_here Hcall E'.
    + injection Hcall as <-. destruct (IH _ _ _ _ Ec) as [[-> Hnp]|(c & Hc & Hr)].
      * left. split; [reflexivity | exact Hnp].
      * right. exists c. split; [|exact Hr]. cbn [creations]. apply elem_of_app. left. exact Hc.
  - rewrite call_Union in Hcall.
    destruct (comprehension _ possibilities) as [ps|e'] eqn:Eps.
    + right. cbn [bind] in Hcall. destruct nullable; cbn [negb] in Hcall;
        step_type Hcall E; try discriminate Hcall; raised_here Hcall E.
    + injection Hcall as <-. apply comprehension_Raise in Eps as (x & Hx & Hcx).
      rewrite Forall_forall in IH.
      destruct (IH x Hx _ _ _ _ Hcx) as [[-> Hnp]|(c & Hc & Hr)].
      * left. split; [reflexivity|]. cbn [nullable_pointer]. apply existsb_exists.
        exists x. split; [apply list_elem_of_In; exact Hx | exact Hnp].
      * right. exists c. split; [|exact Hr]. cbn [creations]. apply elem_of_app. left.
        apply list_elem_of_In, in_flat_map. exists x.
        split; apply list_elem_of_In; assumption.
  - rewrite call_Record in Hcall.
    destruct (comprehension _ (sorted (map fst fields))) as [ps|e'] eqn:Eps.
    + right. cbn [bind] in Hcall. cbv zeta in Hcall.
      step_type Hcall E; try (raised_here Hcall E).
      destruct nullable; cbn [negb] in Hcall; step_type Hcall E';
        try discriminate Hcall; raised_here Hcall E'.
    + injection Hcall as <-. apply comprehension_Raise in Eps as (n & Hn & Hcn).
      destruct (sorted_field fields n Hn) as (x & m & Hget & Hin).
      unfold call_field in Hcn. rewrite Hget in Hcn.
      destruct (call type_ x (prefix +s delimiter +s "F") "-") as [t|ex] eqn:Ex;
        [discriminate Hcn|]. injection Hcn as <-.
      rewrite Forall_forall in IH.
      destruct (IH (m, x) Hin _ _ _ _ Ex) as [[-> Hnp]|(c & Hc & Hr)].
      * left. split; [reflexivity|]. cbn [nullable_pointer]. apply existsb_exists.
        exists (m, x). split; [apply list_elem_of_In; exact Hin | exact Hnp].
      * right. exists c. split; [|exact Hr]. cbn [creations]. apply elem_of_app. left.
        apply list_elem_of_In, in_flat_map. exists (m, x).
        split; apply list_elem_of_In; assumption.
  - rewrite call_Tuple in Hcall.
    destruct (comprehension _ items) as [ps|e'] eqn:Eps.
    + right. cbn [bind] in Hcall.
      destruct name as [n|]; step_type Hcall E; try (raised_here Hcall E);
        destruct nullable; cbn [negb] in Hcall; step_type Hcall E';
        try discriminate Hcall; raised_here Hcall E'.
    + injection Hcall as <-. apply comprehension_Raise in Eps as (x & Hx & Hcx).
      rewrite Forall_forall in IH.
      destruct (IH x Hx _ _ _ _ Hcx) as [[-> Hnp]|(c & Hc & Hr)].
      * left. split; [reflexivity|]. cbn [nullable_pointer]. apply existsb_exists.
        exists x. split; [apply list_elem_of_In; exact Hx | exact Hnp].
      * right. exists c. split; [|exact Hr]. cbn [creations]. apply elem_of_app. left.
        apply list_elem_of_In, in_flat_map. exists x.
        split; apply list_elem_of_In; assumption.
  - cbn [call] in Hcall. destruct nullable; cbn [negb] in Hcall.
    + injection Hcall as <-. left. split; reflexivity.
    + destruct (call type_ target (prefix +s delimiter +s "") delimiter) as [c|e'] eqn:Ec.
      * right. cbn [bind] in Hcall. step_type Hcall E; [discriminate Hcall|].
        raised_here Hcall E.
      * injection Hcall as <-. destruct (IH _ _ _ _ Ec) as [[-> Hnp]|(c & Hc & Hr)].
        -- left. split; [reflexivity | exact Hnp].
        -- right. exists c. split; [|exact Hr]. cbn [creations]. apply elem_of_app.
           left. exact Hc.
Qed.

Lemma every_class_makes (name base : string) (keys : list string) :
  every_class name base keys = Ok tt.
Proof. reflexivity. Qed.

(** [__call__] on a schema tree, whatever [type] does: it returns when
    no nullable [Pointer] occurs and [type] makes every class of the
    schema; what it returns is what it returns when every class is made;
    and it raises nothing but the [NameError] of [HERE], on a nullable
    [Pointer], and what [type] raised on a class of the schema. *)
Theorem call_returns_when_classes_are_made (s : Schema)
    (type_ : string -> string -> list string -> result unit)
    (prefix delimiter : string) :
  (nullable_pointer s = false -> Forall (created type_) (creations s) ->
     exists t, call type_ s prefix delimiter = Ok t) /\
  (forall t, call type_ s prefix delimiter = Ok t ->
     call every_class s prefix delimiter = Ok t) /\
  (forall e, call type_ s prefix delimiter = Raise e ->
     (e = NameError "HERE" /\ nullable_pointer s = true) \/ raised_by type_ s e).
Proof.
  split; [|split].
  - apply call_returns.
  - apply call_returns_names.
  - apply call_raises.
Qed.

Lemma prefix_weaken (prefix a b n : string) :
  (exists rest, n = prefix +s a +s b +s rest) -> exists rest, n = prefix +s rest.
Proof. intros [rest ->]. rewrite !append_assoc. eauto. Qed.

(** The names of the children that a comprehension derived. *)
Lemma comprehension_names (f : Schema -> result ConcreteType) (xs : list Schema)
    (ts : list ConcreteType) (Q : string -> Prop) :
  Forall (fun x => forall t, f x = Ok t -> forall n, n ∈ arrays t -> Q n) xs ->
  comprehension f xs = Ok ts ->
  forall n, n ∈ flat_map arrays ts -> Q n.
Proof.
  intros Hall Hrun n Hn. apply comprehension_Ok in Hrun.
  apply list_elem_of_In, in_flat_map in Hn as (t & Ht & Hn).
  apply list_elem_of_In, list_elem_of_lookup in Ht as [i Hi].
  destruct (Forall2_lookup_r _ _ _ _ _ Hrun Hi) as (x & Hx & Hfx).
  rewrite Forall_forall in Hall.
  apply (Hall x (list_elem_of_lookup_2 _ _ _ Hx) t Hfx n).
  apply list_elem_of_In. exact Hn.
Qed.

Lemma children_names (xs : list Schema) (prefix delimiter letter : string) :
  Forall (fun s => forall (prefix delimiter : string) (t : ConcreteType),
            unnamed s = true -> call every_class s prefix delimiter = Ok t ->
            forall n, n ∈ arrays t -> exists rest, n = prefix +s rest) xs ->
  forallb unnamed xs = true ->
  Forall (fun x => forall t, call every_class x (prefix +s delimiter +s letter) "-" = Ok t ->
            forall n, n ∈ arrays t -> exists rest, n = prefix +s rest) xs.
Proof.
  intros IH Hun. rewrite Forall_forall in IH. apply Forall_forall. intros x Hx t Ht n Hn.
  rewrite forallb_forall in Hun.
  destruct (IH x Hx _ _ t (Hun x (proj1 (list_elem_of_In _ _) Hx)) Ht n Hn) as [rest ->].
  rewrite !append_assoc. eauto.
Qed.

Lemma names_start_with_prefix (s : Schema) :
  forall (prefix delimiter : string) (t : ConcreteType),
  unnamed s = true -> call every_class s prefix delimiter = Ok t ->
  forall n, n ∈ arrays t -> exists rest, n = prefix +s rest.
Proof.
  induction s as [dtype dims nullable data mask name
                 |content nullable starts stops mask name IH
                 |possibilities nullable tags offsets mask name IH
                 |fields nullable mask name IH
                 |items nullable mask name IH
                 |target nullable positions mask name IH] using Schema_nested_ind;
    intros prefix delimiter t Hun Hcall n Hn; cbn [unnamed] in Hun;
    repeat match type of Hun with
           | _ && _ = true => apply andb_true_iff in Hun as [Hun ?]
           end;
    repeat match goal with
           | H : bool_decide (_ = None) = true |- _ => apply bool_decide_eq_true in H; subst
           end.
  - cbn in Hcall. destruct nullable; inversion Hcall; subst; cbn in Hn.
    + apply elem_of_cons in Hn as [->|Hn]; [exists ""; symmetry; apply append_empty_r|].
      apply list_elem_of_singleton in Hn as ->. rewrite append_assoc. eauto.
    + apply list_elem_of_singleton in Hn as ->. exists "". symmetry. apply append_empty_r.
  - cbn [call or_default] in Hcall.
    destruct (call every_class content (prefix +s delimiter +s "C") "-") as [c|] eqn:Ec;
      [|discriminate].
    cbn [bind] in Hcall.
    assert (forall m, m ∈ arrays c -> exists rest, m = prefix +s rest) as Hc.
    { intros m Hm. destruct (IH _ _ c ltac:(assumption) Ec m Hm) as [rest ->].
      rewrite !append_assoc. eauto. }
    destruct name; rewrite !every_class_makes in Hcall; cbn [bind] in Hcall;
      destruct nullable; cbn [negb] in Hcall; rewrite ?every_class_makes in Hcall;
      inversion Hcall; subst; cbn [arrays] in Hn;
      rewrite !elem_of_cons in Hn;
      repeat match type of Hn with
             | _ \/ _ => destruct Hn as [->|Hn]
             end; try (rewrite append_assoc; eauto); apply Hc; exact Hn.
  - rewrite call_Union in Hcall. cbn [or_default] in Hcall.
    destruct (comprehension _ possibilities) as [ps|] eqn:Eps; [|discriminate].
    cbn [bind] in Hcall.
    pose proof (comprehension_names _ _ _ _
                  (children_names possibilities prefix delimiter "U" IH ltac:(assumption))
                  Eps) as Hc.
    destruct nullable; cbn [negb] in Hcall; rewrite every_class_makes in Hcall;
      inversion Hcall; subst; cbn [arrays] in Hn;
      rewrite !elem_of_cons in Hn;
      repeat match type of Hn with
             | _ \/ _ => destruct Hn as [->|Hn]
             end; try (rewrite append_assoc; eauto); apply Hc; exact Hn.
  - rewrite call_Record in Hcall.
    destruct (comprehension _ (sorted (map fst fields))) as [ps|] eqn:Eps; [|discriminate].
    cbn [bind] in Hcall. cbv zeta in Hcall.
    assert (forall m, m ∈ flat_map (fun f => arrays (snd f))
                        (List.filter (fun p => negb (String.eqb (fst p) "_fields")) ps) ->
                      exists rest, m = prefix +s rest) as Hc.
    { intros m Hm. apply list_elem_of_In, in_flat_map in Hm as ([k c] & Hkc & Hm).
      apply filter_In in Hkc as [Hkc _].
      apply comprehension_Ok in Eps.
      apply list_elem_of_In, list_elem_of_lookup in Hkc as [i Hi].
      destruct (Forall2_lookup_r _ _ _ _ _ Eps Hi) as (k' & _ & Hcf).
      unfold call_field in Hcf.
      destruct (fields_get fields k') as [x|] eqn:Eget; [|discriminate Hcf].
      destruct (fields_get_elem_of fields k' x Eget) as [k0 Hk].
      destruct (call every_class x (prefix +s delimiter +s "F") "-") as [c0|] eqn:Ec0;
        [|discriminate Hcf].
      cbn [bind] in Hcf. injection Hcf as <- <-.
      rewrite Forall_forall in IH.
      match goal with
      | H : forallb _ fields = true |- _ => rewrite forallb_forall in H; rename H into Hall
      end.
      destruct (IH (k0, x) Hk _ _ c0 (Hall (k0, x) (proj1 (list_elem_of_In _ _) Hk)) Ec0 m
                  (proj2 (list_elem_of_In _ _) Hm)) as [rest ->].
      rewrite !append_assoc. eauto. }
    rewrite every_class_makes in Hcall. cbn [bind] in Hcall.
    destruct nullable; cbn [negb] in Hcall; rewrite every_class_makes in Hcall;
      inversion Hcall; subst; cbn [arrays] in Hn;
      rewrite ?elem_of_cons in Hn;
      repeat match type of Hn with
             | _ \/ _ => destruct Hn as [->|Hn]
             end; try (rewrite append_assoc; eauto); apply Hc; exact Hn.
  - rewrite call_Tuple in Hcall.
    destruct (comprehension _ items) as [ps|] eqn:Eps; [|discriminate].
    cbn [bind] in Hcall.
    pose proof (comprehension_names _ _ _ _
                  (children_names items prefix delimiter "I" IH ltac:(assumption))
                  Eps) as Hc.
    destruct name; rewrite !every_class_makes in Hcall; cbn [bind] in Hcall;
      destruct nullable; cbn [negb] in Hcall; rewrite ?every_class_makes in Hcall;
      inversion Hcall; subst; cbn [arrays] in Hn;
      rewrite ?elem_of_cons in Hn;
      repeat match type of Hn with
             | _ \/ _ => destruct Hn as [->|Hn]
             end; try (rewrite append_assoc; eauto); apply Hc; exact Hn.
  - cbn [call or_default] in Hcall. destruct nullable; [discriminate|]. cbn [negb] in Hcall.
    destruct (call every_class target (prefix +s delimiter +s "") delimiter) as [c|] eqn:Ec;
      [|discriminate].
    cbn [bind] in Hcall. rewrite every_class_makes in Hcall.
    inversion Hcall; subst. cbn [arrays] in Hn.
    apply elem_of_cons in Hn as [->|Hn]; [rewrite append_assoc; eauto|].
    destruct (IH _ _ c ltac:(assumption) Ec n Hn) as [rest ->].
    rewrite !append_assoc. eauto.
Qed.

(** With no array name given in the schema, every array name of the
    derived type starts with the prefix of the call. *)
Theorem derived_names_start_with_prefix (s : Schema) :
  forall (type_ : string -> string -> list string -> result unit)
         (prefix delimiter : string) (t : ConcreteType),
  unnamed s = true -> call type_ s prefix delimiter = Ok t ->
  forall n, n ∈ arrays t -> exists rest, n = prefix +s rest.
Proof.
  intros type_ prefix delimiter t Hun Hcall.
  exact (names_start_with_prefix s prefix delimiter t Hun
           (call_returns_names s type_ prefix delimiter t Hcall)).
Qed.

Lemma chain_without_pointer (s : Schema) : chain s -> nullable_pointer s = false.
Proof.
  induction s as [dtype dims nullable data mask name
                 | content IH nullable starts stops mask name
                 | | | | ]; try contradiction.
  - reflexivity.
  - cbn [chain nullable_pointer]. destruct starts, stops, mask; try contradiction.
    exact IH.
Qed.

Lemma chain_names (s : Schema) :
  chain s ->
  forall prefix delimiter,
    exists t, call every_class s prefix delimiter = Ok t /\ NoDup (arrays t) /\
      forall n, n ∈ arrays t -> exists rest, n = prefix +s rest.
Proof.
  induction s as [dtype dims nullable data mask name
                 | content IH nullable starts stops mask name
                 | | | | ]; try contradiction.
  - destruct data, mask; try contradiction. intros _ prefix delimiter.
    destruct nullable; cbn [call negb or_default bind every_class]; eexists;
      (split; [reflexivity|]); cbn [arrays].
    + split.
      * apply NoDup_cons. split; [|apply NoDup_singleton].
        intros Hin. apply list_elem_of_singleton in Hin.
        rewrite append_assoc in Hin. apply append_empty in Hin.
        exact (append_letter _ _ Hin).
      * intros n Hn. apply elem_of_cons in Hn as [->|Hn].
        -- exists "". symmetry. apply append_empty_r.
        -- apply list_elem_of_singleton in Hn as ->. rewrite append_assoc. eauto.
    + split; [apply NoDup_singleton|].
      intros n Hn. apply list_elem_of_singleton in Hn as ->.
      exists "". symmetry. apply append_empty_r.
  - destruct starts, stops, mask; try contradiction. intros Hc prefix delimiter.
    destruct (IH Hc (prefix +s delimiter +s "C") "-") as (c & Hcall & Hnd & Hpre).
    assert (forall (x : ascii) n, x <> "C"%char -> n ∈ arrays c ->
              prefix +s delimiter +s String x EmptyString <> n) as Hother.
    { intros x n Hx Hn E. destruct (Hpre n Hn) as [rest ->].
      rewrite !append_assoc in E. do 2 apply append_cancel in E.
      change (String x EmptyString = String "C"%char rest) in E.
      injection E as E _. contradiction. }
    assert (forall (x y : ascii), x <> y ->
              prefix +s delimiter +s String x EmptyString
              <> prefix +s delimiter +s String y EmptyString) as Hletters.
    { intros x y Hxy E. rewrite !append_assoc in E. do 2 apply append_cancel in E.
      congruence. }
    assert (forall n, n ∈ arrays c -> exists rest, n = prefix +s rest) as Hpre'.
    { intros n Hn. destruct (Hpre n Hn) as [rest ->].
      rewrite !append_assoc. eauto. }
    cbn [call or_default]. rewrite Hcall. cbn [bind].
    replace (match name with
             | Some n => every_class n "ListProxy" ["_content"]
             | None => every_class "AnonymousList" "AnonymousListProxy" ["_content"]
             end) with (Ok tt : result unit) by (destruct name; reflexivity).
    cbn [bind].
    destruct nullable; cbn [negb]; rewrite every_class_makes; cbn [bind]; eexists;
      (split; [reflexivity|]); cbn [arrays].
    + split.
      * repeat (apply NoDup_cons; split); try exact Hnd;
          rewrite ?elem_of_cons; intros Hin;
          repeat match goal with
                 | H : _ \/ _ |- _ => destruct H as [H|H]
                 end;
          try (eapply Hother; [|exact Hin|reflexivity]; discriminate);
          try (eapply Hletters; [|exact Hin]; discriminate).
      * intros n Hn. rewrite !elem_of_cons in Hn.
        destruct Hn as [->|[->|[->|Hn]]]; try (rewrite append_assoc; eauto).
        apply Hpre'. exact Hn.
    + split.
      * repeat (apply NoDup_cons; split); try exact Hnd;
          rewrite ?elem_of_cons; intros Hin;
          repeat match goal with
                 | H : _ \/ _ |- _ => destruct H as [H|H]
                 end;
          try (eapply Hother; [|exact Hin|reflexivity]; discriminate);
          try (eapply Hletters; [|exact Hin]; discriminate).
      * intros n Hn. rewrite !elem_of_cons in Hn.
        destruct Hn as [->|[->|Hn]]; try (rewrite append_assoc; eauto).
        apply Hpre'. exact Hn.
Qed.


(** Down a chain of lists the derived names do not collide: whatever
    [type] does, a type that [__call__] returns reads no array name
    twice, and each of its names starts with the prefix of the call; and
    [__call__] returns when [type] makes the classes of the chain. *)
Theorem chain_names_distinct (s : Schema) :
  chain s ->
  forall (type_ : string -> string -> list string -> result unit)
         (prefix delimiter : string),
    (forall t, call type_ s prefix delimiter = Ok t ->
       NoDup (arrays t) /\ forall n, n ∈ arrays t -> exists rest, n = prefix +s rest) /\
    (Forall (created type_) (creations s) ->
       exists t, call type_ s prefix delimiter = Ok t).
Proof.
  intros Hchain type_ prefix delimiter. split.
  - intros t Ht. apply call_returns_names in Ht.
    destruct (chain_names s Hchain prefix delimiter) as (t' & Ht' & Hnd & Hpre).
    rewrite Ht in Ht'. injection Ht' as <-. split; assumption.
  - apply call_returns. apply chain_without_pointer. exact Hchain.
Qed.

(** The chain theorem at [List(List(Primitive, nullable=True))] with the
    default prefix and delimiter, when every class is made. *)
Lemma chain_names_distinct_witness :
  chain nested_lists /\
  exists t, call every_class nested_lists "object" "-" = Ok t /\ NoDup (arrays t) /\
    forall n, n ∈ arrays t -> exists rest, n = "object" +s rest.
Proof.
  split; [exact I|].
  destruct (chain_names_distinct nested_lists I every_class "object" "-") as [Hnames Hret].
  destruct Hret as [t Ht].
  { repeat constructor. }
  exists t. split; [exact Ht|]. exact (Hnames t Ht).
Defined.

Lemma derived_names_start_with_prefix_witness :
  exists t, unnamed nested_lists = true /\
    call every_class nested_lists "object" "-" = Ok t /\
    "object-C-M" ∈ arrays t /\ exists rest, "object-C-M" = "object" +s rest.
Proof.
  assert (exists t, call every_class nested_lists "object" "-" = Ok t
                    /\ "object-C-M" ∈ arrays t)
    as (t & Hcall & Hin).
  { eexists. split; [reflexivity|]. cbn. rewrite !elem_of_cons. auto 10. }
  exists t. split; [reflexivity|]. split; [exact Hcall|]. split; [exact Hin|].
  exact (derived_names_start_with_prefix nested_lists every_class "object" "-" t eq_refl
           Hcall "object-C-M" Hin).
Defined.

Lemma size_below (c : gset nat) (n : nat) :
  (forall x, x ∈ c -> (x < n)%nat) -> (size c <= n)%nat.
Proof.
  intros Hc. rewrite <- (size_set_seq (C := gset nat) 0 n).
  apply subseteq_size. intros x Hx. apply elem_of_set_seq. specialize (Hc x Hx). lia.
Qed.

Lemma collect_terminates (n : nat) (h : heap) : closed h n ->
  forall (fuel self : nat) (c : gset nat) (labels : list nat),
  (self < n)%nat -> (forall x, x ∈ c -> (x < n)%nat) ->
  Forall (fun l => (l < n)%nat) labels -> (n - size c < fuel)%nat ->
  exists c' labels', collect fuel h self (c, labels) = Some (Ok (c', labels')) /\
    c ⊆ c' /\ (forall x, x ∈ c' -> (x < n)%nat) /\
    Forall (fun l => (l < n)%nat) labels'.
Proof.
  intros Hclosed. induction fuel as [|fuel IH]; intros self c labels Hself Hc Hl Hfuel; [lia|].
  cbn [collect]. destruct (decide (self ∈ c)) as [Hin|Hnin].
  { exists c, (labels ++ [self])%list. split; [reflexivity|]. split; [reflexivity|].
    split; [exact Hc|]. apply Forall_app. split; [exact Hl|]. constructor; [exact Hself|constructor]. }
  set (c1 := {[self]} ∪ c).
  assert (forall x, x ∈ c1 -> (x < n)%nat) as Hc1.
  { intros x Hx. apply elem_of_union in Hx as [Hx|Hx]; [|auto].
    apply elem_of_singleton in Hx as ->. exact Hself. }
  assert (size c1 = S (size c)) as Hsize.
  { unfold c1. rewrite size_union by (apply disjoint_singleton_l; exact Hnin).
    rewrite size_singleton. reflexivity. }
  pose proof (size_below c1 n Hc1) as Hle.
  assert (n - size c1 < fuel)%nat as Hfuel1 by lia.
  assert (c ⊆ c1) as Hsub by (unfold c1; apply union_subseteq_r).
  assert (forall xs c0 l0, Forall (fun x => (x < n)%nat) xs ->
            c1 ⊆ c0 -> (forall x, x ∈ c0 -> (x < n)%nat) ->
            Forall (fun l => (l < n)%nat) l0 ->
            exists c' labels', for_each (collect fuel h) xs (c0, l0) = Some (Ok (c', labels')) /\
              c ⊆ c' /\ (forall x, x ∈ c' -> (x < n)%nat) /\
              Forall (fun l => (l < n)%nat) labels') as Heach.
  { induction xs as [|x xs IHxs]; intros c0 l0 Hxs Hc0 Hb0 Hl0.
    - exists c0, l0. split; [reflexivity|]. split; [transitivity c1; assumption|]. auto.
    - apply Forall_cons in Hxs as [Hx Hxs]. cbn [for_each].
      destruct (IH x c0 l0 Hx Hb0 Hl0) as (c' & l' & Hrun & Hsub' & Hb' & Hl').
      { pose proof (subseteq_size _ _ Hc0). lia. }
      rewrite Hrun. cbn [run_bind].
      apply IHxs; [exact Hxs | transitivity c0; assumption | exact Hb' | exact Hl']. }
  specialize (Hclosed self Hself).
  destruct (h self) as [| content ? ? ? ? | ps ? ? ? ? | fs ? ? | xs ? ? | target ? ? ?];
    cbn [children] in Hclosed.
  - exists c1, labels. auto.
  - apply Forall_cons in Hclosed as [Hx _].
    destruct (IH content c1 labels Hx Hc1 Hl Hfuel1) as (c' & l' & Hrun & Hsub' & Hb' & Hl').
    exists c', l'. split; [exact Hrun|]. split; [transitivity c1; assumption|]. auto.
  - apply (Heach ps c1 labels Hclosed); [reflexivity | exact Hc1 | exact Hl].
  - apply (Heach (map snd fs) c1 labels Hclosed); [reflexivity | exact Hc1 | exact Hl].
  - apply (Heach xs c1 labels Hclosed); [reflexivity | exact Hc1 | exact Hl].
  - apply Forall_cons in Hclosed as [Hx _].
    destruct (IH target c1 labels Hx Hc1 Hl Hfuel1) as (c' & l' & Hrun & Hsub' & Hb' & Hl').
    exists c', l'. split; [exact Hrun|]. split; [transitivity c1; assumption|]. auto.
Qed.

Lemma for_each_mono {A S} (f g : A -> S -> run S) (xs : list A) :
  (forall x st r, f x st = Some r -> g x st = Some r) ->
  forall st r, for_each f xs st = Some r -> for_each g xs st = Some r.
Proof.
  intros Hfg. induction xs as [|x xs IH]; intros st r Hrun; [exact Hrun|].
  cbn [for_each] in *. destruct (f x st) as [[st'|e]|] eqn:E; [| |discriminate].
  - rewrite (Hfg _ _ _ E). cbn [run_bind] in *. apply IH. exact Hrun.
  - rewrite (Hfg _ _ _ E). exact Hrun.
Qed.

(** What [_collect] returns within some recursion depth it returns within
    any greater one. *)
Lemma collect_mono (h : heap) (fuel : nat) :
  forall self st r, collect fuel h self st = Some r -> collect (S fuel) h self st = Some r.
Proof.
  induction fuel as [|fuel IH]; intros self [c labels] r Hrun; [discriminate|].
  cbn [collect] in Hrun. change (collect (S (S fuel)) h self (c, labels))
    with (if decide (self ∈ c) then Some (Ok (c, (labels ++ [self])%list))
          else
            match h self with
            | NPrimitive _ _ _ _ _ => Some (Ok ({[self]} ∪ c, labels))
            | NList content _ _ _ _ => collect (S fuel) h content ({[self]} ∪ c, labels)
            | NUnion possibilities _ _ _ _ =>
                for_each (collect (S fuel) h) possibilities ({[self]} ∪ c, labels)
            | NRecord fields _ _ =>
                for_each (collect (S fuel) h) (map snd fields) ({[self]} ∪ c, labels)
            | NTuple items _ _ => for_each (collect (S fuel) h) items ({[self]} ∪ c, labels)
            | NPointer target _ _ _ => collect (S fuel) h target ({[self]} ∪ c, labels)
            end).
  destruct (decide (self ∈ c)); [exact Hrun|].
  destruct (h self); try exact Hrun; try (apply IH; exact Hrun);
    apply (for_each_mono (collect fuel h)); try exact Hrun; exact IH.
Qed.

(** [_labels] returns on every schema, cyclic or not: with [n] objects, a
    recursion depth of [n + 1] is enough, any greater depth gives the same
    labels, and the labels are objects of the schema. *)
Theorem labels_terminate (n : nat) (h : heap) (self : nat) :
  closed h n -> (self < n)%nat ->
  exists labels, Forall (fun l => (l < n)%nat) labels /\
    forall fuel, (n < fuel)%nat -> labels_of fuel h self = Some (Ok labels).
Proof.
  intros Hclosed Hself.
  destruct (collect_terminates n h Hclosed (S n) self ∅ [] Hself)
    as (c' & labels & Hrun & _ & _ & Hl).
  - intros x Hx. apply elem_of_empty in Hx. contradiction.
  - constructor.
  - rewrite size_empty. lia.
  - exists labels. split; [exact Hl|].
    intros fuel Hfuel. unfold labels_of.
    assert (collect fuel h self (∅, []) = Some (Ok (c', labels))) as ->; [|reflexivity].
    induction Hfuel as [|fuel Hle IH]; [exact Hrun|].
    apply collect_mono. exact IH.
Qed.

Lemma Record_validate_Ok (py2 : bool) (items trial : list (pyobj * pyobj)) :
  Record_validate py2 items = Ok trial <->
  trial = items /\
  Forall (fun kv => accepted_key (fst kv) /\ isinstance_Schema (snd kv) = true) items.
Proof.
  revert trial. induction items as [|[n x] items IH]; intros trial.
  - cbn. split; [intros H; inversion H; auto | intros [-> _]; reflexivity].
  - cbn [Record_validate].
    assert ((match n with
             | ObjStr name => bool_decide (identifier_match name <> None)
             | _ => false
             end) = true <-> accepted_key n) as Hkey.
    { unfold accepted_key. destruct n as [| |name| |]; try (split; [discriminate|]; intros (c & rest & H & _); discriminate).
      rewrite bool_decide_eq_true. destruct name as [|c rest]; cbn [identifier_match].
      - split; [congruence|]. intros (c & rest & H & _). discriminate.
      - destruct (identifier_start c) eqn:Ec.
        + split; [eauto|discriminate].
        + split; [congruence|]. intros (c' & rest' & H & Hc). inversion H; subst. congruence. }
    destruct (match n with ObjStr name => _ | _ => false end) eqn:Ek.
    + destruct (isinstance_Schema x) eqn:Ex.
      * destruct (Record_validate py2 items) as [trial'|e] eqn:Ev; cbn [bind].
        -- destruct (proj1 (IH trial') eq_refl) as [-> Hall]. split.
           ++ intros H; inversion H. split; [reflexivity|]. constructor; [|exact Hall].
              split; [apply Hkey; reflexivity | exact Ex].
           ++ intros [-> _]. reflexivity.
        -- split; [discriminate|]. intros [_ Hall]. apply Forall_cons in Hall as [_ Hall].
           discriminate (proj2 (IH items) (conj eq_refl Hall)).
      * split; [destruct py2; discriminate|]. intros [_ Hall].
        apply Forall_cons in Hall as [[_ Hx] _]. cbn in Hx. congruence.
    + split; [destruct py2; discriminate|]. intros [_ Hall].
      apply Forall_cons in Hall as [[Hn _] _]. apply Hkey in Hn. discriminate.
Qed.

Lemma key_eqb_eq (a b : pyobj) : key_eqb a b = true <-> a = b /\ hashable a = true.
Proof.
  destruct a, b; cbn; try (split; [discriminate | intros [H ?]; discriminate]).
  - rewrite Nat.eqb_eq. split; [intros ->; auto | intros [H _]; inversion H; reflexivity].
  - rewrite Z.eqb_eq. split; [intros ->; auto | intros [H _]; inversion H; reflexivity].
  - rewrite String.eqb_eq. split; [intros ->; auto | intros [H _]; inversion H; reflexivity].
  - split; auto.
Qed.

Lemma key_eqb_refl (k : pyobj) : hashable k = true -> key_eqb k k = true.
Proof. intros H. apply key_eqb_eq. auto. Qed.

Lemma odict_get_set (d : list (pyobj * pyobj)) (k k' v : pyobj) :
  hashable k = true ->
  odict_get (odict_set d k v) k' = if key_eqb k k' then Some v else odict_get d k'.
Proof.
  intros Hk. induction d as [|[k0 v0] d IH]; cbn.
  - destruct (key_eqb k k'); reflexivity.
  - destruct (key_eqb k0 k) eqn:E0; cbn.
    + apply key_eqb_eq in E0 as [-> _]. destruct (key_eqb k k'); reflexivity.
    + destruct (key_eqb k0 k') eqn:E1; [|exact IH].
      destruct (key_eqb k k') eqn:E2; [|reflexivity].
      apply key_eqb_eq in E1 as [-> _]. apply key_eqb_eq in E2 as [-> _].
      rewrite key_eqb_refl in E0 by exact Hk. discriminate.
Qed.

Lemma odict_set_new (d : list (pyobj * pyobj)) (k v : pyobj) :
  k ∉ map fst d -> odict_set d k v = (d ++ [(k, v)])%list.
Proof.
  induction d as [|[k0 v0] d IH]; intros Hk; [reflexivity|].
  cbn [map fst] in Hk. apply not_elem_of_cons in Hk as [Hne Hk].
  cbn [odict_set]. destruct (key_eqb k0 k) eqn:E.
  - apply key_eqb_eq in E as [-> _]. contradiction.
  - rewrite (IH Hk). reflexivity.
Qed.

(** [OrderedDict] of pairs with distinct keys keeps them as they come. *)
Lemma OrderedDict_distinct (items : list (pyobj * pyobj)) :
  NoDup (map fst items) -> OrderedDict items = items.
Proof.
  unfold OrderedDict.
  assert (forall acc, NoDup (map fst (acc ++ items)) ->
            fold_left (fun d kv => odict_set d (fst kv) (snd kv)) items acc
            = (acc ++ items)%list) as H.
  { induction items as [|[k v] items IH]; intros acc Hnd.
    - rewrite app_nil_r. reflexivity.
    - cbn [fold_left fst snd]. rewrite odict_set_new.
      + rewrite IH; rewrite <- app_assoc; [reflexivity | exact Hnd].
      + rewrite map_app in Hnd. apply NoDup_app in Hnd as (_ & Hdis & _).
        intros Hin. apply (Hdis k Hin). left. }
  intros Hnd. apply (H [] Hnd).
Qed.

(** [Record.__init__] checks a field name at its first character: a dict
    is taken exactly when every key is a string that starts with a letter
    or an underscore and every value is a [Schema], and then [_fields]
    holds its items in order; what follows the first character of a key
    is not looked at.  A dict that is refused raises [TypeError] in
    Python 2 and [AttributeError] in Python 3, where the handler reads
    [err.message]. *)
Theorem record_keys_checked_at_first_character (py2 : bool)
    (items : list (pyobj * pyobj)) :
  (Forall (fun kv => accepted_key (fst kv) /\ isinstance_Schema (snd kv) = true) items ->
     NoDup (map fst items) ->
     Record_init py2 (FieldsDict items) = Ok items) /\
  (~ Forall (fun kv => accepted_key (fst kv) /\ isinstance_Schema (snd kv) = true) items ->
     exists msg, Record_init py2 (FieldsDict items)
                 = Raise (if py2 then TypeError msg else AttributeError msg)) /\
  (forall (c : ascii) (rest : string) (id : nat),
     identifier_start c = true ->
     Record_init py2 (FieldsDict [(ObjStr (String c rest), ObjSchema id)])
     = Ok [(ObjStr (String c rest), ObjSchema id)]).
Proof.
  split; [|split].
  - intros Hall Hnd. unfold Record_init, Record__extend.
    rewrite (proj2 (Record_validate_Ok py2 items items) (conj eq_refl Hall)).
    cbn [bind app]. rewrite (OrderedDict_distinct items Hnd). reflexivity.
  - intros Hnot. unfold Record_init, Record__extend.
    destruct (Record_validate py2 items) as [trial|e] eqn:E.
    { apply Record_validate_Ok in E as [_ Hall]. contradiction. }
    cbn [bind]. clear Hnot. revert e E.
    induction items as [|[n x] items IH]; intros e E; [discriminate|].
    cbn [Record_validate] in E.
    destruct (match n with ObjStr name => _ | _ => false end).
    + destruct (isinstance_Schema x).
      * destruct (Record_validate py2 items) as [trial|e'] eqn:Ev; [discriminate|].
        cbn [bind] in E. inversion E; subst. apply IH. reflexivity.
      * inversion E. destruct py2; eexists; reflexivity.
    + inversion E. destruct py2; eexists; reflexivity.
  - intros c rest id Hc.
    assert (Forall (fun kv => accepted_key (fst kv) /\ isinstance_Schema (snd kv) = true)
                   [(ObjStr (String c rest), ObjSchema id)]) as Hall.
    { constructor; [|constructor]. split; [|reflexivity]. exists c, rest. auto. }
    unfold Record_init, Record__extend.
    rewrite (proj2 (Record_validate_Ok py2 _ _) (conj eq_refl Hall)). reflexivity.
Qed.

(** A key with a space in it is taken, a key that starts with a digit is
    refused. *)
Lemma record_keys_checked_at_first_character_witness :
  Record_init false
    (FieldsDict [(ObjStr "x y", ObjSchema 0);
                        (ObjStr "_", ObjSchema 1)])
  = Ok [(ObjStr "x y", ObjSchema 0); (ObjStr "_", ObjSchema 1)] /\
  exists msg, Record_init false
                (FieldsDict [(ObjStr "1x", ObjSchema 0)])
              = Raise (AttributeError msg).
Proof.
  split.
  - apply (proj1 (record_keys_checked_at_first_character false _)).
    + repeat (apply List.Forall_cons || apply List.Forall_nil);
        (split; [eexists _, _; split; reflexivity | reflexivity]).
    + cbn [map fst]. apply NoDup_cons_2; [|apply NoDup_singleton].
      intros H. apply list_elem_of_singleton in H. discriminate H.
  - apply (proj1 (proj2 (record_keys_checked_at_first_character false _))).
    intros H. apply List.Forall_inv in H. destruct H as [(c & rest & E & Hc) _].
    injection E as <- <-. discriminate Hc.
Defined.

(** [Record.__setitem__] checks the value and not the key: any hashable
    key is taken, the ones [__init__] refuses included; [__getitem__] then
    returns the value, a key that was there keeps its place, and the other
    fields are as they were. *)
Theorem record_setitem_takes_any_key (fields : list (pyobj * pyobj))
    (index value : pyobj) :
  hashable index = true -> isinstance_Schema value = true ->
  exists fields', Record_setitem fields index value = Ok fields' /\
    Record_getitem fields' index = Ok value /\
    (forall k, k <> index -> Record_getitem fields' k = Record_getitem fields k) /\
    map fst fields' = match odict_get fields index with
                      | Some _ => map fst fields
                      | None => (map fst fields ++ [index])%list
                      end.
Proof.
  intros Hh Hs. exists (odict_set fields index value).
  unfold Record_setitem, Record_getitem. rewrite Hs, Hh. cbn [negb].
  split; [reflexivity|]. split; [|split].
  - rewrite odict_get_set by exact Hh. rewrite key_eqb_refl by exact Hh. reflexivity.
  - intros k Hk. destruct (hashable k); cbn [negb]; [|reflexivity].
    rewrite odict_get_set by exact Hh.
    destruct (key_eqb index k) eqn:E; [|reflexivity].
    apply key_eqb_eq in E as [-> _]. contradiction.
  - induction fields as [|[k0 v0] fields IH]; [reflexivity|].
    cbn [odict_set odict_get]. destruct (key_eqb k0 index) eqn:E.
    + apply key_eqb_eq in E as [-> _]. reflexivity.
    + cbn [map fst]. rewrite IH. destruct (odict_get fields index); reflexivity.
Qed.

(** No [Pointer] can be made: the setter of [target], which [__init__]
    calls first, raises [TypeError] on a value that is not a [Schema] and
    [NameError] on one that is. *)
Theorem pointer_target_never_set (value : pyobj) :
  exists e, Pointer_set_target schema_globals value = Raise e /\
    (isinstance_Schema value = true -> e = NameError "target") /\
    (isinstance_Schema value = false -> exists msg, e = TypeError msg).
Proof.
  unfold Pointer_set_target. destruct (isinstance_Schema value); cbn [negb].
  - exists (NameError "target"). split; [reflexivity|]. split; [auto | discriminate].
  - eexists. split; [reflexivity|]. split; [discriminate | eauto].
Qed.

Lemma self_list_closed : closed self_list 1.
Proof.
  intros id Hid. destruct id as [|id]; [|lia]. cbn. constructor; [lia|constructor].
Qed.

Lemma labels_terminate_witness :
  closed self_list 1 /\
  exists labels, forall fuel, (1 < fuel)%nat -> labels_of fuel self_list 0 = Some (Ok labels).
Proof.
  split; [exact self_list_closed|].
  destruct (labels_terminate 1 self_list 0 self_list_closed ltac:(lia)) as (labels & _ & H).
  exists labels. exact H.
Defined.

Lemma record_setitem_takes_any_key_witness :
  exists fields', Record_setitem [] (ObjInt 5) (ObjSchema 0) = Ok fields' /\
    Record_getitem fields' (ObjInt 5) = Ok (ObjSchema 0).
Proof.
  destruct (record_setitem_takes_any_key [] (ObjInt 5) (ObjSchema 0) eq_refl eq_refl)
    as (fields' & Hset & Hget & _).
  exists fields'. split; [exact Hset | exact Hget].
Defined.


End SchemaFacts.

(** ** Datasets *)

Module DatasetFacts.
Import Schema Dataset.

(** [all_le] on two items and more. *)
Lemma all_le_cons (x y : Z) (l : list Z) :
  all_le (x :: y :: l) = (x <=? y) && all_le (y :: l).
Proof. reflexivity. Qed.

Lemma all_le_tail (x : Z) (l : list Z) : all_le (x :: l) = true -> all_le l = true.
Proof.
  destruct l as [|y l]; [reflexivity|].
  rewrite all_le_cons. intros H. apply andb_true_iff in H. tauto.
Qed.

(** In an increasing array no item is below the first. *)
Lemma all_le_head (l : list Z) : forall x y,
  all_le (x :: l) = true -> y ∈ l -> x <= y.
Proof.
  induction l as [|z l IH]; intros x y Hs Hy.
  - inversion Hy.
  - rewrite all_le_cons in Hs. apply andb_true_iff in Hs as [Hxz Hs].
    apply Z.leb_le in Hxz.
    apply elem_of_cons in Hy as [->|Hy]; [exact Hxz|].
    specialize (IH z y Hs Hy). lia.
Qed.

(** numpy's contract for [searchsorted(..., side="right")] on an
    increasing array: the positions before the result are those of the
    items that do not exceed [v]. *)
Lemma searchsorted_spec (offs : list Z) (v : Z) :
  all_le offs = true ->
  0 <= searchsorted offs v <= Z.of_nat (length offs) /\
  forall (i : nat) (x : Z), offs !! i = Some x ->
    (Z.of_nat i < searchsorted offs v <-> x <= v).
Proof.
  induction offs as [|x offs IH]; intros Hs.
  - simpl. split; [lia|]. intros i y Hi. rewrite lookup_nil in Hi. discriminate.
  - specialize (IH (all_le_tail _ _ Hs)). destruct IH as [Hr IH].
    cbn [searchsorted]. destruct (Z.leb_spec x v) as [Hxv|Hxv].
    + split; [cbn [length]; lia|].
      intros [|i] y Hi; cbn in Hi.
      * inversion Hi; subst. split; [intros _; exact Hxv | intros _; lia].
      * specialize (IH i y Hi). split; intros H.
        -- apply IH. lia.
        -- apply IH in H. lia.
    + split; [cbn [length]; lia|].
      intros [|i] y Hi; cbn in Hi.
      * inversion Hi; subst. lia.
      * assert (x <= y).
        { apply (all_le_head offs x y Hs). eapply list_elem_of_lookup_2. exact Hi. }
        lia.
Qed.


(** [numpy.all(a[:-1] <= a[1:])] says that neighbours are in order. *)
Lemma all_le_adjacent (offs : list Z) :
  all_le offs = true <->
  forall (i : nat) (a b : Z), offs !! i = Some a -> offs !! S i = Some b -> a <= b.
Proof.
  induction offs as [|x [|y l] IH].
  - split; [|reflexivity]. intros _ i a b H. rewrite lookup_nil in H. discriminate.
  - split; [|reflexivity]. intros _ [|i] a b H1 H2; cbn in *; discriminate.
  - rewrite all_le_cons, andb_true_iff, IH. split.
    + intros [Hxy Hl] [|i] a b H1 H2.
      * cbn in H1, H2. inversion H1; inversion H2; subst. apply Z.leb_le. exact Hxy.
      * apply (Hl i a b); assumption.
    + intros H. split.
      * apply Z.leb_le. apply (H 0%nat); reflexivity.
      * intros i a b H1 H2. apply (H (S i)); assumption.
Qed.

(** Reading an array at a position it has, and at [-1]. *)
Lemma ndarray_getitem_nat {T} (a : list T) (i : nat) (x : T) :
  a !! i = Some x -> ndarray_getitem a (Z.of_nat i) = Ok x.
Proof.
  intros H. unfold ndarray_getitem.
  pose proof (lookup_lt_Some _ _ _ H) as Hlt.
  destruct (Z.ltb_spec (Z.of_nat i) 0); [lia|].
  destruct (Z.leb_spec 0 (Z.of_nat i)); [|lia].
  destruct (Z.ltb_spec (Z.of_nat i) (Z.of_nat (length a))); [|lia].
  cbn. rewrite Nat2Z.id, H. reflexivity.
Qed.

Lemma ndarray_getitem_last {T} (a : list T) (x : T) :
  a !! (length a - 1)%nat = Some x -> ndarray_getitem a (-1) = Ok x.
Proof.
  intros H. unfold ndarray_getitem.
  pose proof (lookup_lt_Some _ _ _ H) as Hlt.
  destruct (Z.ltb_spec (-1) 0); [|lia].
  destruct (Z.leb_spec 0 (-1 + Z.of_nat (length a))); [|lia].
  destruct (Z.ltb_spec (-1 + Z.of_nat (length a)) (Z.of_nat (length a))); [|lia].
  cbn. replace (Z.to_nat (-1 + Z.of_nat (length a))) with (length a - 1)%nat by lia.
  rewrite H. reflexivity.
Qed.

(** [arrays] on a partition id in range: the partition's own id and its
    number of entries. *)
Lemma arrays_in_range (self : Dataset Z) (p : nat) (lo hi : Z) :
  _offsets self !! p = Some lo -> _offsets self !! S p = Some hi ->
  exists part, arrays self (Z.of_nat p) = Ok part /\
    _partitionid part = Some (Z.of_nat p) /\
    (exists ds, _dataset part = Some ds /\ _numentries ds = hi - lo) /\
    _backends part = _dbackends self /\ log part = [].
Proof.
  intros Hlo Hhi. unfold arrays, numpartitions.
  pose proof (lookup_lt_Some _ _ _ Hhi) as Hlt.
  assert ((0 <=? Z.of_nat p) = true) as E1 by (apply Z.leb_le; lia).
  assert ((Z.of_nat p <? Z.of_nat (length (_offsets self)) - 1) = true) as E2
    by (apply Z.ltb_lt; lia).
  rewrite E1, E1, E2. cbn [andb negb].
  replace (Z.of_nat p + 1) with (Z.of_nat (S p)) by lia.
  rewrite (ndarray_getitem_nat _ _ _ Hhi), (ndarray_getitem_nat _ _ _ Hlo).
  cbn. eexists. split; [reflexivity|]. cbn. eauto 6.
Qed.

(** The partition that owns an entry. *)
Lemma owner_of_entry (offs : list Z) (n v : Z) :
  valid_offsets offs -> offs !! (length offs - 1)%nat = Some n -> 0 <= v < n ->
  exists (p : nat) (lo hi : Z),
    searchsorted offs v - 1 = Z.of_nat p /\
    offs !! p = Some lo /\ offs !! S p = Some hi /\ lo <= v < hi /\
    forall (q : nat) (x : Z), offs !! q = Some x -> x <= v -> (q <= p)%nat.
Proof.
  intros (Hlen & H0 & Hadj) Hlast Hv.
  apply all_le_adjacent in Hadj.
  destruct (searchsorted_spec offs v Hadj) as [Hr Hk].
  assert (0 < searchsorted offs v) as Hpos by (apply (Hk 0%nat 0 H0); lia).
  assert (searchsorted offs v <= Z.of_nat (length offs - 1)) as Hup.
  { destruct (Z.le_gt_cases (searchsorted offs v) (Z.of_nat (length offs - 1))) as [|Hgt];
      [assumption|]. apply (Hk _ _ Hlast) in Hgt. lia. }
  set (p := Z.to_nat (searchsorted offs v - 1)).
  destruct (lookup_lt_is_Some_2 offs p) as [lo Hlo]; [lia|].
  destruct (lookup_lt_is_Some_2 offs (S p)) as [hi Hhi]; [lia|].
  exists p, lo, hi. repeat split; try assumption; try lia.
  - apply (Hk p lo Hlo). lia.
  - destruct (Z.lt_ge_cases v hi) as [|Hge]; [assumption|].
    apply Z.ge_le in Hge || idtac. apply (Hk (S p) hi Hhi) in Hge. lia.
  - intros q x Hq Hx. apply (Hk q x Hq) in Hx. lia.
Qed.

(** [numentries] is the last offset. *)
Lemma numentries_last (self : Dataset Z) :
  valid_offsets (_offsets self) ->
  exists n, _offsets self !! (length (_offsets self) - 1)%nat = Some n /\
            numentries self = Ok n.
Proof.
  intros (Hlen & _ & _).
  destruct (lookup_lt_is_Some_2 (_offsets self) (length (_offsets self) - 1)) as [n Hn];
    [lia|].
  exists n. split; [exact Hn|]. unfold numentries.
  rewrite (ndarray_getitem_last _ _ Hn). reflexivity.
Qed.

Section getitem_facts.

Variable slice2sss : option Z * option Z * option Z -> Z -> result (Z * Z * Z).

(** C3: on a dataset with valid offsets, an integer index [i] with
    [-numentries <= i < numentries] is normalised by adding [numentries]
    when negative, resolved to the rightmost partition [p] whose offset
    does not exceed it (so [offsets[p] <= n < offsets[p+1]]) and to the
    local index [n - offsets[p]], and handed to that partition's proxy; any
    other integer raises [IndexError]. *)
Theorem getitem_integer (self : Dataset Z) (index : pyval) (i : Z) :
  valid_offsets (_offsets self) ->
  integral index = Some i ->
  exists n, numentries self = Ok n /\
    (-n <= i < n ->
       let normindex := if 0 <=? i then i else i + n in
       exists (p : nat) (lo hi : Z) (part : DataArrays),
         _offsets self !! p = Some lo /\ _offsets self !! S p = Some hi /\
         lo <= normindex < hi /\
         (forall (q : nat) (x : Z),
            _offsets self !! q = Some x -> x <= normindex -> (q <= p)%nat) /\
         partition self (Z.of_nat p) = Ok part /\
         _partitionid part = Some (Z.of_nat p) /\
         getitem slice2sss self index = Ok (Entry part (normindex - lo))) /\
    (~ (-n <= i < n) ->
       getitem slice2sss self index = Raise (IndexError "index out of range")).
Proof.
  intros Hvalid Hint.
  destruct (numentries_last self Hvalid) as (n & Hlast & Hn).
  exists n. split; [exact Hn|]. split.
  - intros Hi normindex.
    assert (0 <= normindex < n) as Hnorm.
    { subst normindex. destruct (Z.leb_spec 0 i); lia. }
    destruct (owner_of_entry _ n normindex Hvalid Hlast Hnorm)
      as (p & lo & hi & Hp & Hlo & Hhi & Hbounds & Hright).
    destruct (arrays_in_range self p lo hi Hlo Hhi) as (part & Hpart & Hpid & _).
    exists p, lo, hi, part. repeat split; try assumption; try lia.
    unfold getitem. rewrite Hint, Hn. cbn [bind]. fold normindex.
    assert (((0 <=? normindex) && (normindex <? n)) = true) as ->.
    { apply andb_true_iff. split; [apply Z.leb_le | apply Z.ltb_lt]; lia. }
    cbn [negb]. rewrite Hp, (ndarray_getitem_nat _ _ _ Hlo). cbn [bind].
    unfold partition. rewrite Hpart. reflexivity.
  - intros Hi. unfold getitem. rewrite Hint, Hn. cbn [bind].
    assert (((0 <=? (if 0 <=? i then i else i + n))
             && ((if 0 <=? i then i else i + n) <? n)) = false) as ->.
    { apply andb_false_iff. destruct (Z.leb_spec 0 i).
      - right. apply Z.ltb_ge. lia.
      - left. apply Z.leb_gt. lia. }
    reflexivity.
Qed.

(** C10: an index that is neither an integer nor a slice makes
    [__getitem__] return [None]: no branch of the method takes it. *)
Theorem getitem_other (self : Dataset Z) (index : pyval) :
  integral index = None ->
  (forall start stop step, index <> PySlice start stop step) ->
  getitem slice2sss self index = Ok ReturnsNone.
Proof.
  intros Hint Hslice. unfold getitem. rewrite Hint.
  destruct index; try reflexivity. exfalso. eapply Hslice. reflexivity.
Qed.









End getitem_facts.


(** The three checks pass exactly on a one-dimensional array of two items
    or more whose first is zero and whose neighbours are in order. *)
Lemma check_offsets_ok {T} `{NumpyElem T} (a : ndarray T) (l : list T) :
  check_offsets a = Ok l <->
  l = items a /\ ndim a = 1%nat /\ (2 <= length (items a))%nat /\
  (exists x, items a !! 0%nat = Some x /\ np_ne0 x = false) /\
  all_le (items a) = true.
Proof.
  unfold check_offsets.
  destruct (Nat.eqb_spec (ndim a) 1) as [Hd|Hd]; cbn [negb].
  2:{ split; [discriminate|]. intros (_ & ? & _). contradiction. }
  destruct (Nat.ltb_spec (length (items a)) 2) as [Hl|Hl]; cbn [orb].
  { split; [discriminate|]. intros (_ & _ & ? & _). lia. }
  destruct (items a) as [|x rest] eqn:E; [cbn in Hl; lia|].
  destruct (np_ne0 x) eqn:Hx.
  { split; [discriminate|]. intros (_ & _ & _ & (y & Hy & Hne) & _).
    cbn in Hy. inversion Hy; subst. congruence. }
  destruct (all_le (x :: rest)) eqn:Hs; cbn [negb].
  - split.
    + intros Hok. inversion Hok. repeat split; try assumption. exists x. auto.
    + intros (-> & _). reflexivity.
  - split; [discriminate|]. intros (_ & _ & _ & _ & ?). discriminate.
Qed.

Lemma check_offsets_raises {T} `{NumpyElem T} (a : ndarray T) (e : exn) :
  check_offsets a = Raise e -> exists msg, e = ValueError msg.
Proof.
  unfold check_offsets. intros Hr.
  repeat match type of Hr with
         | (if ?c then _ else _) = _ => destruct c
         end; inversion Hr; eauto.
Qed.

(** What the arm for a Python object accepts: an iterable of non-negative
    integers that fit 64 bits. *)
Lemma from_iterable_ok (o : pyval) (a : ndarray Z) :
  from_iterable o = Ok a ->
  ndim a = 1%nat /\
  exists elts, iterate o = Some elts /\ mapM integral elts = Some (items a) /\
               Forall (fun n => 0 <= n < 2 ^ 63) (items a).
Proof.
  unfold from_iterable. destruct (iterate o) as [elts|]; [|discriminate].
  destruct (mapM integral_nonneg elts) as [ns|] eqn:Hm; [|discriminate].
  destruct (forallb (fun n => n <? 2 ^ 63) ns) eqn:Hf; [|discriminate].
  intros Hok. inversion Hok; subst a; clear Hok. cbn [ndim items].
  split; [reflexivity|]. exists elts. split; [reflexivity|].
  rewrite forallb_forall in Hf.
  apply mapM_Some in Hm.
  assert (forall x n, integral_nonneg x = Some n -> integral x = Some n /\ 0 <= n) as Hnn.
  { intros x n. unfold integral_nonneg. destruct (integral x) as [m|]; cbn; [|discriminate].
    destruct (Z.leb_spec 0 m); intros Hx; inversion Hx; subst; auto. }
  split.
  - apply mapM_Some. eapply Forall2_impl; [exact Hm|].
    intros x n Hx. apply (Hnn x n Hx).
  - apply Forall_forall. intros n Hin.
    destruct (proj1 (list_elem_of_lookup ns n) Hin) as [i Hi].
    destruct (Forall2_lookup_r _ _ _ _ _ Hm Hi) as (x & _ & Hx).
    split; [apply (Hnn x n Hx)|].
    apply Z.ltb_lt. apply Hf. apply list_elem_of_In. exact Hin.
Qed.

Lemma from_iterable_raises (o : pyval) (e : exn) :
  from_iterable o = Raise e -> (exists msg, e = TypeError msg) \/ e = OverflowError.
Proof.
  unfold from_iterable. intros Hr.
  repeat match type of Hr with
         | match ?c with _ => _ end = _ => destruct c
         end; inversion Hr; eauto.
Qed.

(** A [Dataset] that was constructed passed the checks of its arm. *)
Lemma init_ok {T} (ops : NumpyElem T) name schema ns backends
    (arg : offsets_arg T) prefix delimiter (d : Dataset T) :
  @init T ops name schema ns backends arg prefix delimiter = Ok d ->
  isinstance_List schema = true /\
  match arg in offsets_arg T0 return NumpyElem T0 -> list T0 -> Prop with
  | FromObject o => fun _ offs =>
      exists a, from_iterable o = Ok a /\ check_offsets (H := int64_elem) a = Ok offs
  | FromNdarray a => fun ops' offs => check_offsets (H := ops') a = Ok offs
  end ops (_offsets d).
Proof.
  unfold init. destruct (isinstance_List schema); cbn [negb]; [|discriminate].
  intros Hok. split; [reflexivity|].
  destruct arg as [o|T a].
  - destruct (from_iterable o) as [a|e] eqn:Ha; cbn [bind] in Hok; [|discriminate].
    destruct (check_offsets a) as [offs|e] eqn:Hc; cbn [bind] in Hok; [|discriminate].
    inversion Hok; subst d; cbn. eauto.
  - destruct (check_offsets a) as [offs|e] eqn:Hc; cbn [bind] in Hok; [|discriminate].
    inversion Hok; subst d; cbn. reflexivity.
Qed.

(** A [float64] array that passes the checks holds no NaN and nothing
    below zero. *)
Lemma float64_le_nonnegative (x y : float64) :
  nonnegative x -> float64_le x y = true -> nonnegative y.
Proof.
  destruct x as [a| | |], y as [b| | |]; cbn; try (intros; discriminate || exact I); try tauto.
  intros Ha Hab. apply Qle_bool_iff in Hab. eapply Qle_trans; eassumption.
Qed.

Lemma all_le_nonnegative (l : list float64) : forall x,
  nonnegative x -> all_le (x :: l) = true -> Forall nonnegative (x :: l).
Proof.
  induction l as [|y l IH]; intros x Hx Hle.
  - constructor; [exact Hx | constructor].
  - cbn [all_le np_le float64_elem] in Hle.
    apply andb_prop in Hle. destruct Hle as [Hxy Hrest].
    constructor; [exact Hx|]. apply IH; [|exact Hrest].
    exact (float64_le_nonnegative x y Hx Hxy).
Qed.

(** C9, amended.  An [offsets] that is not an ndarray is accepted only if
    it is an iterable of non-negative integers, of length at least two,
    first item zero, in non-decreasing order; then [numentries] is the last
    offset.  For an ndarray the items are not checked to be integers:
    it is accepted exactly when it is one-dimensional, of length at least
    two, its first item equal to zero and its neighbours in order.  A
    refused [offsets] raises [TypeError], [ValueError] or [OverflowError].
    On every constructed dataset [numpartitions] is [len(offsets) - 1] and
    [numentries] is [int(offsets[-1])], which may raise: on a [float64]
    array that was accepted the last offset is a finite value that is not
    negative, and [numentries] is that value rounded towards zero, or it
    is [inf], and [numentries] raises [OverflowError], as it does on
    [numpy.array([0.0, numpy.inf])]. *)
Theorem init_checks_offsets :
  (forall name schema ns backends o prefix delimiter (d : Dataset Z),
     init name schema ns backends (FromObject o) prefix delimiter = Ok d ->
     (exists elts, iterate o = Some elts /\ mapM integral elts = Some (_offsets d)) /\
     Forall (fun n => 0 <= n) (_offsets d) /\
     valid_offsets (_offsets d) /\
     exists n, _offsets d !! (length (_offsets d) - 1)%nat = Some n /\
               numentries d = Ok n)
  /\
  (forall T (ops : NumpyElem T) name schema ns backends (a : ndarray T)
          prefix delimiter,
     (exists d, @init T ops name schema ns backends (FromNdarray a) prefix delimiter
                = Ok d /\ _offsets d = items a)
     <-> (isinstance_List schema = true /\ ndim a = 1%nat /\
          (2 <= length (items a))%nat /\
          (exists x, items a !! 0%nat = Some x /\ np_ne0 x = false) /\
          all_le (items a) = true))
  /\
  (forall T (ops : NumpyElem T) name schema ns backends (arg : offsets_arg T)
          prefix delimiter e,
     @init T ops name schema ns backends arg prefix delimiter = Raise e ->
     (exists msg, e = TypeError msg) \/ (exists msg, e = ValueError msg)
     \/ e = OverflowError)
  /\
  (forall T (ops : NumpyElem T) name schema ns backends (arg : offsets_arg T)
          prefix delimiter (d : Dataset T),
     @init T ops name schema ns backends arg prefix delimiter = Ok d ->
     numpartitions d = Z.of_nat (length (_offsets d)) - 1 /\
     exists x, _offsets d !! (length (_offsets d) - 1)%nat = Some x /\
               numentries d = np_int x)
  /\
  (forall name schema ns backends (a : ndarray float64) prefix delimiter
          (d : Dataset float64),
     init name schema ns backends (FromNdarray a) prefix delimiter = Ok d ->
     exists x, _offsets d !! (length (_offsets d) - 1)%nat = Some x /\
       match x with
       | Finite q =>
           (0 <= q)%Q /\ numentries d = Ok (Z.quot (Qnum q) (Z.pos (Qden q)))
       | PosInf => numentries d = Raise OverflowError
       | NegInf | NaN => False
       end)
  /\
  (exists d : Dataset float64,
     init "d" entries "" [] (FromNdarray zero_and_inf) "object" "-" = Ok d /\
     _offsets d = [Finite (0 # 1); PosInf] /\
     numentries d = Raise OverflowError).
Proof.
  split; [|split; [|split; [|split; [|split]]]].
  - intros name schema ns backends o prefix delimiter d Hok.
    apply init_ok in Hok as [_ (a & Ha & Hc)].
    apply from_iterable_ok in Ha as (Hdim & elts & Hit & Hm & Hr).
    apply check_offsets_ok in Hc as (Hoffs & _ & Hlen & (x & Hx & Hz) & Hs).
    rewrite <- Hoffs in *.
    assert (valid_offsets (_offsets d)) as Hvalid.
    { split; [exact Hlen|]. split.
      - rewrite Hx. f_equal. cbn in Hz. apply negb_false_iff in Hz.
        apply Z.eqb_eq. exact Hz.
      - apply all_le_adjacent. exact Hs. }
    split; [eauto|]. split.
    + eapply Forall_impl; [exact Hr|]. cbn. intros; lia.
    + split; [exact Hvalid|]. apply numentries_last. exact Hvalid.
  - intros T ops name schema ns backends a prefix delimiter. split.
    + intros (d & Hok & _). apply init_ok in Hok as [Hl Hc].
      apply check_offsets_ok in Hc. tauto.
    + intros (Hl & Hrest). unfold init. rewrite Hl. cbn [negb].
      assert (check_offsets a = Ok (items a)) as -> by (apply check_offsets_ok; tauto).
      cbn [bind]. eexists. split; reflexivity.
  - intros T ops name schema ns backends arg prefix delimiter e. unfold init.
    destruct (isinstance_List schema); cbn [negb]; [|intros Hr; inversion Hr; eauto].
    destruct arg as [o|T a].
    + destruct (from_iterable o) as [a|e'] eqn:Ha; cbn [bind].
      * destruct (check_offsets a) as [offs|e'] eqn:Hc; cbn [bind]; [discriminate|].
        intros Hr; inversion Hr; subst e'. right. left.
        exact (check_offsets_raises _ _ Hc).
      * intros Hr; inversion Hr; subst e'.
        destruct (from_iterable_raises _ _ Ha); auto.
    + destruct (check_offsets a) as [offs|e'] eqn:Hc; cbn [bind]; [discriminate|].
      intros Hr; inversion Hr; subst e'. right. left.
      exact (check_offsets_raises _ _ Hc).
  - intros T ops name schema ns backends arg prefix delimiter d Hok.
    split; [reflexivity|].
    assert ((2 <= length (_offsets d))%nat) as Hlen.
    { apply init_ok in Hok as [_ Hc]. destruct arg as [o|T a].
      - destruct Hc as (a & _ & Hc). apply check_offsets_ok in Hc as (-> & _ & ? & _).
        assumption.
      - apply check_offsets_ok in Hc as (-> & _ & ? & _). assumption. }
    destruct (lookup_lt_is_Some_2 (_offsets d) (length (_offsets d) - 1)) as [x Hx];
      [lia|].
    exists x. split; [exact Hx|]. unfold numentries.
    rewrite (ndarray_getitem_last _ _ Hx). reflexivity.
  - intros name schema ns backends a prefix delimiter d Hok.
    apply init_ok in Hok as [_ Hc]. cbn beta iota in Hc.
    apply check_offsets_ok in Hc as (Hoffs & _ & Hlen & (x0 & Hx0 & Hz) & Hs).
    rewrite <- Hoffs in *.
    destruct (_offsets d) as [|y l] eqn:E; [cbn in Hlen; lia|].
    cbn in Hx0. injection Hx0 as <-.
    assert (nonnegative y) as Hy.
    { destruct y as [q| | |]; cbn in Hz; try discriminate Hz. cbn.
      apply negb_false_iff in Hz. apply Qeq_bool_iff in Hz. rewrite Hz.
      apply Qle_refl. }
    pose proof (all_le_nonnegative l y Hy Hs) as Hall.
    destruct (lookup_lt_is_Some_2 (y :: l) (length (y :: l) - 1)) as [x Hx];
      [cbn [length]; lia|].
    exists x. split; [exact Hx|].
    pose proof (Forall_lookup_1 _ _ _ _ Hall Hx) as Hxn.
    assert (numentries d = np_int x) as Hnum.
    { unfold numentries. rewrite E, (ndarray_getitem_last _ _ Hx). reflexivity. }
    destruct x as [q| | |]; cbn in Hxn; try contradiction.
    + split; [exact Hxn|]. rewrite Hnum. reflexivity.
    + rewrite Hnum. reflexivity.
  - eexists. split; [reflexivity|]. split; reflexivity.
Qed.



(** C9 fails as stated: the ndarray [[0.0, 0.5]] is accepted, its items
    are not all integers, and [numentries] is [0], not [offsets[-1]]. *)
Lemma init_accepts_fractions :
  exists d : Dataset float64,
    init "d" entries "" [] (FromNdarray halves) "object" "-" = Ok d /\
    _offsets d = [Finite (0 # 1); Finite (1 # 2)] /\
    ~ (exists n : Z, Qeq (1 # 2) (inject_Z n)) /\
    numentries d = Ok 0.
Proof.
  eexists. split; [reflexivity|]. split; [reflexivity|]. split; [|reflexivity].
  intros [n Hn]. unfold Qeq in Hn. cbn in Hn. lia.
Qed.

(** The offsets [[0, 3, 7, 10]] are valid. *)
Lemma three_partitions_valid (backends : list (string * backend)) :
  valid_offsets (_offsets (three_partitions backends)).
Proof.
  split; [cbn; lia|]. split; [reflexivity|].
  apply all_le_adjacent. reflexivity.
Qed.

(** C3 at [dataset[5]] and [dataset[-10]] on offsets [[0, 3, 7, 10]]: entry
    2 of partition 1, and entry 0 of partition 0. *)
Lemma getitem_integer_witness :
  valid_offsets (_offsets (three_partitions [])) /\
  integral (PyInt 5) = Some 5 /\
  exists part : DataArrays,
    getitem given_sss (three_partitions []) (PyInt 5) = Ok (Entry part 2) /\
    _partitionid part = Some 1.
Proof.
  split; [apply three_partitions_valid|]. split; [reflexivity|].
  destruct (getitem_integer given_sss (three_partitions []) (PyInt 5) 5
              (three_partitions_valid []) eq_refl) as (n & Hn & Hin & _).
  cbn in Hn. inversion Hn; subst n.
  destruct (Hin ltac:(lia)) as (p & lo & hi & part & Hlo & Hhi & Hb & _ & _ & Hpid & Hget).
  cbn in Hb.
  destruct p as [|[|[|[|p]]]]; cbn in Hlo, Hhi;
    inversion Hlo; inversion Hhi; subst; try lia.
  exists part. split; [exact Hget | exact Hpid].
Defined.

(** C10 at [dataset["a"]]. *)
Lemma getitem_other_witness :
  integral (PyStr "a") = None /\
  (forall start stop step, PyStr "a" <> PySlice start stop step) /\
  getitem given_sss (three_partitions []) (PyStr "a") = Ok ReturnsNone.
Proof.
  split; [reflexivity|]. split; [discriminate|].
  apply (getitem_other given_sss (three_partitions []) (PyStr "a")).
  - reflexivity.
  - discriminate.
Defined.


(** C9, amended, at [offsets=[0, 3, 7, 10]]. *)
Lemma init_checks_offsets_witness :
  exists d : Dataset Z,
    init "d" entries "" [] (FromObject (PyList [PyInt 0; PyInt 3; PyInt 7; PyInt 10]))
         "object" "-" = Ok d /\
    valid_offsets (_offsets d) /\ numentries d = Ok 10.
Proof.
  eexists. split; [reflexivity|].
  destruct (proj1 init_checks_offsets "d" entries "" []
              (PyList [PyInt 0; PyInt 3; PyInt 7; PyInt 10]) "object" "-" _ eq_refl)
    as (_ & _ & Hvalid & n & Hn & Hnum).
  split; [exact Hvalid|]. cbn in Hn. inversion Hn; subst n. exact Hnum.
Defined.

(** C8 (the two boundary roles are answered without any backend): the
    code breaks it for a backend whose [instantiate] returns a mapping
    without [getall].  That branch of [getall] loops over [roles], not over
    [filtered]: it reads the boundary roles from the backend and writes
    the arrays it finds over the ones [_toplevel] had put in [out]. *)
Theorem mapping_backend_reads_boundary_roles :
  exists (part : DataArrays) (out : dict) (part' : DataArrays),
    arrays (three_partitions [("", mapping_backend)]) 1 = Ok part /\
    getall part [starts_role; stops_role; data_role] = Ok (out, part') /\
    dict_get out starts_role = Some [0; 3; 7] /\
    dict_get out stops_role = Some [3; 7; 10] /\
    log part' = [Instantiate "" (Some 1); GetItem "" "object-B";
                 GetItem "" "object-E"; GetItem "" "object-C"].
Proof.
  eexists _, _, _. split; [reflexivity|]. split; [vm_compute; reflexivity|].
  repeat split.
Qed.

(** The branch for a backend with [getall] does what C8 says: the boundary
    roles are bound to [[0]] and to the partition's number of entries, and
    the backend is asked for the data role alone. *)
Lemma provider_backend_gets_virtual_boundaries :
  exists (part : DataArrays) (out : dict) (part' : DataArrays),
    arrays (three_partitions [("", provider_backend)]) 1 = Ok part /\
    getall part [starts_role; stops_role; data_role] = Ok (out, part') /\
    dict_get out starts_role = Some [0] /\
    dict_get out stops_role = Some [4] /\
    dict_get out data_role = Some [10; 20; 30; 40] /\
    log part' = [Instantiate "" (Some 1); GetAll "" [data_role]].
Proof.
  eexists _, _, _. split; [reflexivity|]. split; [vm_compute; reflexivity|].
  repeat split.
Qed.

(** *** Partitions and their entries *)

(** Offsets in order are in order at any distance. *)
Lemma offsets_monotone (offs : list Z) (i j : nat) (x y : Z) :
  all_le offs = true -> (i <= j)%nat ->
  offs !! i = Some x -> offs !! j = Some y -> x <= y.
Proof.
  intros Hs' Hij Hx. pose proof (proj1 (all_le_adjacent offs) Hs') as Hs. revert y.
  induction Hij as [|j Hij IH]; intros y Hy.
  - rewrite Hx in Hy. inversion Hy. lia.
  - destruct (lookup_lt_is_Some_2 offs j) as [z Hz].
    { apply lookup_lt_Some in Hy. lia. }
    specialize (IH z Hz). specialize (Hs j z y Hz Hy). lia.
Qed.

(** The partition of an entry is the one whose bounds enclose it. *)
Lemma searchsorted_between (offs : list Z) (p : nat) (lo hi v : Z) :
  all_le offs = true ->
  offs !! p = Some lo -> offs !! S p = Some hi -> lo <= v < hi ->
  searchsorted offs v - 1 = Z.of_nat p.
Proof.
  intros Hs Hlo Hhi Hv.
  destruct (searchsorted_spec offs v Hs) as [_ Hk].
  pose proof (proj2 (Hk p lo Hlo) ltac:(lia)).
  pose proof (Hk (S p) hi Hhi) as [H1 _].
  destruct (Z.lt_ge_cases (Z.of_nat (S p)) (searchsorted offs v)) as [Hlt|Hge]; [|lia].
  specialize (H1 Hlt). lia.
Qed.

Section partition_entries.
Variable slice2sss : option Z * option Z * option Z -> Z -> result (Z * Z * Z).

(** Entry [j] of partition [p] is entry [offsets[p] + j] of the dataset,
    and entry [offsets[p] + j - numentries] counted from the end. *)
Lemma getitem_of_partition_entry (self : Dataset Z) (p : nat) (lo hi j : Z) :
  valid_offsets (_offsets self) ->
  _offsets self !! p = Some lo -> _offsets self !! S p = Some hi ->
  0 <= j < hi - lo ->
  exists (part : DataArrays) (n : Z),
    partition self (Z.of_nat p) = Ok part /\ numentries self = Ok n /\
    getitem slice2sss self (PyInt (lo + j)) = Ok (Entry part j) /\
    getitem slice2sss self (PyInt (lo + j - n)) = Ok (Entry part j).
Proof.
  intros Hvalid Hlo Hhi Hj.
  destruct (numentries_last self Hvalid) as (n & Hlast & Hn).
  pose proof Hvalid as (Hlen & H0 & Hadj).
  pose proof (proj2 (all_le_adjacent _) Hadj) as Hs.
  destruct (arrays_in_range self p lo hi Hlo Hhi) as (part & Hpart & _).
  assert (0 <= lo) as Hlo0.
  { apply (offsets_monotone _ 0 p 0 lo Hs); [lia | exact H0 | exact Hlo]. }
  assert (hi <= n) as Hhin.
  { apply (offsets_monotone _ (S p) (length (_offsets self) - 1) hi n Hs);
      [apply lookup_lt_Some in Hhi; lia | exact Hhi | exact Hlast]. }
  pose proof (searchsorted_between _ p lo hi (lo + j) Hs Hlo Hhi ltac:(lia)) as Hp.
  exists part, n. split; [exact Hpart|]. split; [exact Hn|].
  assert (forall i, (if 0 <=? i then i else i + n) = lo + j ->
            getitem slice2sss self (PyInt i) = Ok (Entry part j)) as Hrun.
  { intros i Hi. unfold getitem. cbn [integral]. rewrite Hn. cbn [bind]. rewrite Hi.
    assert (((0 <=? lo + j) && (lo + j <? n)) = true) as ->.
    { apply andb_true_iff. split; [apply Z.leb_le | apply Z.ltb_lt]; lia. }
    cbn [negb]. rewrite Hp, (ndarray_getitem_nat _ _ _ Hlo). cbn [bind].
    unfold partition in *. rewrite Hpart. cbn [bind]. do 2 f_equal. lia. }
  split; apply Hrun.
  - destruct (Z.leb_spec 0 (lo + j)); lia.
  - destruct (Z.leb_spec 0 (lo + j - n)); lia.
Qed.

End partition_entries.

(** [arrays] accepts the partition ids from [-numpartitions] to
    [numpartitions - 1]. *)
Lemma arrays_spec (self : Dataset Z) (partitionid : Z) :
  valid_offsets (_offsets self) ->
  let k := numpartitions self in
  (-k <= partitionid < k ->
     exists (part : DataArrays) (ds : DatasetPart) (lo hi : Z),
       arrays self partitionid = Ok part /\
       arrays self (partitionid mod k) = Ok part /\
       _offsets self !! Z.to_nat (partitionid mod k) = Some lo /\
       _offsets self !! S (Z.to_nat (partitionid mod k)) = Some hi /\
       _partitionid part = Some (partitionid mod k) /\
       _dataset part = Some ds /\ _numentries ds = hi - lo /\ 0 <= hi - lo /\
       _backends part = _dbackends self /\ _active part = ∅) /\
  (~ (-k <= partitionid < k) ->
     arrays self partitionid = Raise (IndexError "partitionid out of range")).
Proof.
  intros Hvalid k. pose proof Hvalid as (Hlen & H0 & Hadj).
  assert (k = Z.of_nat (length (_offsets self)) - 1) as Hk by reflexivity.
  split.
  - intros Hin.
    set (q := partitionid mod k).
    assert (0 <= q < k) as Hq by (apply Z.mod_pos_bound; lia).
    assert ((if 0 <=? partitionid then partitionid else partitionid + k) = q) as Hnorm.
    { subst q. destruct (Z.leb_spec 0 partitionid).
      - symmetry. apply Z.mod_small. lia.
      - apply (Z.mod_unique_pos _ _ (-1)); lia. }
    destruct (lookup_lt_is_Some_2 (_offsets self) (Z.to_nat q)) as [lo Hlo]; [lia|].
    destruct (lookup_lt_is_Some_2 (_offsets self) (S (Z.to_nat q))) as [hi Hhi]; [lia|].
    assert (forall i, (if 0 <=? i then i else i + k) = q ->
              arrays self i
              = Ok {| _backends := _dbackends self; _active := ∅;
                      _partitionid := Some q;
                      _dataset := Some
                        {| _startsrole :=
                             {| kind := StartsRole;
                                array_name := get_starts (_schema self) (_prefix self)
                                                (_delimiter self);
                                namespace := _namespace self |};
                           _stopsrole :=
                             {| kind := StopsRole;
                                array_name := get_stops (_schema self) (_prefix self)
                                                (_delimiter self);
                                namespace := _namespace self |};
                           _numentries := hi - lo |};
                      log := [] |}) as Hrun.
    { intros i Hi. unfold arrays. fold k. rewrite Hi.
      assert (((0 <=? q) && (q <? k)) = true) as ->.
      { apply andb_true_iff. split; [apply Z.leb_le | apply Z.ltb_lt]; lia. }
      cbn [negb].
      pose proof (ndarray_getitem_nat _ _ _ Hhi) as Ehi.
      pose proof (ndarray_getitem_nat _ _ _ Hlo) as Elo.
      replace (Z.of_nat (S (Z.to_nat q))) with (q + 1) in Ehi by lia.
      replace (Z.of_nat (Z.to_nat q)) with q in Elo by lia.
      rewrite Ehi, Elo. reflexivity. }
    eexists _, _, lo, hi. split; [apply Hrun; exact Hnorm|].
    split.
    { apply Hrun. destruct (Z.leb_spec 0 q); lia. }
    split; [exact Hlo|]. split; [exact Hhi|]. cbn.
    repeat split. specialize (Hadj _ _ _ Hlo Hhi). lia.
  - intros Hout. unfold arrays. fold k.
    assert (((0 <=? (if 0 <=? partitionid then partitionid else partitionid + k))
             && ((if 0 <=? partitionid then partitionid else partitionid + k) <? k))
            = false) as ->; [|reflexivity].
    apply andb_false_iff. destruct (Z.leb_spec 0 partitionid).
    + right. apply Z.ltb_ge. lia.
    + left. apply Z.leb_gt. lia.
Qed.

(** The differences of neighbours add up to the last item less the first. *)
Lemma telescope (l : list Z) : forall x n : Z,
  (x :: l) !! length l = Some n ->
  fold_right Z.add 0 (zip_with Z.sub l (x :: l)) = n - x.
Proof.
  induction l as [|y l IH]; intros x n Hn.
  - cbn in Hn. inversion Hn. cbn. lia.
  - cbn [zip_with fold_right]. cbn in Hn. rewrite (IH y n Hn). lia.
Qed.

Lemma lookup_removelast {A} (l : list A) (i : nat) :
  (S i < length l)%nat -> removelast l !! i = l !! i.
Proof.
  intros Hi. rewrite removelast_firstn_len.
  change (@firstn A) with (@take A). apply lookup_take_lt. lia.
Qed.

(** The entries of the partitions add up to the entries of the dataset. *)
Lemma partition_sizes_sum (self : Dataset Z) :
  valid_offsets (_offsets self) ->
  exists (sizes : list Z) (n : Z),
    numentries self = Ok n /\
    Forall2 (fun (p : nat) (size : Z) =>
               0 <= size /\
               exists part ds, arrays self (Z.of_nat p) = Ok part /\
                 _dataset part = Some ds /\ _numentries ds = size)
            (seq 0 (Z.to_nat (numpartitions self))) sizes /\
    fold_right Z.add 0 sizes = n.
Proof.
  intros Hvalid. pose proof Hvalid as (Hlen & H0 & Hadj).
  destruct (numentries_last self Hvalid) as (n & Hlast & Hn).
  exists (zip_with Z.sub (tail (_offsets self)) (_offsets self)), n.
  split; [exact Hn|]. split.
  - apply Forall2_same_length_lookup_2.
    + rewrite length_seq, length_zip_with, length_tl. unfold numpartitions. lia.
    + intros i p size Hp Hsize.
      apply lookup_seq in Hp as [-> Hi]. cbn [Nat.add].
      apply lookup_zip_with_Some in Hsize as (hi & lo & -> & Hhi & Hlo).
      rewrite lookup_tail in Hhi.
      split; [specialize (Hadj _ _ _ Hlo Hhi); lia|].
      destruct (arrays_in_range self i lo hi Hlo Hhi)
        as (part & Hpart & _ & (ds & Hds & Hsize) & _).
      exists part, ds. auto.
  - destruct (_offsets self) as [|x l] eqn:E; [cbn in Hlen; lia|].
    cbn [tail]. cbn [length] in Hlast.
    replace (S (length l) - 1)%nat with (length l) in Hlast by lia.
    rewrite (telescope l x n Hlast). cbn in H0. inversion H0. lia.
Qed.

(** [starts] and [stops] are the bounds of the partitions: partition [p]
    runs from [starts[p]] to [stops[p]], the first starts at zero, each
    starts where the one before it stops, and the last stops at
    [numentries].  [partitions], which would pair them, raises
    [AttributeError]: it reads [self.start] and [self.stop]. *)
Lemma starts_stops_spec (self : Dataset Z) :
  valid_offsets (_offsets self) ->
  Z.of_nat (length (starts self)) = numpartitions self /\
  Z.of_nat (length (stops self)) = numpartitions self /\
  starts self !! 0%nat = Some 0 /\
  (exists n, numentries self = Ok n /\
             stops self !! (length (stops self) - 1)%nat = Some n) /\
  (forall p : nat, Z.of_nat p < numpartitions self ->
     exists lo hi part ds,
       starts self !! p = Some lo /\ stops self !! p = Some hi /\ lo <= hi /\
       arrays self (Z.of_nat p) = Ok part /\
       _dataset part = Some ds /\ _numentries ds = hi - lo /\
       (Z.of_nat (S p) < numpartitions self -> starts self !! S p = Some hi)) /\
  partitions self = Raise (AttributeError "'Dataset' object has no attribute 'start'").
Proof.
  intros Hvalid. pose proof Hvalid as (Hlen & H0 & Hadj).
  destruct (numentries_last self Hvalid) as (n & Hlast & Hn).
  unfold starts, stops, numpartitions.
  rewrite removelast_firstn_len, length_firstn, length_tl.
  split; [lia|]. split; [lia|]. split.
  { change (@firstn Z) with (@take Z). rewrite lookup_take_lt by lia. exact H0. }
  split.
  { exists n. split; [exact Hn|]. rewrite lookup_tail.
    replace (S (length (_offsets self) - 1 - 1)) with (length (_offsets self) - 1)%nat
      by lia. exact Hlast. }
  split; [|reflexivity].
  intros p Hp.
  destruct (lookup_lt_is_Some_2 (_offsets self) p) as [lo Hlo]; [lia|].
  destruct (lookup_lt_is_Some_2 (_offsets self) (S p)) as [hi Hhi]; [lia|].
  destruct (arrays_in_range self p lo hi Hlo Hhi)
    as (part & Hpart & _ & (ds & Hds & Hsize) & _).
  exists lo, hi, part, ds. change (@firstn Z) with (@take Z).
  split; [rewrite lookup_take_lt by lia; exact Hlo|].
  split; [rewrite lookup_tail; exact Hhi|].
  split; [exact (Hadj _ _ _ Hlo Hhi)|].
  split; [exact Hpart|]. split; [exact Hds|]. split; [exact Hsize|].
  intros Hnext. rewrite lookup_take_lt by lia. exact Hhi.
Qed.

Lemma getitem_of_partition_entry_witness :
  valid_offsets (_offsets (three_partitions [])) /\
  exists (part : DataArrays),
    partition (three_partitions []) 1 = Ok part /\
    getitem given_sss (three_partitions []) (PyInt 5) = Ok (Entry part 2) /\
    getitem given_sss (three_partitions []) (PyInt (-5)) = Ok (Entry part 2).
Proof.
  split; [apply three_partitions_valid|].
  destruct (getitem_of_partition_entry given_sss (three_partitions []) 1 3 7 2
              (three_partitions_valid []) eq_refl eq_refl ltac:(lia))
    as (part & n & Hpart & Hn & Hpos & Hneg).
  cbn in Hn. inversion Hn; subst n.
  exists part. split; [exact Hpart|]. split; [exact Hpos | exact Hneg].
Defined.

Lemma arrays_spec_witness :
  valid_offsets (_offsets (three_partitions [])) /\
  exists part, arrays (three_partitions []) (-1) = Ok part /\
    arrays (three_partitions []) 2 = Ok part /\
  arrays (three_partitions []) 3 = Raise (IndexError "partitionid out of range").
Proof.
  split; [apply three_partitions_valid|].
  destruct (proj1 (arrays_spec (three_partitions []) (-1) (three_partitions_valid []))
              ltac:(unfold numpartitions; cbn; lia))
    as (part & ds & lo & hi & H1 & H2 & _).
  exists part. split; [exact H1|]. split; [exact H2|].
  apply (proj2 (arrays_spec (three_partitions []) 3 (three_partitions_valid []))).
  unfold numpartitions. cbn. lia.
Defined.

Lemma partition_sizes_sum_witness :
  valid_offsets (_offsets (three_partitions [])) /\
  exists sizes : list Z, length sizes = 3%nat /\ fold_right Z.add 0 sizes = 10.
Proof.
  split; [apply three_partitions_valid|].
  destruct (partition_sizes_sum (three_partitions []) (three_partitions_valid []))
    as (sizes & n & Hn & Hall & Hsum).
  cbn in Hn. injection Hn as <-.
  exists sizes. split; [|exact Hsum].
  apply Forall2_length in Hall. rewrite <- Hall. reflexivity.
Defined.

Lemma starts_stops_spec_witness :
  valid_offsets (_offsets (three_partitions [])) /\
  starts (three_partitions []) = [0; 3; 7] /\ stops (three_partitions []) = [3; 7; 10] /\
  Z.of_nat (length (starts (three_partitions []))) = numpartitions (three_partitions []).
Proof.
  split; [apply three_partitions_valid|]. split; [reflexivity|]. split; [reflexivity|].
  apply (starts_stops_spec (three_partitions []) (three_partitions_valid [])).
Defined.

(** *** What [getall] asks of the backends *)

Lemma getall_fold_raise (roles : list Role) (bs : list (string * backend)) (e : exn) :
  fold_left (fun st nb => st <- st ;; getall_step roles st nb) bs (Raise e) = Raise e.
Proof. induction bs as [|nb bs IH]; [reflexivity|]. cbn. exact IH. Qed.

(** A relation between the object before and after that each step of the
    loop keeps, and that is reflexive and transitive, holds of [getall]. *)
Lemma getall_fold_ind (R : dict * DataArrays -> dict * DataArrays -> Prop)
    (roles : list Role) :
  (forall st, R st st) ->
  (forall a b c, R a b -> R b c -> R a c) ->
  forall bs : list (string * backend),
  (forall st nb st', nb ∈ bs -> getall_step roles st nb = Ok st' -> R st st') ->
  forall st st',
    fold_left (fun st nb => st <- st ;; getall_step roles st nb) bs (Ok st) = Ok st' ->
    R st st'.
Proof.
  intros Hrefl Htrans bs. induction bs as [|nb bs IH]; intros Hstep st st' Hrun.
  - cbn in Hrun. inversion Hrun. apply Hrefl.
  - cbn in Hrun. destruct (getall_step roles st nb) as [st1|e] eqn:E.
    + apply (Htrans _ st1).
      * apply (Hstep st nb st1); [left | exact E].
      * apply IH; [|exact Hrun]. intros st0 nb0 st0' Hin. apply Hstep. right. exact Hin.
    + rewrite getall_fold_raise in Hrun. discriminate.
Qed.

Lemma index_of_None (l : list Role) (x : Role) : index_of l x = None <-> x ∉ l.
Proof.
  induction l as [|y l IH]; cbn.
  - split; [intros _; apply not_elem_of_nil | reflexivity].
  - destruct (decide (y = x)) as [->|Hne].
    + split; [discriminate|]. intros H. exfalso. apply H. left.
    + rewrite not_elem_of_cons, <- IH. destruct (index_of l x); cbn.
      * split; [discriminate|]. intros [_ ?]. discriminate.
      * split; auto.
Qed.

Lemma index_of_Some (l : list Role) (x : Role) (i : nat) :
  index_of l x = Some i -> l !! i = Some x.
Proof.
  revert i. induction l as [|y l IH]; intros i; cbn; [discriminate|].
  destruct (decide (y = x)) as [->|Hne].
  - intros H. inversion H. reflexivity.
  - destruct (index_of l x) as [j|]; cbn; [|discriminate].
    intros H. inversion H. cbn. apply IH. reflexivity.
Qed.

(** [del l[l.index(x)]] on a list without repetition takes [x] out. *)
Lemma delete_index_of (l : list Role) (x : Role) (i : nat) :
  NoDup l -> index_of l x = Some i -> delete i l = filter (fun r => r <> x) l.
Proof.
  revert i. induction l as [|y l IH]; intros i Hnd Hi; cbn [index_of] in Hi;
    [discriminate|].
  apply NoDup_cons in Hnd as [Hy Hnd].
  destruct (decide (y = x)) as [->|Hne].
  - inversion Hi. change (delete 0%nat (x :: l)) with l.
    rewrite filter_cons_False by (intros H'; apply H'; reflexivity).
    symmetry. clear -Hy. induction l as [|z l IH]; [reflexivity|].
    apply not_elem_of_cons in Hy as [Hz Hy].
    rewrite filter_cons_True by congruence. f_equal. apply IH. exact Hy.
  - destruct (index_of l x) as [j|] eqn:E; cbn [fmap option_fmap option_map] in Hi;
      [|discriminate].
    inversion Hi. change (delete (S j) (y :: l)) with (y :: delete j l).
    rewrite filter_cons_True by exact Hne.
    f_equal. apply IH; [exact Hnd | reflexivity].
Qed.

Lemma filter_not_in (l : list Role) (x : Role) :
  x ∉ l -> filter (fun r => r <> x) l = l.
Proof.
  induction l as [|z l IH]; intros Hx; [reflexivity|].
  apply not_elem_of_cons in Hx as [Hz Hx].
  rewrite filter_cons_True by congruence. f_equal. apply IH. exact Hx.
Qed.

Lemma dict_get_set (d : dict) (k k' : Role) (v : array) :
  dict_get (dict_set d k v) k' = if decide (k = k') then Some v else dict_get d k'.
Proof.
  induction d as [|[k0 v0] d IH]; cbn.
  - destruct (decide (k = k')); reflexivity.
  - destruct (decide (k0 = k)) as [->|Hne]; cbn.
    + destruct (decide (k = k')); reflexivity.
    + destruct (decide (k0 = k')) as [->|Hne'].
      * destruct (decide (k = k')); [congruence | reflexivity].
      * exact IH.
Qed.

Lemma dict_get_update_other (pairs : list (Role * array)) : forall (d : dict) (k : Role),
  (forall a, (k, a) ∉ pairs) -> dict_get (dict_update d pairs) k = dict_get d k.
Proof.
  unfold dict_update.
  induction pairs as [|[k0 v0] pairs IH]; intros d k Hk; [reflexivity|].
  cbn. rewrite IH.
  - rewrite dict_get_set. destruct (decide (k0 = k)) as [->|]; [|reflexivity].
    exfalso. apply (Hk v0). left.
  - intros a Ha. apply (Hk a). right. exact Ha.
Qed.

Lemma dict_get_update_Some (pairs : list (Role * array)) : forall (d : dict) (k : Role) (v : array),
  dict_get (dict_update d pairs) k = Some v ->
  (k, v) ∈ pairs \/ dict_get d k = Some v.
Proof.
  unfold dict_update.
  induction pairs as [|[k0 v0] pairs IH]; intros d k v Hk; [right; exact Hk|].
  cbn in Hk. apply IH in Hk as [Hin|Hk].
  - left. right. exact Hin.
  - rewrite dict_get_set in Hk. destruct (decide (k0 = k)) as [->|].
    + inversion Hk. left. left.
    + right. exact Hk.
Qed.

(** What [_toplevel] leaves in [filtered] was in it. *)
Lemma toplevel_subseteq (self : DataArrays) (out out1 : dict) (f f1 : list Role) :
  toplevel self out f = (out1, f1) -> forall r, r ∈ f1 -> r ∈ f.
Proof.
  unfold toplevel. destruct (_dataset self) as [ds|].
  2:{ intros H; inversion H; auto. }
  destruct (index_of f (_startsrole ds)) as [i|];
    [destruct (index_of (delete i f) (_stopsrole ds)) as [j|]
    |destruct (index_of f (_stopsrole ds)) as [j|]];
    intros H r Hr; inversion H; subst; eauto using list_elem_of_delete_inv.
Qed.

Lemma read_each_extends (ns : string) (content : gmap string array) :
  forall (roles : list Role) (out : dict) (self : DataArrays) (st' : dict * DataArrays),
  read_each ns content roles (out, self) = Ok st' ->
  extends self (snd st') (map (fun r => GetItem ns (array_name r)) roles) /\
  _active (snd st') = _active self.
Proof.
  induction roles as [|x roles IH]; intros out self st' Hrun.
  - cbn in Hrun. inversion Hrun. cbn. unfold extends. rewrite app_nil_r. auto.
  - cbn [read_each] in Hrun. destruct (content !! array_name x) as [a|]; [|discriminate].
    apply IH in Hrun as [(Hb & Hp & Hd & Hl) Ha]. cbn in *.
    split; [|exact Ha]. unfold extends. rewrite Hb, Hp, Hd, Hl.
    rewrite <- app_assoc. auto.
Qed.

(** One turn of the loop of [getall]: the backend is instantiated if a role
    is left for it and it is not active yet, then it is read. *)
Lemma getall_step_shape (roles : list Role) (out : dict) (self : DataArrays)
    (ns : string) (b : backend) (st' : dict * DataArrays) :
  getall_step roles (out, self) (ns, b) = Ok st' ->
  exists pre reads : list event,
    extends self (snd st') (pre ++ reads)%list /\
    (forall e, e ∈ reads -> event_namespace e = ns /\ instantiated [e] = []) /\
    ((pre = [] /\ _active (snd st') = _active self /\
      (reads = [] \/ active_in self ns <> None)) \/
     (pre = [Instantiate ns (_partitionid self)] /\ active_in self ns = None /\
      _active (snd st') = <[ns := Some (b (_partitionid self))]> (_active self))) /\
    ((pre ++ reads)%list <> [] -> exists r, r ∈ roles /\ namespace r = ns).
Proof.
  unfold getall_step.
  destruct (toplevel self out (filter (fun x => namespace x = ns) roles))
    as [out1 filtered] eqn:Etop.
  destruct filtered as [|r0 filtered].
  { cbn. intros H; inversion H; subst. exists [], []. cbn.
    unfold extends. rewrite app_nil_r. split; [auto|]. split.
    - intros e He. inversion He.
    - split; [left; auto|]. intros H'; contradiction. }
  assert (exists r, r ∈ roles /\ namespace r = ns) as Hrole.
  { exists r0.
    assert (r0 ∈ filter (fun x => namespace x = ns) roles) as Hr0
      by (apply (toplevel_subseteq _ _ _ _ _ Etop); left).
    apply list_elem_of_filter in Hr0. tauto. }
  cbn [length Nat.ltb Nat.leb]. unfold active_in.
  destruct (default None (_active self !! ns)) as [act|] eqn:Eact.
  - destruct act as [g|content].
    + intros H; inversion H; subst. exists [], [GetAll ns (r0 :: filtered)]. cbn.
      split; [unfold extends; auto|]. split.
      * intros e He. apply list_elem_of_singleton in He as ->. auto.
      * split; [|auto]. left. split; [reflexivity|]. split; [reflexivity|].
        right. discriminate.
    + intros H. apply read_each_extends in H as [Hext Ha].
      exists [], (map (fun r => GetItem ns (array_name r)) roles).
      split; [exact Hext|]. split.
      * intros e He. apply list_elem_of_fmap in He as (r & -> & _). auto.
      * split; [|auto]. left. split; [reflexivity|]. split; [exact Ha|].
        right. discriminate.
  - destruct (b (_partitionid self)) as [g|content] eqn:Eb.
    + intros H; inversion H; subst.
      exists [Instantiate ns (_partitionid self)], [GetAll ns (r0 :: filtered)]. cbn.
      split; [unfold extends; cbn; rewrite <- app_assoc; auto|]. split.
      * intros e He. apply list_elem_of_singleton in He as ->. auto.
      * split; [|auto]. right. auto.
    + intros H. apply read_each_extends in H as [(Hb & Hp & Hd & Hl) Ha]. cbn in *.
      exists [Instantiate ns (_partitionid self)],
             (map (fun r => GetItem ns (array_name r)) roles).
      split.
      { unfold extends. rewrite Hb, Hp, Hd, Hl, <- app_assoc. auto. }
      split.
      * intros e He. apply list_elem_of_fmap in He as (r & -> & _). auto.
      * split; [|auto]. right. auto.
Qed.

Lemma elem_of_instantiated (l : list event) (ns : string) :
  ns ∈ instantiated l <-> exists pid, Instantiate ns pid ∈ l.
Proof.
  unfold instantiated. rewrite list_elem_of_omap. split.
  - intros (e & He & Hns). destruct e; inversion Hns; subst. eauto.
  - intros (pid & Hin). exists (Instantiate ns pid). auto.
Qed.

Lemma lazy_log_refl (self : DataArrays) : lazy_log self self [].
Proof.
  split; [unfold extends; rewrite app_nil_r; auto|].
  split; [auto|]. split; [auto|]. split; [constructor|]. split.
  - intros ns pid H. inversion H.
  - intros i e H. rewrite lookup_nil in H. discriminate.
Qed.

Lemma lazy_log_trans (a b c : DataArrays) (l1 l2 : list event) :
  lazy_log a b l1 -> lazy_log b c l2 -> lazy_log a c (l1 ++ l2)%list.
Proof.
  intros ((Hb1 & Hp1 & Hd1 & Hl1) & Hkeep1 & Hact1 & Hnd1 & Hinst1 & Hpre1)
         ((Hb2 & Hp2 & Hd2 & Hl2) & Hkeep2 & Hact2 & Hnd2 & Hinst2 & Hpre2).
  assert (forall ns, active_in b ns = None -> active_in a ns = None) as Hback.
  { intros ns Hn. destruct (active_in a ns) as [x|] eqn:E; [|reflexivity].
    rewrite (Hkeep1 ns x E) in Hn. discriminate. }
  assert (forall ns, active_in b ns <> None -> active_in c ns <> None) as Hfwd.
  { intros ns Hn. destruct (active_in b ns) as [x|] eqn:E; [|contradiction].
    rewrite (Hkeep2 ns x E). discriminate. }
  split.
  { unfold extends. rewrite Hb2, Hp2, Hd2, Hl2, Hb1, Hp1, Hd1, Hl1, app_assoc. auto. }
  split; [auto|]. split.
  { intros ns Hc. destruct (Hact2 ns Hc) as [Hbn|Hin].
    - destruct (Hact1 ns Hbn) as [?|Hin]; [auto|].
      right. apply elem_of_app. auto.
    - right. apply elem_of_app. right. rewrite <- Hp1. exact Hin. }
  split.
  { unfold instantiated. rewrite omap_app. apply NoDup_app.
    split; [exact Hnd1|]. split; [|exact Hnd2].
    intros ns H1 H2.
    apply elem_of_instantiated in H1 as (pid1 & H1).
    apply elem_of_instantiated in H2 as (pid2 & H2).
    destruct (Hinst1 _ _ H1) as (_ & _ & bk & _ & Hb).
    destruct (Hinst2 _ _ H2) as (_ & Hn & _). congruence. }
  split.
  { intros ns pid Hin. apply elem_of_app in Hin as [Hin|Hin].
    - destruct (Hinst1 _ _ Hin) as (? & ? & bk & ? & ?). eauto 6.
    - destruct (Hinst2 _ _ Hin) as (? & ? & bk & ? & ?). split; [congruence|].
      split; [auto|]. exists bk. split; [congruence | assumption]. }
  intros i e Hi. apply lookup_app_Some in Hi as [Hi|[Hlen Hi]].
  - destruct (Hpre1 i e Hi) as [?|(j & Hj & Hlj)]; [auto|].
    right. exists j. split; [exact Hj|]. apply lookup_app_l_Some. exact Hlj.
  - destruct (Hpre2 _ e Hi) as [Hbn|(j & Hj & Hlj)].
    + destruct (Hact1 _ Hbn) as [?|Hin]; [auto|].
      right. apply list_elem_of_lookup in Hin as [j Hlj].
      exists j. split.
      * apply lookup_lt_Some in Hlj. lia.
      * apply lookup_app_l_Some. exact Hlj.
    + right. exists (length l1 + j)%nat. split; [lia|].
      rewrite lookup_app_r by lia.
      replace (length l1 + j - length l1)%nat with j by lia.
      rewrite <- Hp1. exact Hlj.
Qed.

Lemma active_in_insert (m : gmap string (option active))
    (ns ns' : string) (a : active) :
  default None (<[ns := Some a]> m !! ns')
  = if decide (ns = ns') then Some a else default None (m !! ns').
Proof.
  destruct (decide (ns = ns')) as [->|Hne].
  - rewrite lookup_insert_eq. reflexivity.
  - rewrite lookup_insert_ne by exact Hne. reflexivity.
Qed.

Lemma getall_step_lazy (roles : list Role) (st : dict * DataArrays)
    (nb : string * backend) (st' : dict * DataArrays) :
  nb ∈ _backends (snd st) ->
  getall_step roles st nb = Ok st' -> exists l, lazy_log (snd st) (snd st') l.
Proof.
  destruct st as [out self], nb as [ns b]. intros Hnb Hrun.
  apply getall_step_shape in Hrun as (pre & reads & Hext & Hreads & Hcase & _).
  exists (pre ++ reads)%list. cbn [snd] in *.
  assert (instantiated reads = []) as Hnone.
  { clear -Hreads. induction reads as [|e reads IH]; [reflexivity|].
    destruct (Hreads e ltac:(left)) as [_ He].
    unfold instantiated in *. cbn [omap list_omap] in *.
    destruct e; try discriminate; apply IH; intros e' He'; apply Hreads; right; exact He'. }
  assert (forall ns' pid, Instantiate ns' pid ∉ reads) as Hnot.
  { intros ns' pid Hin.
    assert (ns' ∈ instantiated reads) as H by (apply elem_of_instantiated; eauto).
    rewrite Hnone in H. inversion H. }
  destruct Hcase as [(-> & Ha & Hor)|(-> & Hinactive & Ha)].
  - cbn [app] in *. unfold lazy_log, active_in in *. rewrite Ha.
    split; [exact Hext|]. split; [auto|]. split; [auto|].
    split; [rewrite Hnone; constructor|]. split.
    + intros ns' pid Hin. exfalso. exact (Hnot _ _ Hin).
    + intros i e Hi. left.
      destruct (Hreads e (list_elem_of_lookup_2 _ _ _ Hi)) as [-> _].
      destruct Hor as [->|Hor]; [rewrite lookup_nil in Hi; discriminate | exact Hor].
  - unfold lazy_log, active_in in *. rewrite Ha.
    split; [exact Hext|]. split.
    { intros ns' a Hns'. rewrite active_in_insert.
      destruct (decide (ns = ns')) as [<-|]; [congruence | exact Hns']. }
    split.
    { intros ns' Hns'. rewrite active_in_insert in Hns'.
      destruct (decide (ns = ns')) as [<-|]; [right; left | left; exact Hns']. }
    split.
    { change (instantiated ([Instantiate ns (_partitionid self)] ++ reads))
        with (ns :: instantiated reads).
      rewrite Hnone. apply NoDup_singleton. }
    split.
    { intros ns' pid Hin. apply elem_of_app in Hin as [Hin|Hin];
        [|exfalso; exact (Hnot _ _ Hin)].
      apply list_elem_of_singleton in Hin. inversion Hin; subst.
      split; [reflexivity|]. split; [exact Hinactive|].
      exists b. split; [exact Hnb|].
      rewrite active_in_insert. rewrite decide_True by reflexivity.
      reflexivity. }
    intros [|i] e Hi; cbn in Hi.
    + inversion Hi; subst. right. exists 0%nat. split; [lia | reflexivity].
    + right. exists 0%nat. split; [lia|].
      destruct (Hreads e (list_elem_of_lookup_2 _ _ _ Hi)) as [-> _]. reflexivity.
Qed.

Lemma getall_lazy (self : DataArrays) (roles : list Role) (st' : dict * DataArrays) :
  getall self roles = Ok st' -> exists l, lazy_log self (snd st') l.
Proof.
  intros Hrun.
  destruct (getall_fold_ind
              (fun st st' => _backends (snd st) = _backends self ->
                             exists l, lazy_log (snd st) (snd st') l) roles)
    with (st := ([] : dict, self)) (st' := st') (bs := _backends self) as [l Hl].
  - intros st _. exists []. apply lazy_log_refl.
  - intros a b c H1 H2 Ha. destruct (H1 Ha) as [l1 Hl1].
    destruct H2 as [l2 Hl2].
    { destruct Hl1 as ((Hb & _) & _). congruence. }
    exists (l1 ++ l2)%list. eapply lazy_log_trans; eauto.
  - intros st nb st1 Hnb Hstep Hb. apply (getall_step_lazy roles st nb); [|exact Hstep].
    rewrite Hb. exact Hnb.
  - exact Hrun.
  - reflexivity.
  - exists l. exact Hl.
Qed.

(** Over two calls of [getall] on one object, each namespace is
    instantiated at most once, with the object's partition id, only if it
    was not active before, and what its backend returned is kept. *)
Theorem getall_instantiates_once (self self1 self2 : DataArrays)
    (roles roles' : list Role) (out out' : dict) :
  getall self roles = Ok (out, self1) ->
  getall self1 roles' = Ok (out', self2) ->
  exists l1 l2 : list event,
    log self1 = (log self ++ l1)%list /\ log self2 = (log self ++ l1 ++ l2)%list /\
    NoDup (instantiated (l1 ++ l2)) /\
    forall ns pid, Instantiate ns pid ∈ (l1 ++ l2)%list ->
      pid = _partitionid self /\ active_in self ns = None /\
      exists b, (ns, b) ∈ _backends self /\ active_in self2 ns = Some (b pid).
Proof.
  intros H1 H2.
  apply getall_lazy in H1 as [l1 H1]. apply getall_lazy in H2 as [l2 H2].
  cbn [snd] in *.
  pose proof (lazy_log_trans _ _ _ _ _ H1 H2) as ((_ & _ & _ & Hl) & _ & _ & Hnd & Hinst & _).
  destruct H1 as ((_ & _ & _ & Hl1) & _).
  exists l1, l2. auto.
Qed.

(** [getall] reads a backend only if a requested role lies in its
    namespace: every call it makes is on a namespace of [_backends] that
    some requested role has. *)
Theorem getall_reads_requested_namespaces (self self' : DataArrays)
    (roles : list Role) (out : dict) :
  getall self roles = Ok (out, self') ->
  exists l : list event,
    log self' = (log self ++ l)%list /\
    forall e, e ∈ l ->
      (exists r, r ∈ roles /\ namespace r = event_namespace e) /\
      event_namespace e ∈ (_backends self).*1.
Proof.
  intros Hrun.
  destruct (getall_fold_ind
              (fun st st' => exists l, extends (snd st) (snd st') l /\
                 forall e, e ∈ l ->
                   (exists r, r ∈ roles /\ namespace r = event_namespace e) /\
                   event_namespace e ∈ (_backends self).*1) roles)
    with (st := ([] : dict, self)) (st' := (out, self')) (bs := _backends self)
    as (l & (_ & _ & _ & Hl) & He).
  - intros st. exists []. split; [unfold extends; rewrite app_nil_r; auto|].
    intros e H. inversion H.
  - intros a b c (l1 & (Hb1 & Hp1 & Hd1 & Hl1) & He1) (l2 & (Hb2 & Hp2 & Hd2 & Hl2) & He2).
    exists (l1 ++ l2)%list. split.
    + unfold extends. rewrite Hb2, Hp2, Hd2, Hl2, Hb1, Hp1, Hd1, Hl1, app_assoc. auto.
    + intros e Hin. apply elem_of_app in Hin as [Hin|Hin]; auto.
  - intros [out0 self0] [ns b] st1 Hnb Hstep.
    apply getall_step_shape in Hstep as (pre & reads & Hext & Hreads & Hcase & Hrole).
    exists (pre ++ reads)%list. split; [exact Hext|].
    intros e Hin.
    assert (event_namespace e = ns) as ->.
    { apply elem_of_app in Hin as [Hin|Hin]; [|apply Hreads; exact Hin].
      destruct Hcase as [(-> & _)|(-> & _)]; [inversion Hin|].
      apply list_elem_of_singleton in Hin as ->. reflexivity. }
    split.
    + apply Hrole. intros E. rewrite E in Hin. inversion Hin.
    + apply list_elem_of_fmap. exists (ns, b). auto.
  - exact Hrun.
  - exists l. auto.
Qed.

(** After [close] no namespace is active. *)
Lemma close_releases (has_close : active -> bool) (self : DataArrays) (ns : string) :
  active_in (snd (close has_close self)) ns = None.
Proof.
  unfold active_in, close. cbn [snd _active]. rewrite lookup_fmap.
  destruct (_active self !! ns); reflexivity.
Qed.

(** [close] closes the active objects that have a [close] method and
    leaves none active, so that a later [getall] instantiates a backend
    anew before it reads from it. *)
Theorem no_read_after_close (has_close : active -> bool) (self self' : DataArrays)
    (roles : list Role) (out : dict) :
  getall (snd (close has_close self)) roles = Ok (out, self') ->
  (forall ns, ns ∈ fst (close has_close self) <->
              exists a, active_in self ns = Some a /\ has_close a = true) /\
  exists l : list event,
    log self' = (log self ++ l)%list /\
    forall (i : nat) e, l !! i = Some e ->
      exists j : nat, (j <= i)%nat /\
        l !! j = Some (Instantiate (event_namespace e) (_partitionid self)).
Proof.
  intros Hrun. split.
  - intros ns. unfold close. cbn [fst]. rewrite list_elem_of_omap. unfold active_in. split.
    + intros ([ns' [a|]] & Hin & Hsome); cbn in Hsome; [|discriminate].
      destruct (has_close a) eqn:Hc; inversion Hsome; subst.
      apply elem_of_map_to_list in Hin. rewrite Hin. eauto.
    + intros (a & Ha & Hc). exists (ns, Some a). split.
      * apply elem_of_map_to_list. destruct (_active self !! ns) as [[x|]|]; inversion Ha.
        reflexivity.
      * cbn. rewrite Hc. reflexivity.
  - apply getall_lazy in Hrun as (l & (_ & _ & _ & Hl) & _ & _ & _ & _ & Hpre).
    exists l. split; [exact Hl|].
    intros i e Hi. destruct (Hpre i e Hi) as [Hact|Hj]; [|exact Hj].
    exfalso. apply Hact. apply close_releases.
Qed.

Lemma elem_of_delete_other (l : list Role) (x r : Role) (i : nat) :
  l !! i = Some x -> r ∈ l -> r <> x -> r ∈ delete i l.
Proof.
  intros Hi Hr Hne. apply list_elem_of_lookup in Hr as [j Hj].
  destruct (decide (j < i)%nat) as [Hlt|Hge].
  - apply (list_elem_of_lookup_2 _ j). rewrite list_lookup_delete_lt by exact Hlt. exact Hj.
  - assert (j <> i) by (intros ->; congruence).
    apply (list_elem_of_lookup_2 _ (j - 1)). rewrite list_lookup_delete_ge by lia.
    replace (S (j - 1)) with j by lia. exact Hj.
Qed.

(** [_toplevel] takes nothing but the two boundary roles out of
    [filtered]. *)
Lemma toplevel_keeps (self : DataArrays) (out out1 : dict) (f f1 : list Role) (r : Role) :
  toplevel self out f = (out1, f1) -> r ∈ f ->
  (forall ds, _dataset self = Some ds -> r <> _startsrole ds /\ r <> _stopsrole ds) ->
  r ∈ f1.
Proof.
  unfold toplevel. destruct (_dataset self) as [ds|].
  2:{ intros H; inversion H; auto. }
  intros H Hr Hne. destruct (Hne ds eq_refl) as [Hs He].
  destruct (index_of f (_startsrole ds)) as [i|] eqn:Ei.
  - apply index_of_Some in Ei.
    pose proof (elem_of_delete_other _ _ _ _ Ei Hr Hs) as Hr'.
    destruct (index_of (delete i f) (_stopsrole ds)) as [j|] eqn:Ej;
      inversion H; subst; [|exact Hr'].
    apply index_of_Some in Ej. exact (elem_of_delete_other _ _ _ _ Ej Hr' He).
  - destruct (index_of f (_stopsrole ds)) as [j|] eqn:Ej;
      inversion H; subst; [|exact Hr].
    apply index_of_Some in Ej. exact (elem_of_delete_other _ _ _ _ Ej Hr He).
Qed.

Lemma read_each_ok (ns : string) (content : gmap string array) :
  forall (roles : list Role) (out : dict) (self : DataArrays),
  (forall r, r ∈ roles -> is_Some (content !! array_name r)) ->
  exists st', read_each ns content roles (out, self) = Ok st' /\
    forall r, dict_get (fst st') r
              = if decide (r ∈ roles) then content !! array_name r else dict_get out r.
Proof.
  induction roles as [|x roles IH]; intros out self Hall.
  - eexists. split; [reflexivity|]. intros r. cbn.
    rewrite decide_False by apply not_elem_of_nil. reflexivity.
  - cbn [read_each]. destruct (Hall x ltac:(left)) as [a Ha]. rewrite Ha.
    destruct (IH (dict_set out x a)
                 (with_log self (GetItem ns (array_name x)))) as (st' & Hrun & Hget).
    { intros r Hr. apply Hall. right. exact Hr. }
    exists st'. split; [exact Hrun|]. intros r. rewrite Hget, dict_get_set.
    destruct (decide (r ∈ roles)) as [Hin|Hnin].
    + rewrite decide_True by (right; exact Hin). reflexivity.
    + destruct (decide (x = r)) as [->|Hne].
      * rewrite decide_True by left. symmetry. exact Ha.
      * rewrite decide_False; [reflexivity|].
        intros Hin. apply elem_of_cons in Hin as [->|Hin]; contradiction.
Qed.

Lemma read_each_raises (ns : string) (content : gmap string array) :
  forall (roles : list Role) (out : dict) (self : DataArrays) (r : Role),
  r ∈ roles -> content !! array_name r = None ->
  exists key, read_each ns content roles (out, self) = Raise (KeyError key) /\
    key ∈ map array_name roles /\ content !! key = None.
Proof.
  induction roles as [|x roles IH]; intros out self r Hr Hnone; [inversion Hr|].
  cbn [read_each]. destruct (content !! array_name x) as [a|] eqn:Ex.
  - apply elem_of_cons in Hr as [->|Hr]; [congruence|].
    destruct (IH (dict_set out x a) (with_log self (GetItem ns (array_name x))) r Hr Hnone)
      as (key & Hrun & Hin & Hk).
    exists key. split; [exact Hrun|]. split; [right; exact Hin | exact Hk].
  - exists (array_name x). split; [reflexivity|]. split; [left | exact Ex].
Qed.

(** With a single backend, not yet instantiated, whose [instantiate]
    returns a plain mapping, and with a requested role of the namespace of
    the backend that is no boundary role of the dataset (so that the
    filtered list is not empty and the backend is read at all): the
    mapping is subscripted with the name of every requested role,
    whatever its namespace, the boundary roles included; what it holds
    under those names is what [getall] returns, and a name it does not
    hold is a [KeyError]. *)
Theorem mapping_backend_is_read_for_every_role (self : DataArrays) (ns : string)
    (b : backend) (content : gmap string array) (roles : list Role) (r0 : Role) :
  _backends self = [(ns, b)] -> active_in self ns = None ->
  b (_partitionid self) = Mapping content ->
  r0 ∈ roles -> namespace r0 = ns ->
  (forall ds, _dataset self = Some ds -> r0 <> _startsrole ds /\ r0 <> _stopsrole ds) ->
  ((forall r, r ∈ roles -> is_Some (content !! array_name r)) ->
     exists out self', getall self roles = Ok (out, self') /\
       (forall r, r ∈ roles -> dict_get out r = content !! array_name r) /\
       log self' = (log self ++ Instantiate ns (_partitionid self)
                      :: map (fun r => GetItem ns (array_name r)) roles)%list) /\
  (forall r, r ∈ roles -> content !! array_name r = None ->
     exists key, getall self roles = Raise (KeyError key) /\
       key ∈ map array_name roles /\ content !! key = None).
Proof.
  intros Hb Hinactive Hmap Hr0 Hns Hbound.
  assert (
    getall self roles
    = (let '(out1, _) := toplevel self [] (filter (fun x => namespace x = ns) roles) in
       read_each ns content roles
         (out1, with_log (with_active self ns (Some (Mapping content)))
                         (Instantiate ns (_partitionid self)))) ) as Hrun.
  { unfold getall. rewrite Hb. cbn [fold_left bind]. unfold getall_step.
    destruct (toplevel self [] (filter (fun x => namespace x = ns) roles))
      as [out1 filtered] eqn:Etop.
    assert (r0 ∈ filtered) as Hin.
    { apply (toplevel_keeps _ _ _ _ _ _ Etop); [|exact Hbound].
      apply list_elem_of_filter. auto. }
    destruct filtered as [|x filtered]; [inversion Hin|].
    cbn [length Nat.ltb Nat.leb]. unfold active_in in Hinactive.
    rewrite Hinactive, Hmap. reflexivity. }
  destruct (toplevel self [] (filter (fun x => namespace x = ns) roles)) as [out1 filtered].
  rewrite Hrun. split.
  - intros Hall.
    destruct (read_each_ok ns content roles out1
                (with_log (with_active self ns (Some (Mapping content)))
                          (Instantiate ns (_partitionid self))) Hall)
      as ([out self'] & Hread & Hget).
    exists out, self'. split; [exact Hread|]. split.
    + intros r Hr. specialize (Hget r). cbn [fst] in Hget.
      rewrite decide_True in Hget by exact Hr. exact Hget.
    + apply read_each_extends in Hread as [(_ & _ & _ & Hl) _]. cbn in Hl.
      rewrite Hl, <- app_assoc. reflexivity.
  - intros r Hr Hnone. apply (read_each_raises ns content roles _ _ r Hr Hnone).
Qed.

(** On a list without repetition [_toplevel] takes the two boundary roles
    out of [filtered] and binds in [out] the ones it found. *)
Lemma toplevel_nodup (self : DataArrays) (ds : DatasetPart) (out out1 : dict)
    (f f1 : list Role) :
  _dataset self = Some ds -> _startsrole ds <> _stopsrole ds -> NoDup f ->
  toplevel self out f = (out1, f1) ->
  f1 = filter (fun r => r <> _stopsrole ds) (filter (fun r => r <> _startsrole ds) f) /\
  dict_get out1 (_startsrole ds)
  = (if decide (_startsrole ds ∈ f) then Some [0] else dict_get out (_startsrole ds)) /\
  dict_get out1 (_stopsrole ds)
  = (if decide (_stopsrole ds ∈ f) then Some [_numentries ds]
     else dict_get out (_stopsrole ds)) /\
  forall r, r <> _startsrole ds -> r <> _stopsrole ds -> dict_get out1 r = dict_get out r.
Proof.
  intros Hds Hne Hnd. unfold toplevel. rewrite Hds.
  set (s := _startsrole ds) in *. set (e := _stopsrole ds) in *.
  set (f' := filter (fun r => r <> s) f).
  assert (NoDup f') as Hnd' by (apply NoDup_filter; exact Hnd).
  assert (e ∈ f' <-> e ∈ f) as He.
  { unfold f'. rewrite list_elem_of_filter. split; [tauto|]. intros H. split; [congruence | exact H]. }
  assert (forall out0 r, dict_get
            (if decide (e ∈ f') then dict_set out0 e [_numentries ds] else out0) r
          = if decide (r = e) then (if decide (e ∈ f) then Some [_numentries ds]
                                    else dict_get out0 e)
            else dict_get out0 r) as Hstop.
  { intros out0 r. destruct (decide (e ∈ f')) as [Hin|Hnin].
    - rewrite dict_get_set. destruct (decide (e = r)) as [<-|].
      + rewrite decide_True by reflexivity. rewrite decide_True by (apply He; exact Hin).
        reflexivity.
      + rewrite decide_False by congruence. reflexivity.
    - destruct (decide (r = e)) as [->|]; [|reflexivity].
      rewrite decide_False by (rewrite <- He; exact Hnin). reflexivity. }
  assert (forall out0,
            match index_of f' e with
            | Some index => (dict_set out0 e [_numentries ds], delete index f')
            | None => (out0, f')
            end
            = (if decide (e ∈ f') then dict_set out0 e [_numentries ds] else out0,
               filter (fun r => r <> e) f')) as Hsecond.
  { intros out0. destruct (index_of f' e) as [j|] eqn:Ej.
    - rewrite (delete_index_of _ _ _ Hnd' Ej).
      rewrite decide_True; [reflexivity|].
      apply index_of_Some in Ej. eapply list_elem_of_lookup_2. exact Ej.
    - apply index_of_None in Ej. rewrite decide_False by exact Ej.
      rewrite (filter_not_in _ _ Ej). reflexivity. }
  destruct (index_of f s) as [i|] eqn:Ei.
  - rewrite (delete_index_of _ _ _ Hnd Ei). fold f'. rewrite Hsecond.
    intros H. inversion H; subst out1 f1. clear H.
    assert (s ∈ f) as Hs by (apply index_of_Some in Ei; eapply list_elem_of_lookup_2; exact Ei).
    split; [reflexivity|]. split; [|split].
    + rewrite Hstop, (decide_False (P := s = e)) by exact Hne.
      rewrite dict_get_set, (decide_True (P := s = s)) by reflexivity.
      rewrite (decide_True (P := s ∈ f)) by exact Hs. reflexivity.
    + rewrite Hstop, (decide_True (P := e = e)) by reflexivity.
      rewrite dict_get_set, (decide_False (P := s = e)) by exact Hne. reflexivity.
    + intros r Hrs Hre. rewrite Hstop, (decide_False (P := r = e)) by exact Hre.
      rewrite dict_get_set, (decide_False (P := s = r)) by congruence. reflexivity.
  - apply index_of_None in Ei.
    assert (f = f') as Hf by (unfold f'; rewrite (filter_not_in _ _ Ei); reflexivity).
    clearbody f'. subst f'. rewrite Hsecond.
    intros H. inversion H; subst out1 f1. clear H.
    split; [reflexivity|]. split; [|split].
    + rewrite Hstop, (decide_False (P := s = e)) by exact Hne.
      rewrite (decide_False (P := s ∈ f)) by exact Ei. reflexivity.
    + rewrite Hstop, (decide_True (P := e = e)) by reflexivity. reflexivity.
    + intros r Hrs Hre. rewrite Hstop, (decide_False (P := r = e)) by exact Hre. reflexivity.
Qed.

Lemma getall_step_provider (roles : list Role) (out : dict) (self : DataArrays)
    (ds : DatasetPart) (ns : string) (b : backend) :
  _dataset self = Some ds -> _startsrole ds <> _stopsrole ds -> NoDup roles ->
  (forall pid, answers_what_is_asked (b pid)) -> cached_answer self ->
  exists (out' : dict) (self' : DataArrays) (l : list event),
    getall_step roles (out, self) (ns, b) = Ok (out', self') /\
    extends self self' l /\ cached_answer self' /\
    (forall ns' rs, GetAll ns' rs ∈ l ->
       forall r, r ∈ rs <-> r ∈ roles /\ namespace r = ns' /\
                            r <> _startsrole ds /\ r <> _stopsrole ds) /\
    dict_get out' (_startsrole ds)
    = (if decide (_startsrole ds ∈ roles /\ namespace (_startsrole ds) = ns)
       then Some [0] else dict_get out (_startsrole ds)) /\
    dict_get out' (_stopsrole ds)
    = (if decide (_stopsrole ds ∈ roles /\ namespace (_stopsrole ds) = ns)
       then Some [_numentries ds] else dict_get out (_stopsrole ds)) /\
    forall r a, dict_get out' r = Some a -> dict_get out r = Some a \/ r ∈ roles.
Proof.
  intros Hds Hne Hnd Hb Hcached.
  set (f := filter (fun x => namespace x = ns) roles).
  assert (NoDup f) as Hndf by (apply NoDup_filter; exact Hnd).
  assert (forall r, r ∈ f <-> r ∈ roles /\ namespace r = ns) as Hf.
  { intros r. unfold f. rewrite list_elem_of_filter. tauto. }
  unfold getall_step. fold f.
  destruct (toplevel self out f) as [out1 f1] eqn:Etop.
  destruct (toplevel_nodup self ds out out1 f f1 Hds Hne Hndf Etop)
    as (Hf1 & Hs1 & He1 & Ho1).
  assert (forall r, r ∈ f1 <-> r ∈ roles /\ namespace r = ns /\
                               r <> _startsrole ds /\ r <> _stopsrole ds) as Hin1.
  { intros r. rewrite Hf1, !list_elem_of_filter, Hf. tauto. }
  assert (dict_get out1 (_startsrole ds)
          = if decide (_startsrole ds ∈ roles /\ namespace (_startsrole ds) = ns)
            then Some [0] else dict_get out (_startsrole ds)) as Hs1'.
  { rewrite Hs1. destruct (decide (_startsrole ds ∈ f)) as [H|H];
      [rewrite decide_True by (apply Hf; exact H) | rewrite decide_False by (rewrite <- Hf; exact H)];
      reflexivity. }
  assert (dict_get out1 (_stopsrole ds)
          = if decide (_stopsrole ds ∈ roles /\ namespace (_stopsrole ds) = ns)
            then Some [_numentries ds] else dict_get out (_stopsrole ds)) as He1'.
  { rewrite He1. destruct (decide (_stopsrole ds ∈ f)) as [H|H];
      [rewrite decide_True by (apply Hf; exact H) | rewrite decide_False by (rewrite <- Hf; exact H)];
      reflexivity. }
  assert (forall r a, dict_get out1 r = Some a -> dict_get out r = Some a \/ r ∈ roles) as Hkeys1.
  { intros r a Hr.
    destruct (decide (r = _startsrole ds)) as [->|Hrs].
    { rewrite Hs1' in Hr. destruct (decide _) as [[? _]|_] in Hr; auto. }
    destruct (decide (r = _stopsrole ds)) as [->|Hre].
    { rewrite He1' in Hr. destruct (decide _) as [[? _]|_] in Hr; auto. }
    rewrite (Ho1 r Hrs Hre) in Hr. auto. }
  destruct f1 as [|r0 f1'] eqn:Ef1.
  { cbn. exists out1, self, []. split; [reflexivity|].
    split; [unfold extends; rewrite app_nil_r; auto|]. split; [exact Hcached|].
    split; [intros ns' rs H; inversion H|]. auto. }
  rewrite <- Ef1 in *. replace (0 <? length f1)%nat with true by (rewrite Ef1; reflexivity).
  assert (forall g (self1 : DataArrays) pre,
            answers_what_is_asked (Provider g) -> extends self self1 pre ->
            cached_answer self1 -> (forall ns' rs, GetAll ns' rs ∉ pre) ->
            exists out' self' l,
              Ok (dict_update out1 (g f1), with_log self1 (GetAll ns f1)) = Ok (out', self') /\
              extends self self' l /\ cached_answer self' /\
              (forall ns' rs, GetAll ns' rs ∈ l ->
                 forall r, r ∈ rs <-> r ∈ roles /\ namespace r = ns' /\
                                      r <> _startsrole ds /\ r <> _stopsrole ds) /\
              dict_get out' (_startsrole ds)
              = (if decide (_startsrole ds ∈ roles /\ namespace (_startsrole ds) = ns)
                 then Some [0] else dict_get out (_startsrole ds)) /\
              dict_get out' (_stopsrole ds)
              = (if decide (_stopsrole ds ∈ roles /\ namespace (_stopsrole ds) = ns)
                 then Some [_numentries ds] else dict_get out (_stopsrole ds)) /\
              forall r a, dict_get out' r = Some a -> dict_get out r = Some a \/ r ∈ roles)
    as Hfinish.
  { intros g self1 pre Hg (Hb1 & Hp1 & Hd1 & Hl1) Hc1 Hpre.
    exists (dict_update out1 (g f1)), (with_log self1 (GetAll ns f1)),
           (pre ++ [GetAll ns f1])%list.
    split; [reflexivity|]. split.
    { unfold extends. cbn. rewrite Hb1, Hp1, Hd1, Hl1, app_assoc. auto. }
    split; [exact Hc1|]. split.
    { intros ns' rs Hin. apply elem_of_app in Hin as [Hin|Hin]; [destruct (Hpre _ _ Hin)|].
      apply list_elem_of_singleton in Hin. inversion Hin; subst. exact Hin1. }
    split.
    { rewrite dict_get_update_other; [exact Hs1'|].
      intros a Ha. apply Hg in Ha. apply Hin1 in Ha. tauto. }
    split.
    { rewrite dict_get_update_other; [exact He1'|].
      intros a Ha. apply Hg in Ha. apply Hin1 in Ha. tauto. }
    intros r a Hr. apply dict_get_update_Some in Hr as [Hr|Hr]; [|eauto].
    right. apply Hg in Hr. apply Hin1 in Hr. tauto. }
  destruct (default None (_active self !! ns)) as [act|] eqn:Eact.
  - pose proof (Hcached ns act Eact) as Hact.
    destruct act as [g|content]; [|destruct Hact].
    apply (Hfinish g self []); try assumption.
    + unfold extends. rewrite app_nil_r. auto.
    + intros ns' rs H. inversion H.
  - pose proof (Hb (_partitionid self)) as Hact.
    destruct (b (_partitionid self)) as [g|content] eqn:Eb; [|destruct Hact].
    apply (Hfinish g _ [Instantiate ns (_partitionid self)]); try assumption.
    + unfold extends. cbn. auto.
    + intros ns' a. unfold active_in. cbn [with_log with_active _active].
      rewrite active_in_insert.
      destruct (decide (ns = ns')) as [_|_].
      * intros H. inversion H. exact Hact.
      * apply Hcached.
    + intros ns' rs H. apply list_elem_of_singleton in H. discriminate.
Qed.

Lemma getall_fold_providers (roles : list Role) (ds : DatasetPart) :
  _startsrole ds <> _stopsrole ds -> NoDup roles ->
  forall (bs : list (string * backend)) (out : dict) (self : DataArrays),
  _dataset self = Some ds -> cached_answer self ->
  (forall ns b pid, (ns, b) ∈ bs -> answers_what_is_asked (b pid)) ->
  exists (out' : dict) (self' : DataArrays) (l : list event),
    fold_left (fun st nb => st <- st ;; getall_step roles st nb) bs (Ok (out, self))
    = Ok (out', self') /\
    extends self self' l /\
    (forall ns' rs, GetAll ns' rs ∈ l ->
       forall r, r ∈ rs <-> r ∈ roles /\ namespace r = ns' /\
                            r <> _startsrole ds /\ r <> _stopsrole ds) /\
    dict_get out' (_startsrole ds)
    = (if decide (_startsrole ds ∈ roles /\ namespace (_startsrole ds) ∈ bs.*1)
       then Some [0] else dict_get out (_startsrole ds)) /\
    dict_get out' (_stopsrole ds)
    = (if decide (_stopsrole ds ∈ roles /\ namespace (_stopsrole ds) ∈ bs.*1)
       then Some [_numentries ds] else dict_get out (_stopsrole ds)) /\
    forall r a, dict_get out' r = Some a -> dict_get out r = Some a \/ r ∈ roles.
Proof.
  intros Hne Hnd. induction bs as [|[ns b] bs IH]; intros out self Hds Hcached Hbs.
  - exists out, self, []. split; [reflexivity|].
    split; [unfold extends; rewrite app_nil_r; auto|].
    split; [intros ns' rs H; inversion H|].
    cbn [fmap list_fmap].
    rewrite !decide_False by (intros [_ H]; inversion H). auto.
  - destruct (getall_step_provider roles out self ds ns b Hds Hne Hnd)
      as (out1 & self1 & l1 & Hstep & Hext1 & Hc1 & Hg1 & Hs1 & He1 & Hk1);
      [intros pid; apply (Hbs ns b pid); left | exact Hcached |].
    pose proof Hext1 as (Hb1 & Hp1 & Hd1 & Hl1).
    destruct (IH out1 self1) as (out2 & self2 & l2 & Hrun & Hext2 & Hg2 & Hs2 & He2 & Hk2).
    { rewrite Hd1. exact Hds. }
    { exact Hc1. }
    { intros ns' b' pid Hin. apply (Hbs ns' b' pid). right. exact Hin. }
    pose proof Hext2 as (Hb2 & Hp2 & Hd2 & Hl2).
    exists out2, self2, (l1 ++ l2)%list. split.
    { cbn [fold_left bind]. rewrite Hstep. exact Hrun. }
    split.
    { unfold extends. rewrite Hb2, Hp2, Hd2, Hl2, Hb1, Hp1, Hd1, Hl1, app_assoc. auto. }
    split.
    { intros ns' rs Hin. apply elem_of_app in Hin as [Hin|Hin]; eauto. }
    cbn [fmap list_fmap fst].
    split; [|split].
    + rewrite Hs2, Hs1.
      destruct (decide (_startsrole ds ∈ roles /\ namespace (_startsrole ds) ∈ bs.*1))
        as [[H1 H2]|H].
      * rewrite decide_True; [reflexivity|]. split; [exact H1 | right; exact H2].
      * destruct (decide (_startsrole ds ∈ roles /\ namespace (_startsrole ds) = ns))
          as [[H1 H2]|H'].
        -- rewrite decide_True; [reflexivity|]. split; [exact H1 | rewrite H2; left].
        -- rewrite decide_False; [reflexivity|]. intros [H1 H2].
           apply elem_of_cons in H2 as [H2|H2]; tauto.
    + rewrite He2, He1.
      destruct (decide (_stopsrole ds ∈ roles /\ namespace (_stopsrole ds) ∈ bs.*1))
        as [[H1 H2]|H].
      * rewrite decide_True; [reflexivity|]. split; [exact H1 | right; exact H2].
      * destruct (decide (_stopsrole ds ∈ roles /\ namespace (_stopsrole ds) = ns))
          as [[H1 H2]|H'].
        -- rewrite decide_True; [reflexivity|]. split; [exact H1 | rewrite H2; left].
        -- rewrite decide_False; [reflexivity|]. intros [H1 H2].
           apply elem_of_cons in H2 as [H2|H2]; tauto.
    + intros r a Hr. apply Hk2 in Hr as [Hr|Hr]; [|auto]. apply Hk1 in Hr. exact Hr.
Qed.

(** The boundary roles of a partition, with backends whose [instantiate]
    returns an object with [getall] that answers the roles it is asked
    and no other: for roles without repetition, [getall] binds the starts
    role to [[0]] and the stops role to the partition's number of entries,
    asks no backend for either, and returns requested roles only. *)
Theorem providers_never_see_boundary_roles (d : Dataset Z) (partitionid : Z)
    (part : DataArrays) (roles : list Role) :
  arrays d partitionid = Ok part -> NoDup roles ->
  (forall ns b pid, (ns, b) ∈ _dbackends d -> answers_what_is_asked (b pid)) ->
  exists (ds : DatasetPart) (out : dict) (part' : DataArrays),
    _dataset part = Some ds /\
    getall part roles = Ok (out, part') /\
    (_startsrole ds ∈ roles -> _namespace d ∈ (_dbackends d).*1 ->
       dict_get out (_startsrole ds) = Some [0]) /\
    (_stopsrole ds ∈ roles -> _namespace d ∈ (_dbackends d).*1 ->
       dict_get out (_stopsrole ds) = Some [_numentries ds]) /\
    (forall ns rs, GetAll ns rs ∈ log part' ->
       forall r, r ∈ rs <-> r ∈ roles /\ namespace r = ns /\
                            r <> _startsrole ds /\ r <> _stopsrole ds) /\
    (forall r a, dict_get out r = Some a -> r ∈ roles).
Proof.
  intros Harr Hnd Hbs. unfold arrays in Harr.
  destruct (negb _) in Harr; [discriminate|].
  destruct (ndarray_getitem (_offsets d) _) as [hi|] in Harr; [|discriminate].
  destruct (ndarray_getitem (_offsets d) _) as [lo|] in Harr; [|discriminate].
  cbn [bind] in Harr. inversion Harr as [Hpart]. clear Harr. clear Hpart part.
  match goal with
  | |- context [{| _startsrole := ?s; _stopsrole := ?e; _numentries := ?n |}] =>
      set (ds := {| _startsrole := s; _stopsrole := e; _numentries := n |}) in *
  end.
  match goal with
  | |- context [getall ?p roles] => set (part := p) in *
  end.
  assert (_startsrole ds <> _stopsrole ds) as Hne by discriminate.
  destruct (getall_fold_providers roles ds Hne Hnd (_dbackends d) [] part)
    as (out & part' & l & Hrun & (_ & _ & _ & Hl) & Hg & Hs & He & Hk).
  { reflexivity. }
  { intros ns a. unfold active_in. cbn. rewrite lookup_empty. discriminate. }
  { exact Hbs. }
  exists ds, out, part'. split; [reflexivity|]. split; [exact Hrun|].
  split.
  { intros H1 H2. rewrite Hs. rewrite decide_True; [reflexivity|]. split; assumption. }
  split.
  { intros H1 H2. rewrite He. rewrite decide_True; [reflexivity|]. split; assumption. }
  split.
  { intros ns rs Hin. apply Hg. rewrite Hl in Hin. exact Hin. }
  intros r a Hr. apply Hk in Hr as [Hr|Hr]; [discriminate | exact Hr].
Qed.

Lemma provider_backend_answers (pid : option Z) :
  answers_what_is_asked (provider_backend pid).
Proof.
  intros rs r arr Hin. apply list_elem_of_omap in Hin as (r' & Hr' & Hsome).
  destruct (stored !! array_name r') as [a|]; cbn in Hsome; inversion Hsome; subst.
  exact Hr'.
Qed.

Lemma getall_instantiates_once_witness :
  exists (out out' : dict) (self1 self2 : DataArrays),
    getall one_provider [data_role] = Ok (out, self1) /\
    getall self1 [data_role] = Ok (out', self2) /\
    log self2 = [Instantiate "" None; GetAll "" [data_role]; GetAll "" [data_role]] /\
    exists l1 l2, log self2 = (log one_provider ++ l1 ++ l2)%list /\
      NoDup (instantiated (l1 ++ l2)).
Proof.
  assert ((r <- getall one_provider [data_role] ;;
           r' <- getall (snd r) [data_role] ;; Ok (log (snd r')))
          = Ok [Instantiate "" None; GetAll "" [data_role]; GetAll "" [data_role]])
    as Hrun by (vm_compute; reflexivity).
  destruct (getall one_provider [data_role]) as [[out self1]|] eqn:E1; [|discriminate].
  cbn [bind snd] in Hrun.
  destruct (getall self1 [data_role]) as [[out' self2]|] eqn:E2; [|discriminate].
  cbn [bind snd] in Hrun. inversion Hrun as [Hlog].
  exists out, out', self1, self2. split; [reflexivity|]. split; [exact E2|].
  split; [reflexivity|].
  destruct (getall_instantiates_once one_provider self1 self2 [data_role] [data_role]
              out out' E1 E2) as (l1 & l2 & _ & Hl2 & Hnd & _).
  exists l1, l2. split; [exact Hl2 | exact Hnd].
Defined.

Lemma getall_reads_requested_namespaces_witness :
  exists (out : dict) (self' : DataArrays),
    getall one_provider [data_role] = Ok (out, self') /\
    exists l, log self' = (log one_provider ++ l)%list /\
      forall e, e ∈ l -> event_namespace e ∈ (_backends one_provider).*1.
Proof.
  destruct (getall one_provider [data_role]) as [[out self']|] eqn:E;
    [|vm_compute in E; discriminate].
  exists out, self'. split; [reflexivity|].
  destruct (getall_reads_requested_namespaces one_provider self' [data_role] out E)
    as (l & Hl & He).
  exists l. split; [exact Hl|]. intros e Hin. apply (He e Hin).
Defined.

Lemma no_read_after_close_witness :
  exists (out out' : dict) (self1 self2 : DataArrays),
    getall one_provider [data_role] = Ok (out, self1) /\
    getall (snd (close (fun _ => true) self1)) [data_role] = Ok (out', self2) /\
    fst (close (fun _ => true) self1) = [""] /\
    log self2 = [Instantiate "" None; GetAll "" [data_role];
                 Instantiate "" None; GetAll "" [data_role]] /\
    exists l, log self2 = (log self1 ++ l)%list /\
      forall (i : nat) e, l !! i = Some e ->
        exists j : nat, (j <= i)%nat /\
          l !! j = Some (Instantiate (event_namespace e) (_partitionid self1)).
Proof.
  assert ((r <- getall one_provider [data_role] ;;
           r' <- getall (snd (close (fun _ => true) (snd r))) [data_role] ;;
           Ok (fst (close (fun _ => true) (snd r)), log (snd r')))
          = Ok ([""], [Instantiate "" None; GetAll "" [data_role];
                       Instantiate "" None; GetAll "" [data_role]]))
    as Hrun by (vm_compute; reflexivity).
  destruct (getall one_provider [data_role]) as [[out self1]|] eqn:E1; [|discriminate].
  cbn [bind snd] in Hrun.
  destruct (getall (snd (close (fun _ => true) self1)) [data_role])
    as [[out' self2]|] eqn:E2; [|discriminate].
  cbn [bind snd] in Hrun. injection Hrun as Hclosed Hlog.
  exists out, out', self1, self2. split; [reflexivity|]. split; [exact E2|].
  split; [exact Hclosed|]. split; [exact Hlog|].
  exact (proj2 (no_read_after_close (fun _ => true) self1 self2 [data_role] out' E2)).
Defined.

Lemma mapping_backend_is_read_for_every_role_witness :
  exists (out : dict) (self' : DataArrays),
    getall one_mapping [data_role; starts_role] = Ok (out, self') /\
    dict_get out starts_role = Some [0; 3; 7] /\
    log self' = [Instantiate "" None; GetItem "" "object-C"; GetItem "" "object-B"].
Proof.
  destruct (proj1 (mapping_backend_is_read_for_every_role one_mapping "" mapping_backend
                     stored [data_role; starts_role] data_role
                     eq_refl eq_refl eq_refl ltac:(left) eq_refl
                     ltac:(intros ds Hds; discriminate Hds)))
    as (out & self' & Hrun & Hget & Hlog).
  { intros r Hr. apply elem_of_cons in Hr as [->|Hr]; [eexists; reflexivity|].
    apply list_elem_of_singleton in Hr as ->. eexists; reflexivity. }
  exists out, self'. split; [exact Hrun|]. split; [|exact Hlog].
  apply (Hget starts_role). right. left.
Defined.

Lemma providers_never_see_boundary_roles_witness :
  exists (part : DataArrays) (out : dict) (part' : DataArrays),
    arrays (three_partitions [("", provider_backend)]) 1 = Ok part /\
    getall part [starts_role; stops_role; data_role] = Ok (out, part') /\
    dict_get out starts_role = Some [0] /\ dict_get out stops_role = Some [4].
Proof.
  destruct (arrays (three_partitions [("", provider_backend)]) 1) as [part|] eqn:Epart;
    [|vm_compute in Epart; discriminate].
  assert (NoDup [starts_role; stops_role; data_role]) as Hnd.
  { apply (bool_decide_unpack _). vm_compute. exact I. }
  destruct (providers_never_see_boundary_roles
              (three_partitions [("", provider_backend)]) 1 part
              [starts_role; stops_role; data_role] Epart Hnd)
    as (ds & out & part' & Hds & Hrun & Hs & He & _).
  { intros ns b pid Hin. apply list_elem_of_singleton in Hin. inversion Hin; subst.
    apply provider_backend_answers. }
  exists part, out, part'. split; [reflexivity|]. split; [exact Hrun|].
  vm_compute in Epart. injection Epart as <-. cbn in Hds. injection Hds as <-.
  split.
  - apply Hs; [left | left].
  - apply He; [right; left | left].
Defined.

End DatasetFacts.

(** ** The compiler *)

Module CompilerFacts.
Import Compiler.

(** A value of [int32] is left as it is by the cast to [int32]. *)
Lemma wrap32_int32 (z : Z) : int32 z -> wrap32 z = z.
Proof.
  unfold int32, wrap32. intros Hz.
  change (2 ^ 31) with 2147483648 in *. change (2 ^ 32) with 4294967296.
  rewrite Z.mod_small; lia.
Qed.

(** The cast to [int32] gives a value of [int32], and casting twice is
    casting once. *)
Lemma wrap32_range (z : Z) : int32 (wrap32 z).
Proof.
  unfold int32, wrap32.
  change (2 ^ 31) with 2147483648. change (2 ^ 32) with 4294967296.
  pose proof (Z.mod_pos_bound (z + 2147483648) 4294967296 ltac:(lia)). lia.
Qed.

Lemma wrap32_idempotent (z : Z) : wrap32 (wrap32 z) = wrap32 z.
Proof. apply wrap32_int32, wrap32_range. Qed.

(** [listget] on [int32] arguments, for a list that runs from [b] to
    [e]. *)
Lemma listget_value (begin end_ : list Z) (o i b e : Z) :
  int32 o -> int32 i ->
  array_read begin o = Some (Ok b) -> array_read end_ o = Some (Ok e) ->
  int32 b -> int32 e ->
  listget begin end_ o i
  = if (0 <=? i) && (i <? e - b) then Some (Ok (b + i))
    else if (- (e - b) <=? i) && (i <? 0) then Some (Ok (e + i))
    else Some (Raise (IndexError "index out of range")).
Proof.
  intros Hio Hii Hb He Hib Hie. unfold listget.
  rewrite (wrap32_int32 o Hio), (wrap32_int32 i Hii). cbv zeta.
  rewrite Hb, He. cbn [njit_bind].
  unfold int32 in *.
  destruct (Z.leb_spec 0 i) as [Hi|Hi]; cbn [andb].
  - assert ((i <? 0) = false) as E1 by (apply Z.ltb_ge; lia). rewrite !E1.
    rewrite andb_false_r. cbn [orb].
    destruct (Z.ltb_spec i (e - b)) as [Hlt|Hge].
    + assert ((e - b <=? i) = false) as -> by (apply Z.leb_gt; lia).
      rewrite wrap32_int32; [reflexivity | unfold int32; lia].
    + assert ((e - b <=? i) = true) as -> by (apply Z.leb_le; lia). reflexivity.
  - assert ((i <? 0) = true) as E1 by (apply Z.ltb_lt; lia). rewrite !E1.
    rewrite andb_true_r.
    destruct (Z.leb_spec (- (e - b)) i) as [Hin|Hout].
    + assert ((e - b + i <? 0) = false) as -> by (apply Z.ltb_ge; lia).
      assert ((e - b <=? e - b + i) = false) as -> by (apply Z.leb_gt; lia). cbn [orb].
      rewrite wrap32_int32; [f_equal; f_equal; lia | unfold int32; lia].
    + assert ((e - b + i <? 0) = true) as -> by (apply Z.ltb_lt; lia). reflexivity.
Qed.

(** An integer argument of [listget] counts by its low 32 bits. *)
Lemma listget_casts (begin end_ : list Z) (o i : Z) :
  listget begin end_ o i = listget begin end_ (wrap32 o) (wrap32 i).
Proof. unfold listget. rewrite !wrap32_idempotent. reflexivity. Qed.

(** C7, amended.  [listget] is compiled with the signature
    [int32(int32[:], int32[:], int32, int32)]: on an outer index [o] and
    an index [i] that are [int32] values, with [b = begin[o]] and
    [e = end[o]] two [int32] values, [listget(begin, end, o, i)] returns
    [b + i] when [0 <= i < e - b], returns [b + (e - b) + i] when
    [-(e - b) <= i < 0], and raises [IndexError] otherwise.  A wider
    integer is cast to [int32] first, so it counts by its low 32 bits.
    And [def f(x): return x[0]], compiled for a list of integers and
    called on [starts=[0]], [data=[10, 20, 30]], returns 10 with
    [stops=[3]] and raises [IndexError] with [stops=[0]]. *)
Theorem listget_spec (eval_callee : callee_evaluation) (begin end_ : list Z)
    (o i b e : Z) :
  int32 o -> int32 i ->
  array_read begin o = Some (Ok b) -> array_read end_ o = Some (Ok e) ->
  int32 b -> int32 e ->
  (0 <= i < e - b -> listget begin end_ o i = Some (Ok (b + i))) /\
  (- (e - b) <= i < 0 -> listget begin end_ o i = Some (Ok (b + (e - b) + i))) /\
  (~ (- (e - b) <= i < e - b) ->
     listget begin end_ o i = Some (Raise (IndexError "index out of range"))) /\
  (forall wide_o wide_i : Z,
     listget begin end_ wide_o wide_i
     = listget begin end_ (wrap32 wide_o) (wrap32 wide_i)) /\
  (exists c : Compiled,
     compile eval_callee f_x0 x_is_list ∅ = Ok c /\
     call_compiled c (arrays_of [0] [3] [10; 20; 30]) [] = Some (Ok (VInt 10)) /\
     call_compiled c (arrays_of [0] [0] [10; 20; 30]) []
     = Some (Raise (IndexError "index out of range"))).
Proof.
  intros Hio Hii Hb He Hib Hie.
  rewrite (listget_value begin end_ o i b e Hio Hii Hb He Hib Hie).
  unfold int32 in *.
  split; [|split; [|split; [|split]]].
  - intros Hi.
    assert ((0 <=? i) && (i <? e - b) = true) as ->; [|reflexivity].
    apply andb_true_intro. split; [apply Z.leb_le | apply Z.ltb_lt]; lia.
  - intros Hi.
    assert ((0 <=? i) = false) as -> by (apply Z.leb_gt; lia). cbn [andb].
    assert ((- (e - b) <=? i) && (i <? 0) = true) as ->.
    { apply andb_true_intro. split; [apply Z.leb_le | apply Z.ltb_lt]; lia. }
    f_equal. f_equal. lia.
  - intros Hi.
    assert ((0 <=? i) && (i <? e - b) = false) as ->.
    { apply andb_false_iff.
      destruct (Z.leb_spec 0 i); [right; apply Z.ltb_ge; lia | left; reflexivity]. }
    assert ((- (e - b) <=? i) && (i <? 0) = false) as ->; [|reflexivity].
    apply andb_false_iff.
    destruct (Z.ltb_spec i 0); [left; apply Z.leb_gt; lia | right; reflexivity].
  - intros wide_o wide_i. apply listget_casts.
  - assert ((c <~ Some (compile eval_callee f_x0 x_is_list ∅) ;;
             Some (Ok (call_compiled c (arrays_of [0] [3] [10; 20; 30]) [],
                       call_compiled c (arrays_of [0] [0] [10; 20; 30]) [])))
            = Some (Ok (Some (Ok (VInt 10)),
                        Some (Raise (IndexError "index out of range")))))
      as Hrun by (vm_compute; reflexivity).
    destruct (compile eval_callee f_x0 x_is_list ∅) as [c|err]; [|discriminate Hrun].
    cbn [njit_bind] in Hrun. injection Hrun as H3 H0.
    exists c. split; [reflexivity|]. split; assumption.
Qed.

(** C7 at [begin=[0]], [end=[3]], outer index 0: the first and the last
    item, and an index past the end. *)
Lemma listget_spec_witness :
  int32 0 /\ int32 (-1) /\ int32 3 /\
  array_read [0] 0 = Some (Ok 0) /\ array_read [3] 0 = Some (Ok 3) /\
  listget [0] [3] 0 0 = Some (Ok 0) /\
  listget [0] [3] 0 (-1) = Some (Ok 2) /\
  listget [0] [3] 0 3 = Some (Raise (IndexError "index out of range")).
Proof.
  assert (int32 0) as H0 by (unfold int32; lia).
  assert (int32 (-1)) as Hm by (unfold int32; lia).
  assert (int32 3) as H3 by (unfold int32; lia).
  split; [exact H0|]. split; [exact Hm|]. split; [exact H3|].
  split; [reflexivity|]. split; [reflexivity|].
  split; [|split].
  - apply (proj1 (listget_spec no_other_callee [0] [3] 0 0 0 3 H0 H0 eq_refl eq_refl H0 H3)). lia.
  - apply (proj1 (proj2 (listget_spec no_other_callee [0] [3] 0 (-1) 0 3 H0 Hm eq_refl eq_refl H0 H3))).
    lia.
  - apply (proj1 (proj2 (proj2 (listget_spec no_other_callee [0] [3] 0 3 0 3 H0 H3 eq_refl eq_refl H0 H3)))).
    lia.
Defined.

(** C7 as it is stated, for every index, fails on an index that does not
    fit [int32]: with [begin=[0]] and [end=[3]], the index [2 ** 32] is
    not in the range from -3 to 3, and [listget] does not raise: it sees
    the index 0 and returns [begin[0]].  The same index given to
    [def f(x, i): return x[i]] returns the first item of the list. *)
Lemma listget_truncates_index :
  array_read [0] 0 = Some (Ok 0) /\ array_read [3] 0 = Some (Ok 3) /\
  ~ (- (3 - 0) <= 2 ^ 32 < 3 - 0) /\
  listget [0] [3] 0 (2 ^ 32) = Some (Ok 0) /\
  forall eval_callee : callee_evaluation, exists c : Compiled,
    compile eval_callee f_item x_is_list ∅ = Ok c /\
    call_compiled c (arrays_of [0] [3] [10; 20; 30]) [VInt (2 ^ 32)]
    = Some (Ok (VInt 10)).
Proof.
  split; [reflexivity|]. split; [reflexivity|]. split; [lia|].
  split; [vm_compute; reflexivity|]. intros eval_callee.
  assert ((c <~ Some (compile eval_callee f_item x_is_list ∅) ;;
           call_compiled c (arrays_of [0] [3] [10; 20; 30]) [VInt (2 ^ 32)])
          = Some (Ok (VInt 10))) as Hrun by (vm_compute; reflexivity).
  destruct (compile eval_callee f_item x_is_list ∅) as [c|err]; [|discriminate Hrun].
  exists c. split; [reflexivity | exact Hrun].
Qed.

(** On possibilities of equal number, the test of [__eq__] on the member
    positions says that the two lists of members are the same. *)
Lemma same_members (ps qs : list Possibility) :
  length ps = length qs ->
  forallb (fun xy => (schema_of (fst xy) =? schema_of (snd xy))%nat) (combine ps qs)
  = true <-> map schema_of ps = map schema_of qs.
Proof.
  revert qs. induction ps as [|p ps IH]; intros [|q qs] Hlen; try discriminate.
  - split; reflexivity.
  - cbn in Hlen. injection Hlen as Hlen. cbn. rewrite andb_true_iff, (IH qs Hlen).
    rewrite Nat.eqb_eq. split.
    + intros [-> ->]. reflexivity.
    + intros H. injection H as H1 H2. auto.
Qed.

(** [==] on two tracked types decides whether they are over the same schema
    substructure. *)
Lemma atype_eq_tracked (a b : atype) :
  tracked a -> tracked b ->
  (same_substructure a b -> atype_eq a b = Ok true) /\
  (~ same_substructure a b -> atype_eq a b = Ok false).
Proof.
  destruct a as [| | |ps [p|] ip n]; try contradiction.
  destruct b as [| | |qs [q|] iq m]; try contradiction.
  intros _ _. unfold same_substructure, atype_eq. cbn.
  destruct (decide (Some p = Some q)) as [E|E].
  - rewrite bool_decide_true by exact E. cbn [negb].
    destruct (Nat.eqb_spec (length ps) (length qs)) as [Hlen|Hlen]; cbn [negb].
    + pose proof (same_members ps qs Hlen) as Hs. split.
      * intros [_ Hm]. f_equal. apply Hs. exact Hm.
      * intros Hn. f_equal. apply not_true_is_false. intros Hf. apply Hn.
        split; [exact E | apply Hs; exact Hf].
    + split; [|reflexivity]. intros [_ Hm]. exfalso. apply Hlen.
      rewrite <- (length_map schema_of ps), <- (length_map schema_of qs), Hm.
      reflexivity.
  - rewrite bool_decide_false by exact E. cbn [negb]. split; [|reflexivity].
    intros [Hp _]. contradiction.
Qed.

(** C6: a variable bound in the symbol table to a tracked type cannot be
    assigned a tracked type over a different schema substructure (a
    [TypeError] that names the variable); assigning it a type over the same
    substructure leaves the symbol table as it is; assigning [None] to it
    rebinds it to a copy marked nullable, with the same possibilities and
    parameter; and assigning [None] to an unbound variable binds it to
    [nullable], which has no schema. *)
Theorem assign_rebinding (st : state) (id : string) (c : ctx) (a a' : atype)
    (value : expr) (bound : atype) :
  symtable st !! id = Some bound -> tracked bound ->
  (forall t, atype_of value = Ok t -> tracked t ->
     (~ same_substructure bound t ->
        do_Assign [Name id c a] value a' st
        = Raise (TypeError ("cannot use the same variable (" +s id
                   +s ") for different parts of a dataset structure"))) /\
     (same_substructure bound t ->
        do_Assign [Name id c a] value a' st = Ok (Assign [Name id c a] value a', st)))
  /\
  (atype_of value = Ok nullable ->
     exists marked,
       do_Assign [Name id c a] value a' st
       = Ok (Assign [Name id c a] value a',
             set_symtable st (<[id := marked]> (symtable st))) /\
       possibilities_of marked = possibilities_of bound /\
       parameter_of marked = parameter_of bound /\
       nullable_of marked = true)
  /\
  (forall fresh, symtable st !! fresh = None -> atype_of value = Ok nullable ->
     do_Assign [Name fresh c a] value a' st
     = Ok (Assign [Name fresh c a] value a',
           set_symtable st (<[fresh := nullable]> (symtable st)))).
Proof.
  intros Hbound Htracked. split; [|split].
  - intros t Ht Htt.
    destruct (atype_eq_tracked bound t Htracked Htt) as [Hsame Hdiff].
    assert (assign (Name id c a) value (symtable st)
            = (same <- atype_eq bound t ;;
               if same then Ok (symtable st)
               else Raise (TypeError ("cannot use the same variable (" +s id
                             +s ") for different parts of a dataset structure"))))
      as Hassign.
    { cbn [assign]. rewrite Ht. cbn [bind]. rewrite Hbound.
      destruct t as [| | |qs q iq m]; try contradiction.
      destruct bound as [| | |ps p ip n]; try contradiction. reflexivity. }
    split.
    + intros Hn. unfold do_Assign. cbn [fold_left bind]. rewrite Hassign, (Hdiff Hn).
      reflexivity.
    + intros Hs. unfold do_Assign. cbn [fold_left bind]. rewrite Hassign, (Hsame Hs).
      cbn [bind]. destruct st. reflexivity.
  - intros Hv.
    destruct bound as [| | |ps p ip n]; try contradiction.
    eexists. split.
    + unfold do_Assign. cbn [fold_left bind assign]. rewrite Hv. cbn [bind].
      rewrite Hbound. reflexivity.
    + cbn. auto.
  - intros fresh Hfresh Hv.
    unfold do_Assign. cbn [fold_left bind assign]. rewrite Hv. cbn [bind].
    rewrite Hfresh. reflexivity.
Qed.

(** C6 at a variable [y] bound to member 1: assigning it member 2 fails,
    assigning it member 1 again changes nothing, assigning [None] marks it
    nullable. *)
Lemma assign_rebinding_witness :
  symtable y_bound !! "y" = Some (member_type 1) /\
  tracked (member_type 1) /\
  do_Assign [Name "y" Store untracked] (Num 0 (member_type 2)) untracked y_bound
  = Raise (TypeError "cannot use the same variable (y) for different parts of a dataset structure") /\
  do_Assign [Name "y" Store untracked] (Num 0 (member_type 1)) untracked y_bound
  = Ok (Assign [Name "y" Store untracked] (Num 0 (member_type 1)) untracked, y_bound) /\
  exists marked,
    do_Assign [Name "y" Store untracked] (NameConstant None nullable) untracked y_bound
    = Ok (Assign [Name "y" Store untracked] (NameConstant None nullable) untracked,
          set_symtable y_bound (<["y" := marked]> (symtable y_bound))) /\
    possibilities_of marked = possibilities_of (member_type 1) /\
    parameter_of marked = parameter_of (member_type 1) /\
    nullable_of marked = true.
Proof.
  assert (symtable y_bound !! "y" = Some (member_type 1)) as Hy by reflexivity.
  split; [exact Hy|]. split; [exact I|]. split; [|split].
  - apply (proj1 (assign_rebinding y_bound "y" Store untracked untracked
                    (Num 0 (member_type 2)) (member_type 1) Hy I)
                 (member_type 2) eq_refl I).
    intros [_ Hm]. discriminate Hm.
  - apply (proj1 (assign_rebinding y_bound "y" Store untracked untracked
                    (Num 0 (member_type 1)) (member_type 1) Hy I)
                 (member_type 1) eq_refl I).
    split; reflexivity.
  - apply (proj1 (proj2 (assign_rebinding y_bound "y" Store untracked untracked
                           (NameConstant None nullable) (member_type 1) Hy I))).
    reflexivity.
Defined.

(** The same through [compile], on [def f(x): y = x.a; y = ...] with [x] a
    record of two lists: a second assignment of [x.b] is refused, one of
    [x.a] or of [None] is accepted. *)
Lemma reassignment_through_compile (eval_callee : callee_evaluation) :
  compile eval_callee (f_two (field "a") (field "b")) x_is_record ∅
  = Raise (TypeError "cannot use the same variable (y) for different parts of a dataset structure") /\
  is_ok (compile eval_callee (f_two (field "a") (field "a")) x_is_record ∅) = true /\
  is_ok (compile eval_callee (f_two (field "a") (NameConstant None untracked)) x_is_record ∅)
  = true.
Proof. repeat split; vm_compute; reflexivity. Qed.

(** The loop of [sym] ends on a name that is not in use: the candidates
    differ from one another, so among one more than there are names in use
    one is free. *)
Lemma first_unused_fresh (used : gset string) (prefix : string) (fuel : nat) :
  forall (tried : gset string) (trial : string) (number : nat),
    tried ⊆ used -> trial ∉ tried ->
    (forall k, (number <= k)%nat -> prefix +s "_" +s pretty k ∉ tried) ->
    (forall k, (number <= k)%nat -> prefix +s "_" +s pretty k <> trial) ->
    (size used < size tried + fuel)%nat ->
    first_unused fuel used prefix trial number ∉ used.
Proof.
  induction fuel as [|fuel IH]; intros tried trial number Hsub Htrial Hcand Hne Hsize.
  - pose proof (subseteq_size _ _ Hsub). lia.
  - cbn [first_unused]. destruct (decide (trial ∈ used)) as [Hin|Hout]; [|exact Hout].
    apply (IH ({[trial]} ∪ tried)).
    + apply union_least; [apply singleton_subseteq_l; exact Hin | exact Hsub].
    + pose proof (Hcand number (Nat.le_refl _)) as H1.
      pose proof (Hne number (Nat.le_refl _)) as H2.
      apply not_elem_of_union. split; [|exact H1].
      intros H3. apply elem_of_singleton in H3. contradiction.
    + intros k Hk. assert (number <= k)%nat as Hk' by lia.
      apply not_elem_of_union. split; [|exact (Hcand k Hk')].
      intros H3. apply elem_of_singleton in H3. exact (Hne k Hk' H3).
    + intros k Hk E. rewrite !append_assoc in E.
      apply (inj (String.append prefix)) in E.
      apply (inj (String.append "_")) in E.
      apply (inj pretty) in E. lia.
    + rewrite size_union by set_solver. rewrite size_singleton. lia.
Qed.


(** What [sym] does on a key that is not in [sym.names]. *)
Lemma sym_unseen (key : string) (st st' : state) (symbol : string) :
  sym_names st !! key = None ->
  sym key st = Ok (symbol, st') ->
  (symbol ∉ symbolsused st) /\ symbolsused st' = {[symbol]} ∪ symbolsused st /\
  sym_names st' = <[key := symbol]> (sym_names st).
Proof.
  intros Hnew Hok. unfold sym in Hok. rewrite Hnew in Hok. cbv zeta in Hok.
  match type of Hok with
  | context [first_unused ?f ?u ?p ?t ?n] =>
      remember (first_unused f u p t n) as r eqn:Er
  end.
  injection Hok as <- <-. split; [|split; reflexivity]. subst r.
  apply (first_unused_fresh (symbolsused st) _ (S (size (symbolsused st))) ∅).
  - set_solver.
  - set_solver.
  - intros; set_solver.
  - intros k _ E.
    match type of E with ?p +s "_" +s _ = _ => set (q := p) in * end.
    rewrite append_assoc in E. rewrite <- (append_empty_r q) in E at 2.
    apply (inj (String.append q)) in E. discriminate E.
  - rewrite size_empty. lia.
Qed.

(** [sym] on a key it has not seen returns a name that was not in use,
    marks it as used and remembers it for the key. *)
Theorem sym_fresh (key : string) (st st' : state) (symbol : string) :
  sym_names st !! key = None ->
  sym key st = Ok (symbol, st') ->
  (symbol ∉ symbolsused st) /\ symbolsused st' = {[symbol]} ∪ symbolsused st /\
  sym_names st' = <[key := symbol]> (sym_names st).
Proof. exact (sym_unseen key st st' symbol). Qed.

(** [sym("listget")] when [listget] is taken: the name made is
    [listget_2]. *)
Lemma sym_fresh_witness :
  sym_names listget_taken !! "listget" = None /\
  exists st', sym "listget" listget_taken = Ok ("listget_2", st') /\
    ("listget_2" ∉ symbolsused listget_taken) /\
    symbolsused st' = {[ "listget_2" ]} ∪ symbolsused listget_taken /\
    sym_names st' = <["listget" := "listget_2"]> (sym_names listget_taken).
Proof.
  split; [reflexivity|]. eexists. split; [vm_compute; reflexivity|].
  apply (sym_fresh "listget" listget_taken _ "listget_2" eq_refl).
  vm_compute. reflexivity.
Defined.

(** [def f(x): return len(x)] on a list with [starts=[2]], [stops=[9]]
    returns 7. *)
Lemma len_through_compile (eval_callee : callee_evaluation) :
  exists c : Compiled,
    compile eval_callee f_len x_is_list ∅ = Ok c /\
    call_compiled c (arrays_of [2] [9] [10; 20; 30]) [] = Some (Ok (VInt 7)).
Proof.
  assert ((c <~ Some (compile eval_callee f_len x_is_list ∅) ;;
           call_compiled c (arrays_of [2] [9] [10; 20; 30]) [])
          = Some (Ok (VInt 7))) as Hrun by (vm_compute; reflexivity).
  destruct (compile eval_callee f_len x_is_list ∅) as [c|e]; [|discriminate Hrun].
  exists c. split; [reflexivity | exact Hrun].
Qed.

(** *** Symbols, parameters and whole functions *)

(** [sym] changes its own three fields only, and remembers the key. *)
Lemma sym_memo (key : string) (st st' : state) (symbol : string) :
  sym key st = Ok (symbol, st') ->
  sym_names st' !! key = Some symbol /\
  sym key st' = Ok (symbol, st') /\
  symtable st' = symtable st /\ parameters st' = parameters st /\ env st' = env st /\
  symbolsused st ⊆ symbolsused st' /\
  (forall key', key' <> key -> sym_names st' !! key' = sym_names st !! key').
Proof.
  unfold sym. destruct (sym_names st !! key) as [s|] eqn:E.
  - intros H. injection H as <- <-. rewrite E. repeat split; auto.
  - cbv zeta.
    match goal with
    | |- context [first_unused ?f ?u ?p ?t ?n] => generalize (first_unused f u p t n)
    end.
    intros r H. injection H as <- <-. cbn [sym_names symtable parameters env symbolsused].
    rewrite lookup_insert_eq. repeat split; auto.
    + apply union_subseteq_r.
    + intros key' Hne. rewrite lookup_insert_ne by congruence. reflexivity.
Qed.

(** [sym] keeps its state consistent: the symbol of a new key is none of
    the names in use, so it is the symbol of no other key. *)
Lemma sym_keeps_consistent (key : string) (st st' : state) (symbol : string) :
  sym_consistent st -> sym key st = Ok (symbol, st') -> sym_consistent st'.
Proof.
  intros [Hused Hinj] Hsym.
  destruct (sym_names st !! key) as [s|] eqn:E.
  { unfold sym in Hsym. rewrite E in Hsym. injection Hsym as <- <-. split; assumption. }
  destruct (sym_unseen key st st' symbol E Hsym) as (Hfresh & Hu & Hn).
  split.
  - intros k s. rewrite Hn, Hu. destruct (decide (key = k)) as [<-|Hne].
    + rewrite lookup_insert_eq. intros H; inversion H; subst.
      apply elem_of_union_l, elem_of_singleton. reflexivity.
    + rewrite lookup_insert_ne by exact Hne. intros H.
      apply elem_of_union_r. exact (Hused k s H).
  - intros k1 k2 s. rewrite Hn.
    destruct (decide (key = k1)) as [<-|Hne1]; destruct (decide (key = k2)) as [<-|Hne2];
      rewrite ?lookup_insert_eq, ?lookup_insert_ne by assumption.
    + reflexivity.
    + intros H1 H2. inversion H1; subst. exfalso. exact (Hfresh (Hused _ _ H2)).
    + intros H1 H2. inversion H2; subst. exfalso. exact (Hfresh (Hused _ _ H1)).
    + apply Hinj.
Qed.

(** Symbols are made once and never shared: with a consistent state, two
    calls of [sym] return the same symbol exactly when they are given the
    same key; the symbol of a key not seen before was not a name in use;
    and [sym] leaves the symbol table, the parameters and [env] alone. *)
Theorem sym_distinct (k1 k2 : string) (st st1 st2 : state) (s1 s2 : string) :
  sym_consistent st ->
  sym k1 st = Ok (s1, st1) -> sym k2 st1 = Ok (s2, st2) ->
  (k1 = k2 <-> s1 = s2) /\
  (sym_names st !! k1 = None -> s1 ∉ symbolsused st) /\
  sym_consistent st2 /\
  sym k1 st2 = Ok (s1, st2) /\ sym k2 st2 = Ok (s2, st2) /\
  symtable st2 = symtable st /\ parameters st2 = parameters st /\ env st2 = env st.
Proof.
  intros Hc H1 H2.
  pose proof (sym_keeps_consistent _ _ _ _ Hc H1) as Hc1.
  pose proof (sym_keeps_consistent _ _ _ _ Hc1 H2) as Hc2.
  destruct (sym_memo _ _ _ _ H1) as (Hn1 & _ & Ht1 & Hp1 & He1 & _ & _).
  destruct (sym_memo _ _ _ _ H2) as (Hn2 & Hagain2 & Ht2 & Hp2 & He2 & _ & Hother).
  assert (sym_names st2 !! k1 = Some s1) as Hk1.
  { destruct (decide (k1 = k2)) as [->|Hne].
    - unfold sym in H2. rewrite Hn1 in H2. injection H2 as <- <-. exact Hn1.
    - rewrite (Hother k1 Hne). exact Hn1. }
  split; [|split; [|split; [|split; [|split]]]].
  - split.
    + intros ->. rewrite Hn2 in Hk1. congruence.
    + intros ->. exact (proj2 Hc2 _ _ _ Hk1 Hn2).
  - intros Hnew. exact (proj1 (sym_unseen k1 st st1 s1 Hnew H1)).
  - exact Hc2.
  - unfold sym. rewrite Hk1. reflexivity.
  - exact Hagain2.
  - repeat split; congruence.
Qed.

(** One turn of the loop of [transform]. *)
Lemma bind_parameters_cons (types : paramtypes) (k : nat) (paramname : string)
    (dflt : option expr) (args : list (string * option expr)) (st st' : state) :
  bind_parameters types k ((paramname, dflt) :: args) st = Ok (tt, st') ->
  exists (prm : parameter) (a : atype),
    well_kept k prm /\ parameter_originalname prm = paramname /\
    bind_parameters types (S k) args
      (set_symtable (set_parameters st (parameters st ++ [prm])%list)
                    (<[paramname := a]> (symtable st))) = Ok (tt, st').
Proof.
  cbn [bind_parameters]. intros Hrun.
  destruct (by_index types !! k) as [[t|]|] eqn:Ei;
    destruct (by_name types !! paramname) as [[t'|]|] eqn:En;
    try discriminate; cbn in Hrun;
    try (destruct dflt; [discriminate|]); cbn in Hrun;
    (eexists _, _; split; [|split; [|exact Hrun]]); try reflexivity;
    (split; [reflexivity|]); cbn; try exact I;
    (split; [apply length_replicate|]); (split; [constructor|]);
    intros symbol H; inversion H.
Qed.

Lemma bind_parameters_keeps_binding (types : paramtypes) (name : string)
    (args : list (string * option expr)) :
  forall (k : nat) (st st' : state),
  is_Some (symtable st !! name) ->
  bind_parameters types k args st = Ok (tt, st') ->
  is_Some (symtable st' !! name).
Proof.
  induction args as [|[n d] args IH]; intros k st st' Hs Hrun.
  - cbn in Hrun. injection Hrun as <-. exact Hs.
  - apply bind_parameters_cons in Hrun as (prm & a & _ & _ & Hrun).
    refine (IH _ _ _ _ Hrun). cbn [symtable set_symtable].
    destruct (decide (n = name)) as [->|Hne].
    + rewrite lookup_insert_eq. eauto.
    + rewrite lookup_insert_ne by exact Hne. exact Hs.
Qed.

(** The loop of [transform] appends one parameter for each argument, in
    order, numbered by position, and binds each name in the symbol
    table. *)
Theorem bind_parameters_numbers (types : paramtypes) (args : list (string * option expr)) :
  forall (st st' : state),
  parameters_kept st ->
  bind_parameters types (length (parameters st)) args st = Ok (tt, st') ->
  parameters_kept st' /\
  (exists new, parameters st' = (parameters st ++ new)%list /\
     map parameter_originalname new = map fst args) /\
  (forall name, name ∈ map fst args -> is_Some (symtable st' !! name)) /\
  sym_names st' = sym_names st /\ symbolsused st' = symbolsused st /\ env st' = env st.
Proof.
  induction args as [|[paramname dflt] args IH]; intros st st' Hkept Hrun.
  - cbn in Hrun. injection Hrun as <-. split; [exact Hkept|]. split.
    + exists []. rewrite app_nil_r. auto.
    + split; [intros name H; inversion H | auto].
  - apply bind_parameters_cons in Hrun as (prm & a & Hprm & Hname & Hrest).
    set (st1 := set_symtable (set_parameters st (parameters st ++ [prm])%list)
                             (<[paramname := a]> (symtable st))) in *.
    assert (length (parameters st1) = S (length (parameters st))) as Hlen.
    { cbn. rewrite length_app. cbn. lia. }
    pose proof Hrest as Hrest'. rewrite <- Hlen in Hrest.
    destruct (IH st1 st') as (Hk & (new & Hnew & Hnames) & Hsym & Hn & Hu & He).
    + intros i q Hq. cbn in Hq. apply lookup_app_Some in Hq as [Hq|[Hge Hq]].
      * apply Hkept. exact Hq.
      * destruct (i - length (parameters st))%nat as [|j] eqn:Ej; cbn in Hq; [|discriminate].
        inversion Hq; subst q. replace i with (length (parameters st)) by lia. exact Hprm.
    + exact Hrest.
    + split; [exact Hk|]. split.
      * exists (prm :: new). split.
        -- rewrite Hnew. cbn. rewrite <- app_assoc. reflexivity.
        -- cbn. rewrite Hname, Hnames. reflexivity.
      * split; [|auto].
        intros name Hin. cbn in Hin. apply elem_of_cons in Hin as [->|Hin]; [|auto].
        apply (bind_parameters_keeps_binding types paramname args
                 (S (length (parameters st))) st1 st'); [|exact Hrest'].
        cbn. rewrite lookup_insert_eq. eauto.
Qed.

(** What [require] does, step by step. *)
Lemma require_inv (a : atype) (memberid : nat) (attr : string) (st st' : state)
    (symbol : string) :
  require a memberid attr st = Ok (symbol, st') ->
  exists (i : nat) (p : TransformedParameter) (m : schema) (st1 : state),
    parameter_of a = Some i /\ parameters st !! i = Some (Transformed p) /\
    tp_members p !! memberid = Some m /\
    sym ("par" +s pretty (tp_index p) +s "_mem" +s pretty memberid +s "_"
         +s format_name (schema_name m) +s "_" +s attr) st = Ok (symbol, st1) /\
    st' = set_parameters st1
            (<[tp_index p :=
                 Transformed
                   {| tp_index := tp_index p; tp_originalname := tp_originalname p;
                      tp_atype := tp_atype p; tp_root := tp_root p;
                      tp_members := tp_members p;
                      tp_transformed :=
                        if bool_decide (symbol ∈ tp_transformed p) then tp_transformed p
                        else (tp_transformed p ++ [symbol])%list;
                      tp_required := <[memberid := true]> (tp_required p);
                      tp_sym2obj := <[symbol := (memberid, attr)]> (tp_sym2obj p) |}]>
               (parameters st1)).
Proof.
  unfold require, rule_bind, the_parameter, parameter_named, lift, member.
  destruct (parameter_of a) as [i|]; [|discriminate].
  destruct (parameters st !! i) as [[|p]|] eqn:Ep; try discriminate.
  cbn [bind fst snd].
  destruct (tp_members p !! memberid) as [m|] eqn:Em; [|discriminate].
  cbn [bind fst snd].
  destruct (sym _ st) as [[s st1]|] eqn:Es; [|discriminate].
  cbn [bind fst snd]. intros H. injection H as <- <-.
  exists i, p, m, st1. auto 6.
Qed.

(** [require] registers the array with its parameter: the symbol is among
    the arguments of the parameter, once, it stands for the member and the
    attribute asked for, the member is marked as required, and a second
    call for the same array returns the same symbol and changes nothing. *)
Theorem require_registers (a : atype) (memberid : nat) (attr : string)
    (st st' : state) (symbol : string) :
  parameters_kept st ->
  require a memberid attr st = Ok (symbol, st') ->
  parameters_kept st' /\
  (exists i p', parameter_of a = Some i /\
     parameters st' !! i = Some (Transformed p') /\
     symbol ∈ tp_transformed p' /\
     tp_sym2obj p' !! symbol = Some (memberid, attr) /\
     memberid ∈ required_members p') /\
  require a memberid attr st' = Ok (symbol, st') /\
  length (parameters st') = length (parameters st) /\
  symtable st' = symtable st /\ env st' = env st.
Proof.
  intros Hkept Hrun.
  destruct (require_inv _ _ _ _ _ _ Hrun) as (i & p & m & st1 & Ha & Hp & Hm & Hsym & ->).
  destruct (sym_memo _ _ _ _ Hsym) as (Hn1 & Hagain & Ht1 & Hp1 & He1 & _ & _).
  destruct (Hkept i _ Hp) as [Hidx (Hlen & Hnd & Hobj)]. cbn in Hidx.
  pose proof (lookup_lt_Some _ _ _ Hp) as Hi.
  pose proof (lookup_lt_Some _ _ _ Hm) as Hmlt.
  set (p' := {| tp_index := tp_index p; tp_originalname := tp_originalname p;
                tp_atype := tp_atype p; tp_root := tp_root p;
                tp_members := tp_members p;
                tp_transformed :=
                  if bool_decide (symbol ∈ tp_transformed p) then tp_transformed p
                  else (tp_transformed p ++ [symbol])%list;
                tp_required := <[memberid := true]> (tp_required p);
                tp_sym2obj := <[symbol := (memberid, attr)]> (tp_sym2obj p) |}).
  rewrite Hidx, Hp1.
  assert (symbol ∈ tp_transformed p') as Hin.
  { cbn. destruct (bool_decide (symbol ∈ tp_transformed p)) eqn:E.
    - apply bool_decide_eq_true in E. exact E.
    - apply elem_of_app. right. left. }
  assert (well_kept i (Transformed p')) as Hkept'.
  { split; [exact Hidx|]. cbn. split; [rewrite length_insert; exact Hlen|]. split.
    - destruct (bool_decide (symbol ∈ tp_transformed p)) eqn:E; [exact Hnd|].
      apply bool_decide_eq_false in E. apply NoDup_app. split; [exact Hnd|]. split.
      + intros x Hx Hx'. apply list_elem_of_singleton in Hx' as ->. contradiction.
      + apply NoDup_singleton.
    - intros s Hs. destruct (decide (symbol = s)) as [<-|Hne].
      + rewrite lookup_insert_eq. eauto.
      + rewrite lookup_insert_ne by exact Hne. apply Hobj.
        destruct (bool_decide (symbol ∈ tp_transformed p)); [exact Hs|].
        apply elem_of_app in Hs as [Hs|Hs]; [exact Hs|].
        apply list_elem_of_singleton in Hs. congruence. }
  split; [|split; [|split; [|split; [|split]]]].
  - intros j q Hq. cbn [parameters set_parameters] in Hq.
    apply list_lookup_insert_Some in Hq as [(<- & <- & _)|(Hne & Hq)].
    + exact Hkept'.
    + apply Hkept. exact Hq.
  - exists i, p'. split; [exact Ha|]. split.
    + cbn [parameters set_parameters]. apply list_lookup_insert_eq. exact Hi.
    + split; [exact Hin|]. split; [cbn; apply lookup_insert_eq|].
      unfold required_members. apply list_elem_of_omap.
      exists (memberid, true). split; [|reflexivity].
      apply (list_elem_of_lookup_2 _ memberid). apply lookup_zip_Some. split.
      * apply lookup_seq. split; [reflexivity | exact Hmlt].
      * cbn. apply list_lookup_insert_eq. lia.
  - unfold require, rule_bind, the_parameter, parameter_named, lift, member.
    rewrite Ha. cbn [parameters set_parameters].
    rewrite (list_lookup_insert_eq _ _ _ Hi). cbn [bind fst snd tp_members p'].
    rewrite Hm. cbn [bind fst snd tp_index p'].
    assert (sym ("par" +s pretty (tp_index p) +s "_mem" +s pretty memberid +s "_"
                 +s format_name (schema_name m) +s "_" +s attr)
                (set_parameters st1 (<[i := Transformed p']> (parameters st)))
            = Ok (symbol, set_parameters st1 (<[i := Transformed p']> (parameters st))))
      as ->.
    { unfold sym. cbn [sym_names set_parameters]. rewrite Hn1. reflexivity. }
    cbn [bind fst snd parameters set_parameters tp_index tp_transformed tp_required
         tp_sym2obj tp_originalname tp_atype tp_root tp_members p'].
    rewrite Hidx.
    assert (bool_decide (symbol ∈ tp_transformed p') = true) as Hb
      by (apply bool_decide_eq_true; exact Hin).
    cbn [tp_transformed p'] in Hb. rewrite Hb.
    rewrite list_insert_insert_eq, insert_insert_eq, list_insert_insert_eq.
    unfold p'. rewrite ?Hidx. reflexivity.
  - cbn [parameters set_parameters]. rewrite length_insert. reflexivity.
  - cbn. exact Ht1.
  - cbn. exact He1.
Qed.

Lemma arguments_Transformed resolved p rest args :
  arguments resolved (Transformed p :: rest) args
  = (arrays <- lookup_arrays resolved p (tp_transformed p) ;;
     more <- arguments resolved rest args ;; Ok (arrays ++ more)%list).
Proof. reflexivity. Qed.

Lemma lookup_arrays_ok resolved p (symbols : list string) :
  (forall symbol, symbol ∈ symbols ->
     exists memberid attr a,
       tp_sym2obj p !! symbol = Some (memberid, attr) /\
       resolved (tp_index p) memberid attr = Some a) ->
  exists arrays, lookup_arrays resolved p symbols = Ok arrays /\
    map fst arrays = symbols /\
    Forall (fun sv => exists a, snd sv = VArray a) arrays.
Proof.
  induction symbols as [|s symbols IH]; intros Hall.
  - exists []. split; [reflexivity|]. split; [reflexivity | constructor].
  - destruct (Hall s ltac:(left)) as (m & attr & a & Hobj & Hres).
    destruct IH as (arrays & Hrun & Hnames & Hvals).
    { intros s' Hs'. apply Hall. right. exact Hs'. }
    exists ((s, VArray a) :: arrays). cbn [lookup_arrays]. fold (lookup_arrays resolved p).
    rewrite Hobj, Hres, Hrun. split; [reflexivity|]. split.
    + cbn. rewrite Hnames. reflexivity.
    + constructor; [eexists; reflexivity | exact Hvals].
Qed.

(** [Compiled.__call__] lines up the arguments: with an array for every
    array argument, it takes exactly as many extra arguments as the
    function has parameters that are not columns, raises [TypeError] on
    fewer and on more, and otherwise binds the names of the compiled
    function in order, the extra arguments to their parameters. *)
Theorem arguments_arity (resolved : nat -> nat -> string -> option (list Z))
    (order : list parameter) : forall args : list rtval,
  resolvable resolved order ->
  ((length args < extra_arguments order)%nat ->
     arguments resolved order args
     = Raise (TypeError "too few extra (non-columnar object) arguments provided")) /\
  ((extra_arguments order < length args)%nat ->
     arguments resolved order args
     = Raise (TypeError "too many extra (non-columnar object) arguments provided")) /\
  (length args = extra_arguments order ->
     exists bound, arguments resolved order args = Ok bound /\
       map fst bound = argument_names order /\
       args `sublist_of` map snd bound).
Proof.
  induction order as [|prm order IH]; intros args Hres.
  - cbn. destruct args as [|v args]; cbn.
    + split; [lia|]. split; [lia|]. intros _. exists [].
      split; [reflexivity|]. split; [reflexivity | constructor].
    + split; [lia|]. split; [reflexivity|]. discriminate.
  - assert (resolvable resolved order) as Hres'.
    { intros p s Hp Hs. apply (Hres p s); [right; exact Hp | exact Hs]. }
    destruct prm as [index originalname dflt|p].
    + change (extra_arguments (PlainParameter index originalname dflt :: order))
        with (S (extra_arguments order)).
      cbn [arguments]. destruct args as [|v args].
      * split; [reflexivity|]. split; [cbn; lia|]. discriminate.
      * destruct (IH args Hres') as (Hfew & Hmany & Hok). cbn [length].
        split; [|split].
        -- intros Hlt. rewrite Hfew by lia. reflexivity.
        -- intros Hgt. rewrite Hmany by lia. reflexivity.
        -- intros Heq. destruct Hok as (bound & Hrun & Hnames & Hvals); [lia|].
           exists ((originalname, v) :: bound). rewrite Hrun. split; [reflexivity|].
           split; [cbn; rewrite Hnames; reflexivity|].
           cbn [map snd]. apply sublist_skip. exact Hvals.
    + change (extra_arguments (Transformed p :: order)) with (extra_arguments order).
      rewrite arguments_Transformed.
      destruct (lookup_arrays_ok resolved p (tp_transformed p))
        as (arrays & -> & Hanames & Havals).
      { intros s Hs. apply (Hres p s); [left | exact Hs]. }
      cbn [bind]. destruct (IH args Hres') as (Hfew & Hmany & Hok).
      split; [|split].
      * intros Hlt. rewrite (Hfew Hlt). reflexivity.
      * intros Hgt. rewrite (Hmany Hgt). reflexivity.
      * intros Heq. destruct (Hok Heq) as (bound & Hrun & Hnames & Hvals).
        exists (arrays ++ bound)%list. rewrite Hrun. split; [reflexivity|]. split.
        -- rewrite map_app, Hanames, Hnames. reflexivity.
        -- rewrite map_app. apply sublist_inserts_l. exact Hvals.
Qed.

Section expr_induction.

Variable P : expr -> Prop.
Hypothesis HNum : forall n a, P (Num n a).
Hypothesis HName : forall id c a, P (Name id c a).
Hypothesis HNameConstant : forall value a, P (NameConstant value a).
Hypothesis HAttribute : forall value attr a, P value -> P (Attribute value attr a).
Hypothesis HSubscript : forall value index a,
  P value -> (forall i, index = Some i -> P i) -> P (Subscript value index a).
Hypothesis HCall : forall func args a, P func -> Forall P args -> P (Call func args a).
Hypothesis HIfExp : forall test body orelse a,
  P test -> P body -> P orelse -> P (IfExp test body orelse a).
Hypothesis HTuple : forall elts c a, Forall P elts -> P (Tuple elts c a).
Hypothesis HListNode : forall elts c a, Forall P elts -> P (ListNode elts c a).
Hypothesis HReturn : forall value a, P value -> P (Return value a).
Hypothesis HAssign : forall targets value a,
  Forall P targets -> P value -> P (Assign targets value a).
Hypothesis HExpr : forall value a, P value -> P (Expr value a).
Hypothesis HNoNode : P NoNode.

Fixpoint expr_nested_ind (node : expr) : P node :=
  let all :=
    (fix all (l : list expr) : Forall P l :=
       match l with
       | [] => @List.Forall_nil _ P
       | x :: l' => @List.Forall_cons _ P x l' (expr_nested_ind x) (all l')
       end) in
  match node with
  | Num n a => HNum n a
  | Name id c a => HName id c a
  | NameConstant value a => HNameConstant value a
  | Attribute value attr a => HAttribute value attr a (expr_nested_ind value)
  | Subscript value index a =>
      HSubscript value index a (expr_nested_ind value)
        (match index return forall i, index = Some i -> P i with
         | Some j => fun i E => eq_ind j P (expr_nested_ind j) i (Some_inj _ _ E)
         | None => fun i E => match Some_ne_None _ (eq_sym E) with end
         end)
  | Call func args a => HCall func args a (expr_nested_ind func) (all args)
  | IfExp test body orelse a =>
      HIfExp test body orelse a (expr_nested_ind test) (expr_nested_ind body)
        (expr_nested_ind orelse)
  | Tuple elts c a => HTuple elts c a (all elts)
  | ListNode elts c a => HListNode elts c a (all elts)
  | Return value a => HReturn value a (expr_nested_ind value)
  | Assign targets value a => HAssign targets value a (all targets) (expr_nested_ind value)
  | Expr value a => HExpr value a (expr_nested_ind value)
  | NoNode => HNoNode
  end.

End expr_induction.

(** A key that is not among the names of the replacements has none. *)
Lemma replacement_unmentioned (replacements : list (string * expr)) (key : string) :
  existsb (String.eqb key) (map fst replacements) = false ->
  replacement replacements key = None.
Proof.
  induction replacements as [|[k node] rest IH]; [reflexivity|].
  cbn [map fst existsb replacement]. intros H.
  apply orb_false_iff in H. destruct H as [Hk Hrest].
  rewrite String.eqb_sym, Hk. exact (IH Hrest).
Qed.

Lemma entered_unmentioned (replacements : list (string * expr))
    (inside : option (expr -> result expr)) (fields : expr -> result expr) (x : expr) :
  mentions (map fst replacements) x = false -> fields x = Ok x ->
  entered replacements inside fields x = Ok x.
Proof.
  intros Hx Hf. destruct x; try exact Hf.
  cbn [mentions] in Hx. cbn [entered].
  rewrite (replacement_unmentioned _ _ Hx). exact Hf.
Qed.

Lemma mentions_any (keys : list string) (l : list expr) :
  (fix any (nodes : list expr) : bool :=
     match nodes with
     | [] => false
     | n :: rest => mentions keys n || any rest
     end) l = existsb (mentions keys) l.
Proof. induction l as [|x l IH]; [reflexivity|]. cbn [existsb]. rewrite IH. reflexivity. Qed.

Lemma each_unmentioned (replacements : list (string * expr))
    (inside : option (expr -> result expr)) (l : list expr) :
  Forall (fun x => mentions (map fst replacements) x = false ->
                   fields_with replacements inside x = Ok x) l ->
  existsb (mentions (map fst replacements)) l = false ->
  (fix each (nodes : list expr) : result (list expr) :=
     match nodes with
     | [] => Ok []
     | n :: rest =>
         n' <- entered replacements inside (fields_with replacements inside) n ;;
         rest' <- each rest ;;
         Ok (n' :: rest')
     end) l = Ok l.
Proof.
  induction 1 as [|x l Hx Hl IH]; [reflexivity|].
  cbn [existsb]. intros H. apply orb_false_iff in H. destruct H as [H1 H2].
  rewrite (entered_unmentioned _ _ _ _ H1 (Hx H1)). cbn [bind].
  rewrite (IH H2). reflexivity.
Qed.

(** [compose] leaves a node as it is in which it finds no key. *)
Lemma fields_with_unmentioned (replacements : list (string * expr))
    (inside : option (expr -> result expr)) (x : expr) :
  mentions (map fst replacements) x = false -> fields_with replacements inside x = Ok x.
Proof.
  induction x as [n a|id c a|value a|value attr a IH|value index a IH IHi
                 |func args a IHf IHargs|test body orelse a IH1 IH2 IH3
                 |elts c a IHelts|elts c a IHelts|value a IH
                 |targets value a IHt IH|value a IH|] using expr_nested_ind;
    intros Hx; cbn [mentions] in Hx; rewrite ?mentions_any in Hx;
    try reflexivity.
  - apply orb_false_iff in Hx. destruct Hx as [Hattr Hv].
    cbn [fields_with]. rewrite (replacement_unmentioned _ _ Hattr).
    rewrite (entered_unmentioned _ _ _ _ Hv (IH Hv)). reflexivity.
  - apply orb_false_iff in Hx. destruct Hx as [Hv Hi].
    cbn [fields_with]. rewrite (entered_unmentioned _ _ _ _ Hv (IH Hv)). cbn [bind].
    destruct index as [i|]; [|discriminate Hi].
    rewrite (entered_unmentioned _ _ _ _ Hi (IHi i eq_refl Hi)). reflexivity.
  - apply orb_false_iff in Hx. destruct Hx as [Hf Hargs].
    cbn [fields_with]. rewrite (entered_unmentioned _ _ _ _ Hf (IHf Hf)). cbn [bind].
    rewrite (each_unmentioned _ _ _ IHargs Hargs). reflexivity.
  - apply orb_false_iff in Hx. destruct Hx as [Hx Ho].
    apply orb_false_iff in Hx. destruct Hx as [Ht Hb].
    cbn [fields_with]. rewrite (entered_unmentioned _ _ _ _ Ht (IH1 Ht)). cbn [bind].
    rewrite (entered_unmentioned _ _ _ _ Hb (IH2 Hb)). cbn [bind].
    rewrite (entered_unmentioned _ _ _ _ Ho (IH3 Ho)). reflexivity.
  - cbn [fields_with]. rewrite (each_unmentioned _ _ _ IHelts Hx). reflexivity.
  - cbn [fields_with]. rewrite (each_unmentioned _ _ _ IHelts Hx). reflexivity.
  - cbn [fields_with]. rewrite (entered_unmentioned _ _ _ _ Hx (IH Hx)). reflexivity.
  - apply orb_false_iff in Hx. destruct Hx as [Ht Hv].
    cbn [fields_with]. rewrite (each_unmentioned _ _ _ IHt Ht). cbn [bind].
    rewrite (entered_unmentioned _ _ _ _ Hv (IH Hv)). reflexivity.
  - cbn [fields_with]. rewrite (entered_unmentioned _ _ _ _ Hx (IH Hx)). reflexivity.
Qed.

Lemma substituted_unmentioned (levels : nat) (replacements : list (string * expr))
    (x : expr) :
  mentions (map fst replacements) x = false -> substituted levels replacements x = Ok x.
Proof. intros Hx. destruct levels; apply fields_with_unmentioned; exact Hx. Qed.

(** The template of [generate] filled with three nodes that have none of
    its names is the conditional expression of the three. *)
Lemma toexpr_conditional (result predicate alternate : expr) (a : atype) :
  mentions template_names result = false ->
  mentions template_names predicate = false ->
  mentions template_names alternate = false ->
  toexpr conditional_template a
    [("CONSEQUENT", result); ("PREDICATE", predicate); ("ALTERNATE", alternate)]
  = Ok (IfExp predicate result alternate a).
Proof.
  intros Hr Hp Ha. unfold toexpr, compose, conditional_template.
  cbn [length entered]. cbn [substituted fields_with entered].
  change (replacement [("CONSEQUENT", result); ("PREDICATE", predicate);
                       ("ALTERNATE", alternate)] "PREDICATE") with (Some predicate).
  change (replacement [("CONSEQUENT", result); ("PREDICATE", predicate);
                       ("ALTERNATE", alternate)] "CONSEQUENT") with (Some result).
  change (replacement [("CONSEQUENT", result); ("PREDICATE", predicate);
                       ("ALTERNATE", alternate)] "ALTERNATE") with (Some alternate).
  cbv iota beta.
  rewrite (fields_with_unmentioned
             [("CONSEQUENT", result); ("PREDICATE", predicate); ("ALTERNATE", alternate)]
             _ predicate Hp).
  cbn [bind].
  rewrite (fields_with_unmentioned
             [("CONSEQUENT", result); ("PREDICATE", predicate); ("ALTERNATE", alternate)]
             _ result Hr).
  cbn [bind].
  rewrite (fields_with_unmentioned
             [("CONSEQUENT", result); ("PREDICATE", predicate); ("ALTERNATE", alternate)]
             _ alternate Ha).
  reflexivity.
Qed.

Lemma conditional_unmentioned (h : nat -> expr) (p : Possibility) (alternate : expr) :
  (forall s, mentions template_names (h s) = false) ->
  (forall c, condition_of p = Some c -> mentions template_names c = false) ->
  mentions template_names alternate = false ->
  mentions template_names (conditional h p alternate) = false.
Proof.
  intros Hh Hp Ha. unfold conditional.
  destruct (condition_of p) as [predicate|]; [|exact Ha].
  destruct (atype_of (h (schema_of p))); [|exact Ha].
  cbn [mentions]. rewrite (Hp predicate eq_refl), (Hh (schema_of p)), Ha. reflexivity.
Qed.

Lemma generate_loop_conditional (h : nat -> expr) (st : state) :
  (forall s, is_ok (atype_of (h s)) = true) ->
  (forall s, mentions template_names (h s) = false) ->
  forall (init : list Possibility) (alternate : expr),
  Forall (fun p => forall c, condition_of p = Some c ->
                             mentions template_names c = false) init ->
  mentions template_names alternate = false ->
  (Forall (fun p => condition_of p <> None) init ->
     generate_loop (fun s => ret (h s)) (rev init) (Some alternate) st
     = Ok (Some (fold_right (conditional h) alternate init), st)) /\
  (Exists (fun p => condition_of p = None) init ->
     generate_loop (fun s => ret (h s)) (rev init) (Some alternate) st
     = Raise AssertionError).
Proof.
  intros Hty Hh init. induction init as [|p init IH] using rev_ind;
    intros alternate Hconds Ha.
  - split; [reflexivity|]. intros H. inversion H.
  - rewrite rev_unit.
    apply Forall_app in Hconds as [Hinit Hp]. apply Forall_cons in Hp as [Hp _].
    assert (generate_loop (fun s => ret (h s)) (p :: rev init) (Some alternate) st
            = match condition_of p with
              | Some _ =>
                  generate_loop (fun s => ret (h s)) (rev init)
                                (Some (conditional h p alternate)) st
              | None => Raise AssertionError
              end) as ->.
    { cbn [generate_loop]. unfold rule_bind at 1. unfold ret at 1. cbn [bind fst snd].
      unfold conditional.
      destruct (condition_of p) as [predicate|] eqn:Ec; [|reflexivity].
      unfold rule_bind at 1. unfold lift at 1. specialize (Hty (schema_of p)).
      destruct (atype_of (h (schema_of p))) as [a|] eqn:Ea; [|discriminate].
      cbn [bind fst snd]. unfold rule_bind at 1. unfold lift at 1.
      rewrite (toexpr_conditional _ _ _ a (Hh (schema_of p)) (Hp predicate eq_refl) Ha).
      reflexivity. }
    rewrite fold_right_app. cbn [fold_right].
    pose proof (conditional_unmentioned h p alternate Hh Hp Ha) as Ha'.
    destruct (condition_of p) as [predicate|] eqn:Ec.
    + split.
      * intros Hall. apply Forall_app in Hall as [Hall _].
        apply (proj1 (IH _ Hinit Ha')). exact Hall.
      * intros Hex. apply Exists_app in Hex as [Hex|Hex];
          [apply (proj2 (IH _ Hinit Ha')); exact Hex|].
        apply Exists_cons in Hex as [Hex|Hex]; [congruence | inversion Hex].
    + split; [|reflexivity].
      intros Hall. apply Forall_app in Hall as [_ Hall].
      apply Forall_cons in Hall as [Hq _]. contradiction.
Qed.

(** The substitution of [compose] goes on inside the node put in: a result
    [f(ALTERNATE)] of the handler has the alternative put in its
    argument; and a result [f(CONSEQUENT)], which would be put in inside
    itself without end, makes [compose] fail. *)
Lemma compose_goes_inside :
  let call_of (id : string) :=
    Call (Name "f" Load untracked) [Name id Load untracked] untracked in
  toexpr conditional_template untracked
    [("CONSEQUENT", call_of "ALTERNATE"); ("PREDICATE", Name "p" Load untracked);
     ("ALTERNATE", Num 0 untracked)]
  = Ok (IfExp (Name "p" Load untracked)
              (Call (Name "f" Load untracked) [Num 0 untracked] untracked)
              (Num 0 untracked) untracked) /\
  toexpr conditional_template untracked
    [("CONSEQUENT", call_of "CONSEQUENT"); ("PREDICATE", Name "p" Load untracked);
     ("ALTERNATE", Num 0 untracked)]
  = Raise RecursionError.
Proof. split; vm_compute; reflexivity. Qed.

(** [generate] with a handler that only builds a node, and that builds,
    like the conditions, no node with a name of the template of
    [generate] in it: the possibilities must be conditional but for the
    last, which must not be, else the assertions fail; then the result
    tests the conditions in the order of the possibilities and ends on the
    last one. *)
Theorem generate_chain (h : nat -> expr) (init : list Possibility) (last : Possibility)
    (parameter : option nat) (isparameter is_nullable : bool) (st : state) :
  (forall s, is_ok (atype_of (h s)) = true) ->
  (forall s, mentions template_names (h s) = false) ->
  Forall (fun p => forall c, condition_of p = Some c ->
                             mentions template_names c = false) init ->
  let self := ArrowedType (init ++ [last]) parameter isparameter is_nullable in
  (condition_of last = None /\ Forall (fun p => condition_of p <> None) init ->
     generate self (fun s => ret (h s)) st
     = Ok (fold_right (conditional h) (h (schema_of last)) init, st)) /\
  (condition_of last <> None \/ Exists (fun p => condition_of p = None) init ->
     generate self (fun s => ret (h s)) st = Raise AssertionError).
Proof.
  intros Hty Hh Hconds self.
  destruct (generate_loop_conditional h st Hty Hh init (h (schema_of last)) Hconds
              (Hh (schema_of last))) as [Hok Hbad].
  assert (generate self (fun s => ret (h s)) st
          = match condition_of last with
            | None =>
                r <- generate_loop (fun s => ret (h s)) (rev init)
                                   (Some (h (schema_of last))) st ;;
                Ok (default NoNode (fst r), snd r)
            | Some _ => Raise AssertionError
            end) as ->.
  { unfold self, generate. cbn [possibilities_of]. rewrite rev_unit.
    unfold rule_bind at 1. cbn [generate_loop].
    unfold rule_bind at 1. unfold ret at 1. cbn [bind fst snd].
    destruct (condition_of last); reflexivity. }
  destruct (condition_of last) as [predicate|] eqn:Ec.
  - split; [intros [H _]; discriminate | intros _; reflexivity].
  - split.
    + intros [_ Hall]. rewrite (Hok Hall). reflexivity.
    + intros [H|Hex]; [contradiction|]. rewrite (Hbad Hex). reflexivity.
Qed.

(** [compiled_fact t] evaluates the closed part of [t] and records the
    result as an equation. *)
Ltac compiled_fact t :=
  let v := eval vm_compute in t in
  assert (t = v) by (vm_compute; reflexivity).

(** [lookup_locals] evaluates the lookups in the local variables. *)
Ltac lookup_locals :=
  repeat match goal with
         | |- context [@lookup string rtval (gmap string rtval) _ ?k (list_to_map ?l)] =>
             let v := eval vm_compute in ((list_to_map l : gmap string rtval) !! k) in
             replace ((list_to_map l : gmap string rtval) !! k) with v
               by (vm_compute; reflexivity)
         end.

(** [run_compiled python f types resolved args] compiles [f] and steps the call of
    the result on the given arrays and extra arguments up to the calls of
    the run-time helpers. *)
Ltac run_compiled python f types resolved args :=
  compiled_fact (c <- compile python f types ∅ ;; Ok (c_body c));
  compiled_fact (c <- compile python f types ∅ ;; arguments resolved (c_parameters c) args);
  compiled_fact (c <- compile python f types ∅ ;;
                 Ok (c_env c !! "listget", c_env c !! "listlen", c_env c !! "passnone",
                     c_env c !! "refusenone"));
  destruct (compile python f types ∅) as [c|err]; [|discriminate];
  cbn [bind] in *;
  repeat match goal with H : Ok _ = Ok _ |- _ => injection H as H end;
  exists c; split; [reflexivity|];
  unfold call_compiled;
  repeat match goal with
         | H : arguments _ _ _ = _ |- _ => rewrite H; clear H
         | H : c_body _ = _ |- _ => rewrite H; clear H
         end;
  cbn [exec eval]; lookup_locals;
  cbn [njit_bind apply as_index refusenone passnone fmap option_fmap option_map];
  repeat match goal with
         | H : c_env _ !! _ = _ |- _ => rewrite H; clear H
         end;
  cbn [njit_bind apply as_index refusenone passnone fmap option_fmap option_map].

Lemma item_steps (eval_callee : callee_evaluation)
    (list_nullable content_nullable : bool) (starts stops data : list Z) (i : Z) :
  exists c : Compiled,
    compile eval_callee f_item (list_of list_nullable content_nullable) ∅ = Ok c /\
    call_compiled c (arrays_of starts stops data) [VInt i]
    = (k <~ listget starts stops 0 i ;; x <~ array_read data k ;; Some (Ok (VInt x))).
Proof.
  destruct list_nullable, content_nullable.
  - run_compiled eval_callee f_item (list_of true true) (arrays_of starts stops data) [VInt i].
    change (wrap32 0) with 0.
    destruct (listget starts stops 0 i) as [[k|e]|]; try reflexivity.
    cbn [njit_bind apply as_index refusenone passnone fmap option_fmap option_map].
    destruct (array_read data k) as [[x|e]|]; reflexivity.
  - run_compiled eval_callee f_item (list_of true false) (arrays_of starts stops data) [VInt i].
    change (wrap32 0) with 0.
    destruct (listget starts stops 0 i) as [[k|e]|]; reflexivity.
  - run_compiled eval_callee f_item (list_of false true) (arrays_of starts stops data) [VInt i].
    destruct (listget starts stops 0 i) as [[k|e]|]; try reflexivity.
    cbn [njit_bind apply as_index refusenone passnone fmap option_fmap option_map].
    destruct (array_read data k) as [[x|e]|]; reflexivity.
  - run_compiled eval_callee f_item (list_of false false) (arrays_of starts stops data) [VInt i].
    destruct (listget starts stops 0 i) as [[k|e]|]; reflexivity.
Qed.

Lemma item_too_few (eval_callee : callee_evaluation)
    (list_nullable content_nullable : bool) (starts stops data : list Z) :
  (c <- compile eval_callee f_item (list_of list_nullable content_nullable) ∅ ;;
   arguments (arrays_of starts stops data) (c_parameters c) [])
  = Raise (TypeError "too few extra (non-columnar object) arguments provided").
Proof. destruct list_nullable, content_nullable; vm_compute; reflexivity. Qed.

(** Subscripts through [compile]: [def f(x, i): return x[i]], compiled
    for [x] a list of integers, the list and its content nullable or not,
    and called on any arrays and any index that numba takes as an
    [int64], reads the position that [listget] gives in the array of the
    content.  [listget] sees the index cast to [int32], [j] below, which
    is the index itself when it fits: on a list that runs from [b] to [e]
    the call returns [data[b + j]] for [0 <= j < e - b], [data[e + j]]
    for [-(e - b) <= j < 0], and raises [IndexError] for any other [j].
    The result is the same for the four combinations of [nullable].
    Without its extra argument the call is a [TypeError]. *)
Theorem item_through_compile (eval_callee : callee_evaluation)
    (list_nullable content_nullable : bool) (starts stops data : list Z) (i : Z) :
  int64 i ->
  exists c : Compiled,
    compile eval_callee f_item (list_of list_nullable content_nullable) ∅ = Ok c /\
    call_compiled c (arrays_of starts stops data) [VInt i]
    = (k <~ listget starts stops 0 i ;; x <~ array_read data k ;; Some (Ok (VInt x))) /\
    call_compiled c (arrays_of starts stops data) []
    = Some (Raise (TypeError "too few extra (non-columnar object) arguments provided")) /\
    (int32 i -> wrap32 i = i) /\
    forall b e : Z,
      array_read starts 0 = Some (Ok b) -> array_read stops 0 = Some (Ok e) ->
      int32 b -> int32 e ->
      call_compiled c (arrays_of starts stops data) [VInt i]
      = let j := wrap32 i in
        if (0 <=? j) && (j <? e - b) then
          x <~ array_read data (b + j) ;; Some (Ok (VInt x))
        else if (- (e - b) <=? j) && (j <? 0) then
          x <~ array_read data (e + j) ;; Some (Ok (VInt x))
        else Some (Raise (IndexError "index out of range")).
Proof.
  intros _.
  destruct (item_steps eval_callee list_nullable content_nullable starts stops data i)
    as (c & Hc & Hcall).
  pose proof (item_too_few eval_callee list_nullable content_nullable starts stops data) as Hfew.
  rewrite Hc in Hfew. cbn [bind] in Hfew.
  exists c. split; [exact Hc|]. split; [exact Hcall|]. split.
  { unfold call_compiled. rewrite Hfew. reflexivity. }
  split; [exact (wrap32_int32 i)|].
  intros b e Hb He Hib Hie. rewrite Hcall, (listget_casts starts stops 0 i).
  change (wrap32 0) with 0.
  assert (int32 0) as H0 by (unfold int32; lia).
  rewrite (listget_value _ _ 0 (wrap32 i) b e H0 (wrap32_range i) Hb He Hib Hie).
  cbv zeta.
  destruct ((0 <=? wrap32 i) && (wrap32 i <? e - b)); [reflexivity|].
  destruct ((- (e - b) <=? wrap32 i) && (wrap32 i <? 0)); reflexivity.
Qed.

Lemma len_steps (eval_callee : callee_evaluation) (content_nullable : bool)
    (starts stops data : list Z) :
  exists c : Compiled,
    compile eval_callee f_len (list_of false content_nullable) ∅ = Ok c /\
    call_compiled c (arrays_of starts stops data) []
    = (n <~ listlen starts stops 0 ;; Some (Ok (VInt n))).
Proof.
  destruct content_nullable.
  - run_compiled eval_callee f_len (list_of false true) (arrays_of starts stops data) (@nil rtval).
    reflexivity.
  - run_compiled eval_callee f_len (list_of false false) (arrays_of starts stops data) (@nil rtval).
    reflexivity.
Qed.

Lemma len_too_many (eval_callee : callee_evaluation) (content_nullable : bool)
    (starts stops data : list Z) (v : rtval) :
  (c <- compile eval_callee f_len (list_of false content_nullable) ∅ ;;
   arguments (arrays_of starts stops data) (c_parameters c) [v])
  = Raise (TypeError "too many extra (non-columnar object) arguments provided").
Proof. destruct content_nullable; vm_compute; reflexivity. Qed.

(** [len] through [compile]: [def f(x): return len(x)], compiled for [x]
    a list of integers that is not nullable and called on any arrays,
    returns what [listlen] computes from the bounds of the list: [e - b]
    for a list that runs from [b] to [e], when that fits 32 bits; an extra
    argument is a [TypeError].  For a nullable list the function does not
    compile: the rule of [len] reads [node.value], which a [Call] does not
    have. *)
Theorem len_of_list_through_compile (eval_callee : callee_evaluation)
    (list_nullable content_nullable : bool) (starts stops data : list Z) :
  if list_nullable then
    compile eval_callee f_len (list_of true content_nullable) ∅
    = Raise (AttributeError "'Call' object has no attribute 'value'")
  else
    exists c : Compiled,
      compile eval_callee f_len (list_of false content_nullable) ∅ = Ok c /\
      call_compiled c (arrays_of starts stops data) []
      = (n <~ listlen starts stops 0 ;; Some (Ok (VInt n))) /\
      (forall v, call_compiled c (arrays_of starts stops data) [v]
         = Some (Raise (TypeError "too many extra (non-columnar object) arguments provided"))) /\
      forall b e : Z,
        array_read starts 0 = Some (Ok b) -> array_read stops 0 = Some (Ok e) ->
        int32 (e - b) ->
        call_compiled c (arrays_of starts stops data) [] = Some (Ok (VInt (e - b))).
Proof.
  destruct list_nullable.
  { destruct content_nullable; vm_compute; reflexivity. }
  destruct (len_steps eval_callee content_nullable starts stops data) as (c & Hc & Hcall).
  exists c. split; [exact Hc|]. split; [exact Hcall|]. split.
  { intros v. pose proof (len_too_many eval_callee content_nullable starts stops data v) as Hmany.
    rewrite Hc in Hmany. cbn [bind] in Hmany.
    unfold call_compiled. rewrite Hmany. reflexivity. }
  intros b e Hb He Hfit. rewrite Hcall. unfold listlen. change (wrap32 0) with 0.
  cbv zeta. rewrite Hb, He. cbn [njit_bind].
  rewrite (wrap32_int32 _ Hfit). reflexivity.
Qed.

Lemma generate_single (i m : nat) (isp nul : bool) (handler : nat -> rule expr)
    (st : state) :
  generate (member_of i m isp nul) handler st
  = (r <- handler m st ;; Ok (fst r, snd r)).
Proof.
  unfold generate, member_of. cbn [possibilities_of rev app generate_loop condition_of
                                   schema_of].
  unfold rule_bind, ret. destruct (handler m st) as [[e st']|err]; reflexivity.
Qed.

(** [require] returns when the parameter is there and has the member. *)
Lemma require_ok (i m : nat) (isp nul : bool) (attr : string) (st : state)
    (p : TransformedParameter) (sch : schema) :
  parameters st !! i = Some (Transformed p) -> tp_index p = i ->
  tp_members p !! m = Some sch ->
  exists symbol st' p',
    require (member_of i m isp nul) m attr st = Ok (symbol, st') /\
    parameters st' !! i = Some (Transformed p') /\ tp_index p' = i /\
    tp_members p' = tp_members p /\ env st' = env st.
Proof.
  intros Hp Hidx Hm. unfold require, rule_bind, the_parameter, parameter_named, lift, member.
  cbn [member_of parameter_of]. rewrite Hp. cbn [bind fst snd]. rewrite Hm. cbn [bind fst snd].
  destruct (sym ("par" +s pretty (tp_index p) +s "_mem" +s pretty m +s "_"
                 +s format_name (schema_name sch) +s "_" +s attr) st)
    as [[symbol st1]|err] eqn:Es.
  2:{ unfold sym in Es. destruct (sym_names st !! _); discriminate. }
  destruct (sym_memo _ _ _ _ Es) as (_ & _ & _ & Hp1 & He1 & _ & _).
  cbn [bind fst snd]. eexists _, _, _. split; [reflexivity|].
  cbn [parameters set_parameters env]. rewrite Hidx, Hp1. split.
  - apply list_lookup_insert_eq. apply lookup_lt_Some in Hp. exact Hp.
  - cbn. auto.
Qed.

(** The rules check the class of the schema: a subscript or [len] of what is
    not a list, and an attribute of what is not a record, are
    [TypeError]s, and an attribute that the record does not have is an
    [AttributeError]. *)
Theorem wrong_kind_is_refused (st : state) (value : expr) (i m : nat) (isp nul : bool)
    (p : TransformedParameter) (sch : schema) (a : atype) :
  atype_of value = Ok (member_of i m isp nul) ->
  parameters st !! i = Some (Transformed p) -> tp_members p !! m = Some sch ->
  ((forall b n c, sch <> List b n c) ->
     (forall index, do_Subscript value (Some index) a st
                    = Raise (TypeError "object is not a list")) /\
     (forall id c a0, env st !! id = Some fn_len ->
        do_Call (Name id c a0) [value] a st = Raise (TypeError "object is not a list"))) /\
  ((forall b n c, sch <> Record b n c) ->
     forall attr, do_Attribute value attr a st
                  = Raise (TypeError "object is not a record")) /\
  (forall b n contents attr, sch = Record b n contents ->
     Schema.fields_get contents attr = None ->
     exists msg, do_Attribute value attr a st = Raise (AttributeError msg)).
Proof.
  intros Hv Hp Hm.
  assert (forall st0, parameters st0 = parameters st ->
            the_parameter (member_of i m isp nul) st0 = Ok (p, st0)) as Hthe.
  { intros st0 E. unfold the_parameter, parameter_named. cbn [member_of parameter_of].
    rewrite E, Hp. reflexivity. }
  split; [|split].
  - intros Hnot. split.
    + intros index. unfold do_Subscript, rule_bind at 1, lift. rewrite Hv. cbn [bind fst snd].
      cbn [member_of]. fold (member_of i m isp nul).
      unfold rule_bind at 1. rewrite generate_single.
      unfold rule_bind at 1. rewrite (Hthe st eq_refl). cbn [bind fst snd].
      unfold rule_bind at 1, lift, member. rewrite Hm. cbn [bind fst snd].
      destruct sch as [| b n c | |]; try reflexivity. destruct (Hnot b n c eq_refl).
    + intros id cx a0 Hlen. unfold do_Call. rewrite Hlen.
      unfold rule_bind at 1, lift. rewrite Hv. cbn [bind fst snd].
      cbn [member_of]. fold (member_of i m isp nul). rewrite generate_single.
      unfold rule_bind at 1. rewrite (Hthe st eq_refl). cbn [bind fst snd].
      unfold rule_bind at 1, lift, member. rewrite Hm. cbn [bind fst snd].
      destruct sch as [| b n c | |]; try reflexivity. destruct (Hnot b n c eq_refl).
  - intros Hnot attr. unfold do_Attribute, rule_bind at 1, lift. rewrite Hv. cbn [bind fst snd].
    cbn [member_of]. fold (member_of i m isp nul).
    unfold rule_bind at 1. rewrite generate_single.
    unfold rule_bind at 1. rewrite (Hthe st eq_refl). cbn [bind fst snd].
    unfold rule_bind at 1, lift, member. rewrite Hm. cbn [bind fst snd].
    destruct sch as [| | b n c |]; try reflexivity. destruct (Hnot b n c eq_refl).
  - intros b n contents attr -> Hget.
    unfold do_Attribute, rule_bind at 1, lift. rewrite Hv. cbn [bind fst snd].
    cbn [member_of]. fold (member_of i m isp nul).
    unfold rule_bind at 1. rewrite generate_single.
    unfold rule_bind at 1. rewrite (Hthe st eq_refl). cbn [bind fst snd].
    unfold rule_bind at 1, lift, member. rewrite Hm. cbn [bind fst snd].
    rewrite Hget. destruct n; eexists; reflexivity.
Qed.

(** [len] of a list that may be [None] does not compile: after the two
    bounds are required, the rule reads [node.value], which a [Call] does
    not have. *)
Theorem len_of_nullable_list_fails (st : state) (arg : expr) (i m : nat)
    (isp nul : bool) (p : TransformedParameter) (schema_is_nullable : bool)
    (name : option string) (contents : nat) (id : string) (c : ctx) (a0 a : atype) :
  env st !! id = Some fn_len ->
  atype_of arg = Ok (member_of i m isp nul) ->
  parameters st !! i = Some (Transformed p) -> tp_index p = i ->
  tp_members p !! m = Some (List schema_is_nullable name contents) ->
  nul || schema_is_nullable = true ->
  do_Call (Name id c a0) [arg] a st
  = Raise (AttributeError "'Call' object has no attribute 'value'").
Proof.
  intros Hlen Hv Hp Hidx Hm Hnull.
  destruct (require_ok i m isp nul "beginarray" st p _ Hp Hidx Hm)
    as (s1 & st1 & p1 & Hr1 & Hp1 & Hidx1 & Hm1 & _).
  rewrite <- Hm1 in Hm.
  destruct (require_ok i m isp nul "endarray" st1 p1 _ Hp1 Hidx1 Hm)
    as (s2 & st2 & p2 & Hr2 & _).
  unfold do_Call. rewrite Hlen.
  unfold rule_bind at 1, lift. rewrite Hv. cbn [bind fst snd].
  cbn [member_of]. fold (member_of i m isp nul). rewrite generate_single.
  unfold rule_bind at 1, the_parameter, parameter_named. cbn [member_of parameter_of].
  rewrite Hp. cbn [bind fst snd].
  unfold rule_bind at 1, lift, member. rewrite Hm1 in Hm. rewrite Hm. cbn [bind fst snd].
  fold (member_of i m isp nul).
  unfold rule_bind at 1. rewrite Hr1. cbn [bind fst snd].
  unfold rule_bind at 1. rewrite Hr2. cbn [bind fst snd].
  cbn [member_of nullable_of]. rewrite Hnull. reflexivity.
Qed.

Lemma parameter_state_kept (members : list schema) :
  parameters_kept (parameter_state members).
Proof.
  intros i prm Hi. destruct i as [|i]; cbn in Hi; [|discriminate].
  inversion Hi; subst prm. split; [reflexivity|]. cbn.
  split; [apply length_replicate|]. split; [constructor|].
  intros s H. inversion H.
Qed.

Lemma sym_distinct_witness :
  sym_consistent listget_taken /\
  exists st1 st2,
    sym "listget" listget_taken = Ok ("listget_2", st1) /\
    sym "listlen" st1 = Ok ("listlen", st2) /\
    ("listget" = "listlen" <-> "listget_2" = "listlen") /\ sym_consistent st2.
Proof.
  assert (sym_consistent listget_taken) as Hc.
  { split; intros k; intros; cbn in *; rewrite lookup_empty in *; discriminate. }
  split; [exact Hc|].
  assert ((r1 <- sym "listget" listget_taken ;; r2 <- sym "listlen" (snd r1) ;;
           Ok (fst r1, fst r2)) = Ok ("listget_2", "listlen")) as Hrun
    by (vm_compute; reflexivity).
  destruct (sym "listget" listget_taken) as [[s1 st1]|] eqn:E1; [|discriminate].
  cbn [bind fst snd] in Hrun.
  destruct (sym "listlen" st1) as [[s2 st2]|] eqn:E2; [|discriminate].
  cbn [bind fst snd] in Hrun. injection Hrun as -> ->.
  exists st1, st2. split; [reflexivity|]. split; [exact E2|].
  destruct (sym_distinct "listget" "listlen" listget_taken st1 st2 "listget_2" "listlen"
              Hc E1 E2) as (Hiff & _ & Hc2 & _).
  split; [exact Hiff | exact Hc2].
Defined.

Lemma bind_parameters_numbers_witness :
  exists st', bind_parameters x_is_list 0 [("x", None); ("i", None)] listget_taken
              = Ok (tt, st') /\
    parameters_kept st' /\ length (parameters st') = 2%nat.
Proof.
  assert (parameters_kept listget_taken) as Hk.
  { intros i prm Hi. cbn in Hi. rewrite lookup_nil in Hi. discriminate. }
  assert (is_ok (bind_parameters x_is_list 0 [("x", None); ("i", None)] listget_taken)
          = true) as Hrun by (vm_compute; reflexivity).
  destruct (bind_parameters x_is_list 0 [("x", None); ("i", None)] listget_taken)
    as [[[] st']|] eqn:E; [|discriminate].
  exists st'. split; [reflexivity|].
  destruct (bind_parameters_numbers x_is_list [("x", None); ("i", None)] listget_taken st'
              Hk E) as (Hk' & (new & Hnew & Hnames) & _).
  split; [exact Hk'|]. rewrite Hnew. cbn [parameters listget_taken app].
  rewrite <- (length_map parameter_originalname), Hnames. reflexivity.
Defined.

Lemma require_registers_witness :
  exists symbol st',
    require (member_of 0 0 true false) 0 "beginarray"
            (parameter_state (pt_members list_of_int64)) = Ok (symbol, st') /\
    parameters_kept st' /\
    require (member_of 0 0 true false) 0 "beginarray" st' = Ok (symbol, st').
Proof.
  destruct (require (member_of 0 0 true false) 0 "beginarray"
              (parameter_state (pt_members list_of_int64))) as [[symbol st']|] eqn:E;
    [|vm_compute in E; discriminate].
  exists symbol, st'. split; [reflexivity|].
  destruct (require_registers _ _ _ _ _ _ (parameter_state_kept _) E) as (Hk & _ & Hagain & _).
  split; [exact Hk | exact Hagain].
Defined.

Lemma arguments_arity_witness :
  resolvable (arrays_of [] [] []) [PlainParameter 0 "i" None] /\
  arguments (arrays_of [] [] []) [PlainParameter 0 "i" None] []
  = Raise (TypeError "too few extra (non-columnar object) arguments provided") /\
  arguments (arrays_of [] [] []) [PlainParameter 0 "i" None] [VInt 1; VInt 2]
  = Raise (TypeError "too many extra (non-columnar object) arguments provided").
Proof.
  assert (resolvable (arrays_of [] [] []) [PlainParameter 0 "i" None]) as Hres.
  { intros p s Hp. apply list_elem_of_singleton in Hp. discriminate. }
  split; [exact Hres|]. split.
  - apply (proj1 (arguments_arity _ _ [] Hres)). cbn. lia.
  - apply (proj1 (proj2 (arguments_arity _ _ [VInt 1; VInt 2] Hres))). cbn. lia.
Defined.

(** [generate] on two possibilities, the first under the condition [c]. *)
Lemma generate_chain_witness :
  (forall s, is_ok (atype_of (Num (Z.of_nat s) untracked)) = true) /\
  (forall s, mentions template_names (Num (Z.of_nat s) untracked) = false) /\
  mentions template_names (Name "c" Load untracked) = false /\
  generate (ArrowedType [Build_Possibility 0 (Some (Name "c" Load untracked));
                         Build_Possibility 1 None] None false false)
           (fun s => ret (Num (Z.of_nat s) untracked)) listget_taken
  = Ok (IfExp (Name "c" Load untracked) (Num 0 untracked) (Num 1 untracked) untracked,
        listget_taken).
Proof.
  split; [reflexivity|]. split; [reflexivity|]. split; [reflexivity|].
  apply (proj1 (generate_chain (fun s => Num (Z.of_nat s) untracked)
                  [Build_Possibility 0 (Some (Name "c" Load untracked))]
                  (Build_Possibility 1 None) None false false listget_taken
                  (fun s => eq_refl) (fun s => eq_refl)
                  ltac:(constructor; [intros c Hc; injection Hc as <-; reflexivity
                                     | constructor]))).
  split; [reflexivity|]. constructor; [discriminate | constructor].
Defined.

Lemma wrong_kind_is_refused_witness :
  atype_of (Num 0 (member_of 0 1 false false)) = Ok (member_of 0 1 false false) /\
  do_Subscript (Num 0 (member_of 0 1 false false)) (Some (Num 0 untracked)) untracked
               (parameter_state (pt_members list_of_int64))
  = Raise (TypeError "object is not a list").
Proof.
  split; [reflexivity|].
  apply (proj1 (wrong_kind_is_refused (parameter_state (pt_members list_of_int64))
                  (Num 0 (member_of 0 1 false false)) 0 1 false false
                  (parameter_x (pt_members list_of_int64))
                  (Primitive false None) untracked eq_refl eq_refl eq_refl)).
  discriminate.
Defined.

Lemma len_of_nullable_list_fails_witness :
  env (parameter_state [List true None 1%nat; Primitive false None]) !! "len"
  = Some fn_len /\
  do_Call (Name "len" Load untracked) [Num 0 (member_of 0 0 true false)] untracked
          (parameter_state [List true None 1%nat; Primitive false None])
  = Raise (AttributeError "'Call' object has no attribute 'value'").
Proof.
  split; [reflexivity|].
  apply (len_of_nullable_list_fails
           (parameter_state [List true None 1%nat; Primitive false None])
           (Num 0 (member_of 0 0 true false)) 0 0 true false
           (parameter_x [List true None 1%nat; Primitive false None]) true None 1
           "len" Load untracked untracked); reflexivity.
Defined.


(** A list that runs from 2 to 9 has length 7. *)
Lemma len_of_list_through_compile_witness :
  exists c : Compiled,
    compile no_other_callee f_len (list_of false false) ∅ = Ok c /\
    call_compiled c (arrays_of [2; 9] [9; 12] [10; 20; 30]) [] = Some (Ok (VInt 7)).
Proof.
  destruct (len_of_list_through_compile no_other_callee false false [2; 9] [9; 12] [10; 20; 30])
    as (c & Hc & _ & _ & H).
  exists c. split; [exact Hc|].
  apply (H 2 9); [reflexivity | reflexivity | unfold int32; lia].
Defined.

(** The index [2 ** 32 - 1], which [listget] sees as -1, gives the last
    item of a nullable list that runs from 0 to 3. *)
Lemma item_through_compile_witness :
  int64 (2 ^ 32 - 1) /\
  exists c : Compiled,
    compile no_other_callee f_item (list_of true false) ∅ = Ok c /\
    call_compiled c (arrays_of [0; 3] [3; 5] [10; 20; 30; 40; 50]) [VInt (2 ^ 32 - 1)]
    = Some (Ok (VInt 30)).
Proof.
  assert (int64 (2 ^ 32 - 1)) as Hi by (unfold int64; lia).
  split; [exact Hi|].
  destruct (item_through_compile no_other_callee true false [0; 3] [3; 5] [10; 20; 30; 40; 50]
              (2 ^ 32 - 1) Hi) as (c & Hc & _ & _ & _ & H).
  exists c. split; [exact Hc|].
  rewrite (H 0 3); [reflexivity | reflexivity | reflexivity | unfold int32; lia
                    | unfold int32; lia].
Defined.

(** *** Code that touches no column *)



















End CompilerFacts.
